(** * SQLiteWrapper.h: prepared-statement cache, bind/extract dispatch, cursors

    A shallow embedding of [sqlite::Database<db_name>] (one thread, one
    logical database).  The SQLite library itself is an interface
    ([Sqlite3]): the wrapper's code is embedded as functions that thread the
    engine's state and record every call made to it. *)

From Stdlib Require Import ZArith Lia.
From stdpp Require Import base option list gmap strings.

Set Default Proof Using "Type".

(** ** Handles *)

(** [sqlite3 *] and [sqlite3_stmt *]: addresses, [nullptr] is address 0. *)
Definition sqlite3 := N.
Definition sqlite3_stmt := N.
Definition nullptr : N := 0%N.

(** ** sqlite3.h

    The header is not part of the sources: its constants and functions are
    the fields of this class.  Functions that the wrapper calls take the
    engine's state and give the new one back. *)
Class Sqlite3 := {
  engine_state : Type;
  SQLITE_OK : Z;
  SQLITE_ERROR : Z;
  SQLITE_ROW : Z;
  SQLITE_NULL : Z;
  SQLITE_PREPARE_PERSISTENT : Z;
  SQLITE_CONFIG_MULTITHREAD : Z;
  SQLITE_CONFIG_LOG : Z;
  sqlite3_config : Z -> engine_state -> engine_state;
  sqlite3_open : string -> engine_state -> Z * sqlite3 * engine_state;
  sqlite3_busy_handler : sqlite3 -> engine_state -> engine_state;
  sqlite3_close_v2 : sqlite3 -> engine_state -> engine_state;
  sqlite3_prepare_v3 :
    sqlite3 -> string -> Z -> Z -> engine_state -> Z * sqlite3_stmt * engine_state;
  sqlite3_finalize : sqlite3_stmt -> engine_state -> engine_state;
  sqlite3_step : sqlite3_stmt -> engine_state -> Z * engine_state;
  sqlite3_reset : sqlite3_stmt -> engine_state -> engine_state;
  sqlite3_clear_bindings : sqlite3_stmt -> engine_state -> engine_state;
  sqlite3_bind_int64 : sqlite3_stmt -> Z -> Z -> engine_state -> engine_state;
  sqlite3_bind_text : sqlite3_stmt -> Z -> string -> Z -> engine_state -> engine_state;
  sqlite3_bind_blob : sqlite3_stmt -> Z -> string -> Z -> engine_state -> engine_state;
  sqlite3_bind_null : sqlite3_stmt -> Z -> engine_state -> engine_state;
  sqlite3_column_count : sqlite3_stmt -> engine_state -> Z;
  sqlite3_column_type : sqlite3_stmt -> Z -> engine_state -> Z;
  sqlite3_column_int64 : sqlite3_stmt -> Z -> engine_state -> Z * engine_state;
  sqlite3_column_text : sqlite3_stmt -> Z -> engine_state -> string * engine_state;
  sqlite3_column_bytes : sqlite3_stmt -> Z -> engine_state -> Z * engine_state;
}.

(** A call made to the engine, with what it returned where the wrapper looks
    at it. *)
Inductive call :=
  | call_config (op : Z)
  | call_open (filename : string) (rc : Z) (db : sqlite3)
  | call_busy_handler (db : sqlite3)
  | call_post_connection_hook (db : sqlite3)
  | call_close_v2 (db : sqlite3)
  | call_prepare_v3 (db : sqlite3) (sql : string) (nbyte flags : Z)
                    (rc : Z) (stmt : sqlite3_stmt)
  | call_finalize (stmt : sqlite3_stmt)
  | call_step (stmt : sqlite3_stmt) (rc : Z)
  | call_reset (stmt : sqlite3_stmt)
  | call_clear_bindings (stmt : sqlite3_stmt)
  | call_bind_int64 (stmt : sqlite3_stmt) (idx : Z) (v : Z)
  | call_bind_text (stmt : sqlite3_stmt) (idx : Z) (s : string) (n : Z)
  | call_bind_blob (stmt : sqlite3_stmt) (idx : Z) (s : string) (n : Z)
  | call_bind_null (stmt : sqlite3_stmt) (idx : Z)
  | call_column_count (stmt : sqlite3_stmt) (n : Z)
  | call_column_type (stmt : sqlite3_stmt) (idx : Z) (ty : Z)
  | call_column_int64 (stmt : sqlite3_stmt) (idx : Z) (v : Z)
  | call_column_text (stmt : sqlite3_stmt) (idx : Z) (s : string)
  | call_column_bytes (stmt : sqlite3_stmt) (idx : Z) (n : Z).

Definition is_step (c : call) : bool :=
  match c with call_step _ _ => true | _ => false end.

Definition is_prepare (c : call) : bool :=
  match c with call_prepare_v3 _ _ _ _ _ _ => true | _ => false end.

Definition is_bind (c : call) : bool :=
  match c with
  | call_bind_int64 _ _ _ | call_bind_text _ _ _ _
  | call_bind_blob _ _ _ _ | call_bind_null _ _ => true
  | _ => false
  end.

Definition is_column_read (c : call) : bool :=
  match c with
  | call_column_type _ _ _ | call_column_int64 _ _ _
  | call_column_text _ _ _ | call_column_bytes _ _ _ => true
  | _ => false
  end.

Definition is_config (c : call) : bool :=
  match c with call_config _ => true | _ => false end.

Definition is_open (c : call) : bool :=
  match c with call_open _ _ _ => true | _ => false end.

(** Calls made while a connection is set up. *)
Definition is_setup (c : call) : bool :=
  match c with
  | call_config _ | call_open _ _ _ | call_busy_handler _
  | call_post_connection_hook _ => true
  | _ => false
  end.

(** Calls that give a statement back or end it. *)
Definition is_release (c : call) : bool :=
  match c with
  | call_reset _ | call_clear_bindings _ | call_finalize _ => true
  | _ => false
  end.

(** Calls made by a row fetcher. *)
Definition is_fetch (c : call) : bool :=
  match c with
  | call_column_count _ _ | call_step _ _ => true
  | _ => is_column_read c
  end.

(** ** Types and values of the arguments of [query()] and of a row fetcher *)

(** The integral types ([std::is_integral_v]). *)
Inductive integral :=
  | i_bool
  | i_signed (bits : N)
  | i_unsigned (bits : N).

Inductive ty :=
  | TIntegral (k : integral)
  | TCharPtr                    (* const char *, char * *)
  | TString                     (* std::string *)
  | TStringView                 (* std::string_view *)
  | TBlob                       (* sqlite::blob *)
  | TBlobView                   (* sqlite::blob_view *)
  | TNullopt                    (* std::nullopt_t *)
  | TOptional (t : ty)          (* std::optional<T> *)
  | TUser (u : N).              (* a class type of the user, by name *)

(** The objects of the user's class types. *)
Class UserTypes := user_val : N -> Type.

Section Values.
Context {UT : UserTypes}.

Fixpoint val (t : ty) : Type :=
  match t with
  | TIntegral _ => Z
  | TCharPtr | TString | TStringView | TBlob | TBlobView => string
  | TNullopt => unit
  | TOptional t' => option (val t')
  | TUser u => user_val u
  end.

(** One argument of a call, with its static type. *)
Definition arg := { t : ty & val t }.

Definition arg_t (a : arg) : ty := projT1 a.

(** The converters of the user: [user_serialize_fn<T>] and
    [user_deserialize_fn<T>] as specialised for the class types; [None] is
    the primary template's [nullptr].  [query()] calls a serialize converter
    on a [const] lvalue ([user_serialize_fn<arg_t>(arg)] with
    [const auto &arg]), so a converter that takes its argument by value is
    listed only for a class type that can be copied; for one that cannot,
    the call of [query()] does not compile, as it does not here with
    [None]. *)
Class Converters := {
  user_serialize_fn_of : forall u : N, option { r : ty & user_val u -> val r };
  user_deserialize_fn_of : forall u : N, option { from : ty & val from -> user_val u };
}.

End Values.

(** Conversion of an integral argument to [sqlite3_int64] and back. *)
Definition wrap_signed (bits : N) (z : Z) : Z :=
  let m := (2 ^ Z.of_N bits)%Z in
  (((z + m / 2) mod m) - m / 2)%Z.

Definition wrap_unsigned (bits : N) (z : Z) : Z := (z mod 2 ^ Z.of_N bits)%Z.

Definition to_sqlite3_int64 (z : Z) : Z := wrap_signed 64 z.

Definition from_sqlite3_int64 (k : integral) (z : Z) : Z :=
  match k with
  | i_bool => if (z =? 0)%Z then 0%Z else 1%Z
  | i_signed b => wrap_signed b z
  | i_unsigned b => wrap_unsigned b z
  end.

(** ** detail::maybe_invoke *)

(** What a [const auto &] template argument refers to: a string object or a
    function returning one. *)
Inductive thing :=
  | string_object (s : string)
  | producer (f : unit -> string).

Definition maybe_invoke (x : thing) : string :=
  match x with
  | producer f => f tt
  | string_object s => s
  end.

(** The template argument [query_str]: the static object it refers to, by
    address, and that object. *)
Record query_ref := { q_addr : N; q_thing : thing }.

(** ** class error *)
Record error := { err_code : Z }.

(** ** The wrapper *)

Section Wrapper.
Context {SQ : Sqlite3}.

(** *** Programs that only talk to the engine

    They thread the engine's state and collect the calls they make.  [None]
    is an instantiation that is rejected at compile time (a
    [static_assert] that fails), so that nothing runs. *)
Definition Eng (A : Type) : Type :=
  engine_state -> option (A * engine_state * list call).

#[export] Instance Eng_ret : MRet Eng := fun A a e => Some (a, e, []).

#[export] Instance Eng_bind : MBind Eng := fun A B f m e =>
  match m e with
  | Some (a, e1, c1) =>
      match f a e1 with
      | Some (b, e2, c2) => Some (b, e2, c1 ++ c2)
      | None => None
      end
  | None => None
  end.

Definition static_assert_false {A} : Eng A := fun _ => None.

Definition eng_config (op : Z) : Eng unit := fun e =>
  Some (tt, sqlite3_config op e, [call_config op]).

Definition eng_open (filename : string) : Eng (Z * sqlite3) := fun e =>
  let '(rc, db, e') := sqlite3_open filename e in
  Some ((rc, db), e', [call_open filename rc db]).

Definition eng_busy_handler (db : sqlite3) : Eng unit := fun e =>
  Some (tt, sqlite3_busy_handler db e, [call_busy_handler db]).

Definition eng_hook (hook : sqlite3 -> engine_state -> engine_state)
    (db : sqlite3) : Eng unit := fun e =>
  Some (tt, hook db e, [call_post_connection_hook db]).

Definition eng_close_v2 (db : sqlite3) : Eng unit := fun e =>
  Some (tt, sqlite3_close_v2 db e, [call_close_v2 db]).

Definition eng_prepare_v3 (db : sqlite3) (sql : string) (nbyte flags : Z)
    : Eng (Z * sqlite3_stmt) := fun e =>
  let '(rc, stmt, e') := sqlite3_prepare_v3 db sql nbyte flags e in
  Some ((rc, stmt), e', [call_prepare_v3 db sql nbyte flags rc stmt]).

Definition eng_finalize (stmt : sqlite3_stmt) : Eng unit := fun e =>
  Some (tt, sqlite3_finalize stmt e, [call_finalize stmt]).

Definition eng_step (stmt : sqlite3_stmt) : Eng Z := fun e =>
  let '(rc, e') := sqlite3_step stmt e in
  Some (rc, e', [call_step stmt rc]).

Definition eng_reset (stmt : sqlite3_stmt) : Eng unit := fun e =>
  Some (tt, sqlite3_reset stmt e, [call_reset stmt]).

Definition eng_clear_bindings (stmt : sqlite3_stmt) : Eng unit := fun e =>
  Some (tt, sqlite3_clear_bindings stmt e, [call_clear_bindings stmt]).

Definition eng_bind_int64 (stmt : sqlite3_stmt) (idx v : Z) : Eng unit := fun e =>
  Some (tt, sqlite3_bind_int64 stmt idx v e, [call_bind_int64 stmt idx v]).

Definition eng_bind_text (stmt : sqlite3_stmt) (idx : Z) (s : string) (n : Z)
    : Eng unit := fun e =>
  Some (tt, sqlite3_bind_text stmt idx s n e, [call_bind_text stmt idx s n]).

Definition eng_bind_blob (stmt : sqlite3_stmt) (idx : Z) (s : string) (n : Z)
    : Eng unit := fun e =>
  Some (tt, sqlite3_bind_blob stmt idx s n e, [call_bind_blob stmt idx s n]).

Definition eng_bind_null (stmt : sqlite3_stmt) (idx : Z) : Eng unit := fun e =>
  Some (tt, sqlite3_bind_null stmt idx e, [call_bind_null stmt idx]).

Definition eng_column_count (stmt : sqlite3_stmt) : Eng Z := fun e =>
  let n := sqlite3_column_count stmt e in
  Some (n, e, [call_column_count stmt n]).

Definition eng_column_type (stmt : sqlite3_stmt) (idx : Z) : Eng Z := fun e =>
  let t := sqlite3_column_type stmt idx e in
  Some (t, e, [call_column_type stmt idx t]).

Definition eng_column_int64 (stmt : sqlite3_stmt) (idx : Z) : Eng Z := fun e =>
  let '(v, e') := sqlite3_column_int64 stmt idx e in
  Some (v, e', [call_column_int64 stmt idx v]).

Definition eng_column_text (stmt : sqlite3_stmt) (idx : Z) : Eng string := fun e =>
  let '(s, e') := sqlite3_column_text stmt idx e in
  Some (s, e', [call_column_text stmt idx s]).

Definition eng_column_bytes (stmt : sqlite3_stmt) (idx : Z) : Eng Z := fun e =>
  let '(n, e') := sqlite3_column_bytes stmt idx e in
  Some (n, e', [call_column_bytes stmt idx n]).

(** *** The state of the thread *)

Record Connection := { db_handle : sqlite3 }.

Record PreparedStmtCache := {
  cache_db_handle : sqlite3;
  first_free_stmt : sqlite3_stmt;
  other_free_stmts : list sqlite3_stmt;
}.

(** The engine, the calls made to it so far, [detail::sqlite3_configured],
    and the [static thread_local] objects of [connection_tls()] and of
    [singleton_tls()] (absent until first use; one cache for each
    [query_str], by the address of what it refers to). *)
Record World := {
  engine : engine_state;
  trace : list call;
  sqlite3_configured : bool;
  connection_tls_object : option Connection;
  singleton_tls_object : gmap N PreparedStmtCache;
}.

Definition set_configured (b : bool) (w : World) : World :=
  {| engine := engine w; trace := trace w; sqlite3_configured := b;
     connection_tls_object := connection_tls_object w;
     singleton_tls_object := singleton_tls_object w |}.

Definition set_connection (c : Connection) (w : World) : World :=
  {| engine := engine w; trace := trace w;
     sqlite3_configured := sqlite3_configured w;
     connection_tls_object := Some c;
     singleton_tls_object := singleton_tls_object w |}.

Definition set_singleton (q : query_ref) (c : PreparedStmtCache) (w : World)
    : World :=
  {| engine := engine w; trace := trace w;
     sqlite3_configured := sqlite3_configured w;
     connection_tls_object := connection_tls_object w;
     singleton_tls_object := <[q_addr q := c]> (singleton_tls_object w) |}.

Definition engine_ran (e : engine_state) (cs : list call) (w : World) : World :=
  {| engine := e; trace := trace w ++ cs;
     sqlite3_configured := sqlite3_configured w;
     connection_tls_object := connection_tls_object w;
     singleton_tls_object := singleton_tls_object w |}.

(** *** Code of the wrapper that can throw

    [Throw] is a C++ exception leaving the function; [IllFormed] a call
    that does not compile; [Undefined] a read of a member that was never
    initialised.  [S] is the state the function acts on. *)
Inductive outcome (S A : Type) :=
  | Return (a : A) (s : S)
  | Throw (e : error) (s : S)
  | IllFormed
  | Undefined.
Global Arguments Return {S A} a s.
Global Arguments Throw {S A} e s.
Global Arguments IllFormed {S A}.
Global Arguments Undefined {S A}.

Definition M (A : Type) : Type := World -> outcome World A.

#[export] Instance M_ret : MRet M := fun A a w => Return a w.

#[export] Instance M_bind : MBind M := fun A B f m w =>
  match m w with
  | Return a w1 => f a w1
  | Throw e w1 => Throw e w1
  | IllFormed => IllFormed
  | Undefined => Undefined
  end.

Definition throw {A} (e : error) : M A := fun w => Throw e w.

Definition gets {A} (f : World -> A) : M A := fun w => Return (f w) w.

Definition modify (f : World -> World) : M unit := fun w => Return tt (f w).

Definition run {A} (m : Eng A) : M A := fun w =>
  match m (engine w) with
  | Some (a, e, cs) => Return a (engine_ran e cs w)
  | None => IllFormed
  end.

(** *** Database<db_name> *)

(** The template argument and the static member [post_connection_hook]
    (an empty [std::function] is [None]). *)
Class Database := {
  db_name : thing;
  post_connection_hook : option (sqlite3 -> engine_state -> engine_state);
}.

Context {DB : Database} {UT : UserTypes} {CV : Converters}.

(** The one-time configuration of SQLite, under [sqlite3_config_mutex]. *)
Definition configure_once : M unit :=
  configured ← gets sqlite3_configured;
  if negb configured then
    _ ← run (eng_config SQLITE_CONFIG_MULTITHREAD);
    _ ← run (eng_config SQLITE_CONFIG_LOG);
    modify (set_configured true)
  else mret tt.

(** [Connection::Connection(void)] *)
Definition Connection_ctor : M Connection :=
  _ ← configure_once;
  '(rc, db) ← run (eng_open (maybe_invoke db_name));
  if decide (rc ≠ SQLITE_OK) then throw {| err_code := rc |}
  else
    _ ← run (eng_busy_handler db);
    _ ← match post_connection_hook with
        | Some hook => run (eng_hook hook db)
        | None => mret tt
        end;
    mret {| db_handle := db |}.

(** [Connection::~Connection(void)] *)
Definition Connection_dtor (this : Connection) : Eng unit :=
  eng_close_v2 (db_handle this).

(** [connection_tls()]: the object is constructed by the first call that
    gets through its constructor. *)
Definition connection_tls : M Connection :=
  o ← gets connection_tls_object;
  match o with
  | Some object => mret object
  | None =>
      object ← Connection_ctor;
      _ ← modify (set_connection object);
      mret object
  end.

(** [PreparedStmtCache::PreparedStmtCache(void)] *)
Definition PreparedStmtCache_ctor : M PreparedStmtCache :=
  c ← connection_tls;
  mret {| cache_db_handle := db_handle c;
          first_free_stmt := nullptr; other_free_stmts := [] |}.


(** [singleton_tls()] *)
Definition singleton_tls (q : query_ref) : M PreparedStmtCache :=
  o ← gets (fun w => singleton_tls_object w !! q_addr q);
  match o with
  | Some object => mret object
  | None =>
      object ← PreparedStmtCache_ctor;
      _ ← modify (set_singleton q object);
      mret object
  end.

(** [internal_get()]: the statement and the cache object after the call. *)
Definition internal_get (q : query_ref) (this : PreparedStmtCache)
    : M (sqlite3_stmt * PreparedStmtCache) :=
  if decide (first_free_stmt this ≠ nullptr) then
    mret (first_free_stmt this,
          {| cache_db_handle := cache_db_handle this;
             first_free_stmt := nullptr;
             other_free_stmts := other_free_stmts this |})
  else
    match last (other_free_stmts this) with
    | Some stmt =>
        mret (stmt,
              {| cache_db_handle := cache_db_handle this;
                 first_free_stmt := first_free_stmt this;
                 other_free_stmts := removelast (other_free_stmts this) |})
    | None =>
        let query_str_view := maybe_invoke (q_thing q) in
        '(rc, stmt) ← run (eng_prepare_v3 (cache_db_handle this) query_str_view
                             (Z.of_nat (String.length query_str_view) + 1)
                             SQLITE_PREPARE_PERSISTENT);
        if decide (rc ≠ SQLITE_OK) then throw {| err_code := rc |}
        else mret (stmt, this)
    end.

(** [internal_put(stmt)] *)
Definition internal_put (stmt : sqlite3_stmt) (this : PreparedStmtCache)
    : PreparedStmtCache :=
  if decide (first_free_stmt this = nullptr) then
    {| cache_db_handle := cache_db_handle this;
       first_free_stmt := stmt;
       other_free_stmts := other_free_stmts this |}
  else
    {| cache_db_handle := cache_db_handle this;
       first_free_stmt := first_free_stmt this;
       other_free_stmts := other_free_stmts this ++ [stmt] |}.

(** [get_tls()] and [put_tls(stmt)] *)
Definition get_tls (q : query_ref) : M sqlite3_stmt :=
  this ← singleton_tls q;
  '(stmt, this') ← internal_get q this;
  _ ← modify (set_singleton q this');
  mret stmt.

Definition put_tls (q : query_ref) (stmt : sqlite3_stmt) : M unit :=
  this ← singleton_tls q;
  modify (set_singleton q (internal_put stmt this)).

(** *** QueryResult *)

(** A [PutCallbackType *]: the only functions whose address is taken are
    the [put_tls] of the caches. *)
Inductive PutCallbackType :=
  | put_tls_addr (q : query_ref).

Definition call_put_cb (cb : PutCallbackType) (stmt : sqlite3_stmt) : M unit :=
  match cb with put_tls_addr q => put_tls q stmt end.

(** The members; [None] is a member that no constructor initialised. *)
Record QueryResult := {
  stmt : sqlite3_stmt;
  put_cb : option PutCallbackType;
  ret : option Z;
  first_invocation : bool;
}.

(** [QueryResult()] *)
Definition QueryResult_default : QueryResult :=
  {| stmt := nullptr; put_cb := None; ret := None; first_invocation := true |}.

(** [QueryResult(sqlite3_stmt *stmt_, PutCallbackType *put_cb_)] *)
Definition QueryResult_ctor (stmt_ : sqlite3_stmt) (put_cb_ : PutCallbackType)
    : Eng QueryResult :=
  rc ← eng_step stmt_;
  mret {| stmt := stmt_; put_cb := Some put_cb_; ret := Some rc;
          first_invocation := true |}.

(** [~QueryResult()] *)
Definition QueryResult_dtor (this : QueryResult) : M unit :=
  if decide (stmt this = nullptr) then mret tt
  else
    _ ← run (eng_clear_bindings (stmt this));
    _ ← run (eng_reset (stmt this));
    match put_cb this with
    | Some cb => call_put_cb cb (stmt this)
    | None => fun _ => Undefined
    end.

(** [resultCode()] *)
Definition resultCode (this : QueryResult) : option Z := ret this.

(** [operator=(QueryResult &&other)], on the objects at the addresses
    [this] and [other] ([None]: no such object). *)
Definition operator_assign (this other : N) (objs : gmap N QueryResult)
    : option (gmap N QueryResult) :=
  match objs !! this, objs !! other with
  | Some _, Some o =>
      if decide (this ≠ other) then
        let objs1 :=
          <[this := {| stmt := stmt o; put_cb := put_cb o; ret := ret o;
                       first_invocation := first_invocation o |}]> objs in
        Some (<[other := {| stmt := nullptr; put_cb := put_cb o; ret := ret o;
                            first_invocation := first_invocation o |}]> objs1)
      else Some objs
  | _, _ => None
  end.

(** *** Converters *)

(** The variable template [user_serialize_fn<T>]: the specialisations of
    the user, and the one for [std::optional<T>], enabled when
    [user_serialize_fn<T> != nullptr]. *)
Fixpoint user_serialize_fn (t : ty) : option { r : ty & val t -> val r } :=
  match t return option { r : ty & val t -> val r } with
  | TUser u => user_serialize_fn_of u
  | TOptional t' =>
      match user_serialize_fn t' with
      | Some (existT r fn) =>
          Some (existT (TOptional r)
                  (fun arg : option (val t') =>
                     match arg with
                     | Some x => Some (fn x)
                     | None => None
                     end))
      | None => None
      end
  | _ => None
  end.

(** [user_serialize_fn<T> != nullptr] *)
Definition has_serialize_fn (t : ty) : bool :=
  match user_serialize_fn t with Some _ => true | None => false end.

(** The lambda [maybe_serialize] of [query()]. *)
Definition maybe_serialize (a : arg) : arg :=
  let (t, v) := a in
  match user_serialize_fn t with
  | Some (existT r fn) => existT r (fn v)
  | None => existT t v
  end.

(** *** query() *)

(** The types for which [bind_dispatcher] is instantiated without reaching
    its [static_assert]; for [std::optional<T>] the call for [T] is
    instantiated whatever the argument holds. *)
Fixpoint bindable (t : ty) : bool :=
  match t with
  | TIntegral _ | TCharPtr | TString | TBlob | TBlobView | TNullopt => true
  | TOptional t' => bindable t'
  | TStringView | TUser _ => false
  end.

(** The lambda [bind_dispatcher]: binds [arg] at [idx] and gives the value
    of [idx] afterwards. *)
Fixpoint bind_dispatcher (stmt_ : sqlite3_stmt) (t : ty)
    : val t -> Z -> Eng Z :=
  match t return val t -> Z -> Eng Z with
  | TIntegral _ => fun arg idx =>
      _ ← eng_bind_int64 stmt_ idx (to_sqlite3_int64 arg);
      mret (idx + 1)%Z
  | TCharPtr => fun arg idx =>
      _ ← eng_bind_text stmt_ idx arg (Z.of_nat (String.length arg));
      mret (idx + 1)%Z
  | TString => fun arg idx =>
      _ ← eng_bind_text stmt_ idx arg (Z.of_nat (String.length arg));
      mret (idx + 1)%Z
  | TBlob | TBlobView => fun arg idx =>
      _ ← eng_bind_blob stmt_ idx arg (Z.of_nat (String.length arg));
      mret (idx + 1)%Z
  | TNullopt => fun _ idx =>
      _ ← eng_bind_null stmt_ idx;
      mret (idx + 1)%Z
  | TOptional t' => fun arg idx =>
      if bindable t' then
        match arg with
        | Some x => bind_dispatcher stmt_ t' x idx
        | None =>
            _ ← eng_bind_null stmt_ idx;
            mret (idx + 1)%Z
        end
      else static_assert_false
  | TStringView | TUser _ => fun _ _ => static_assert_false
  end.

(** The fold [(bind_dispatcher(bind_args, bind_dispatcher), ...)]. *)
Fixpoint bind_all (stmt_ : sqlite3_stmt) (bind_args : list arg) (idx : Z)
    : Eng Z :=
  match bind_args with
  | [] => mret idx
  | a :: rest =>
      idx' ← bind_dispatcher stmt_ (projT1 a) (projT2 a) idx;
      bind_all stmt_ rest idx'
  end.

(** [query<query_str>(bind_args...)].  [depth] bounds the recursive
    instantiations of the template, as compilers do; a call with an
    argument that [bind_dispatcher] rejects does not compile. *)
Fixpoint query (depth : nat) (q : query_ref) (bind_args : list arg)
    : M QueryResult :=
  match depth with
  | O => fun _ => IllFormed
  | S depth' =>
      if existsb (fun a => has_serialize_fn (arg_t a)) bind_args then
        query depth' q (map maybe_serialize bind_args)
      else if forallb (fun a => bindable (arg_t a)) bind_args then
        stmt_ ← get_tls q;
        _ ← run (bind_all stmt_ bind_args 1);
        run (QueryResult_ctor stmt_ (put_tls_addr q))
      else fun _ => IllFormed
  end.

(** *** QueryResult::operator() *)

(** [arg_t(ptr, len)] for the text at [ptr]. *)
Definition string_of_ptr_len (ptr : string) (len : Z) : string :=
  String.substring 0 (Z.to_nat len) ptr.

(** The types for which [column_dispatcher] is instantiated without
    reaching its [static_assert], within [depth] instantiations for
    [user_deserialize_fn]. *)
Fixpoint extractable (depth : nat) : ty -> bool :=
  fix self (t : ty) : bool :=
    match t with
    | TIntegral _ | TString | TStringView | TNullopt => true
    | TOptional t' => self t'
    | TUser u =>
        match user_deserialize_fn_of u with
        | Some (existT from _) =>
            match depth with
            | S depth' => extractable depth' from
            | O => false
            end
        | None => false
        end
    | TCharPtr | TBlob | TBlobView => false
    end.

(** The lambda [column_dispatcher]: the value assigned to [arg] and the
    value of [idx] afterwards.  [depth] bounds the chain of
    [user_deserialize_fn] instantiations. *)
Fixpoint column_dispatcher (depth : nat) (stmt_ : sqlite3_stmt)
    : forall t : ty, Z -> Eng (val t * Z) :=
  fix self (t : ty) : Z -> Eng (val t * Z) :=
    match t return Z -> Eng (val t * Z) with
    | TIntegral k => fun idx =>
        v ← eng_column_int64 stmt_ idx;
        mret (from_sqlite3_int64 k v, (idx + 1)%Z)
    | TString => fun idx =>
        ptr ← eng_column_text stmt_ idx;
        len ← eng_column_bytes stmt_ idx;
        mret (string_of_ptr_len ptr len, (idx + 1)%Z)
    | TStringView => fun idx =>
        ptr ← eng_column_text stmt_ idx;
        len ← eng_column_bytes stmt_ idx;
        mret (string_of_ptr_len ptr len, (idx + 1)%Z)
    | TNullopt => fun idx => mret (tt, (idx + 1)%Z)
    | TOptional t' => fun idx =>
        if extractable depth t' then
          ct ← eng_column_type stmt_ idx;
          if decide (ct = SQLITE_NULL) then mret (None, (idx + 1)%Z)
          else
            '(nonnull_arg, idx') ← self t' idx;
            mret (Some nonnull_arg, idx')
        else static_assert_false
    | TUser u => fun idx =>
        match user_deserialize_fn_of u with
        | Some (existT from fn_ptr) =>
            match depth with
            | S depth' =>
                '(from_arg, idx') ← column_dispatcher depth' stmt_ from idx;
                mret (fn_ptr from_arg, idx')
            | O => static_assert_false
            end
        | None => static_assert_false
        end
    | TCharPtr | TBlob | TBlobView => fun _ => static_assert_false
    end.

(** The fold [(column_dispatcher(args, column_dispatcher), ...)] over the
    types of the arguments: the values assigned, in order. *)
Fixpoint column_all (depth : nat) (stmt_ : sqlite3_stmt) (ts : list ty)
    (idx : Z) : Eng (list arg) :=
  match ts with
  | [] => mret []
  | t :: ts' =>
      '(v, idx') ← column_dispatcher depth stmt_ t idx;
      rest ← column_all depth stmt_ ts' idx';
      mret (existT t v :: rest)
  end.

Definition set_ret (rc : Z) (this : QueryResult) : QueryResult :=
  {| stmt := stmt this; put_cb := put_cb this; ret := Some rc;
     first_invocation := first_invocation this |}.

Definition set_first_invocation (b : bool) (this : QueryResult) : QueryResult :=
  {| stmt := stmt this; put_cb := put_cb this; ret := ret this;
     first_invocation := b |}.

(** What [operator()] acts on: the cursor, the objects its arguments refer
    to, and the thread. *)
Definition frame : Type := QueryResult * list arg * World.

(** [operator()(Ts &&...args)]; a call with an argument that
    [column_dispatcher] rejects does not compile. *)
Definition operator_call (depth : nat) (this : QueryResult) (args : list arg)
    (w : World) : outcome frame bool :=
  let n := sqlite3_column_count (stmt this) (engine w) in
  let w0 := engine_ran (engine w) [call_column_count (stmt this) n] w in
  if negb (forallb (extractable depth) (map arg_t args)) then IllFormed
  else if decide (Z.of_nat (length args) > n)%Z then
    Throw {| err_code := SQLITE_ERROR |} (this, args, w0)
  else
    let '(this1, w1) :=
      if negb (first_invocation this) then
        let '(rc, e1) := sqlite3_step (stmt this) (engine w0) in
        (set_ret rc this, engine_ran e1 [call_step (stmt this) rc] w0)
      else (this, w0) in
    match ret this1 with
    | None => Undefined
    | Some rc =>
        if decide (rc ≠ SQLITE_ROW) then Return false (this1, args, w1)
        else
          match column_all depth (stmt this1) (map arg_t args) 0 (engine w1) with
          | Some (args', e2, cs) =>
              Return true
                (set_first_invocation false this1, args', engine_ran e2 cs w1)
          | None => IllFormed
          end
    end.

(** *** The contract of the bind dispatcher

    Follows the spec's words (4.4), to be compared with
    [bind_dispatcher]: the call that binds one argument at a given parameter
    index; [None] for a type the contract does not list. *)
Fixpoint spec_bind_call (stmt_ : sqlite3_stmt) (t : ty)
    : val t -> Z -> option call :=
  match t return val t -> Z -> option call with
  | TIntegral _ => fun v idx =>
      Some (call_bind_int64 stmt_ idx (to_sqlite3_int64 v))
  | TCharPtr | TString => fun v idx =>
      Some (call_bind_text stmt_ idx v (Z.of_nat (String.length v)))
  | TBlob | TBlobView => fun v idx =>
      Some (call_bind_blob stmt_ idx v (Z.of_nat (String.length v)))
  | TNullopt => fun _ idx => Some (call_bind_null stmt_ idx)
  | TOptional t' => fun v idx =>
      match v with
      | Some x => spec_bind_call stmt_ t' x idx
      | None => Some (call_bind_null stmt_ idx)
      end
  | TStringView | TUser _ => fun _ _ => None
  end.

(** *** What the caches hold, and what was prepared *)

(** The idle statements of a cache: the slot and the list, without null
    pointers. *)
Definition idle_stmts (c : PreparedStmtCache) : list sqlite3_stmt :=
  filter (fun s => s ≠ nullptr) (first_free_stmt c :: other_free_stmts c).

Definition cached (q : query_ref) (w : World) : list sqlite3_stmt :=
  match singleton_tls_object w !! q_addr q with
  | Some c => idle_stmts c
  | None => []
  end.

(** The slot of the cache of [q] holds a statement. *)
Definition slot_occupied (q : query_ref) (w : World) : Prop :=
  exists c, singleton_tls_object w !! q_addr q = Some c
            /\ first_free_stmt c ≠ nullptr.

(** The statements that the calls [cs] prepared from scratch. *)
Definition prepared (cs : list call) : list sqlite3_stmt :=
  omap (fun c =>
          match c with
          | call_prepare_v3 _ _ _ _ rc s =>
              if decide (rc = SQLITE_OK /\ s ≠ nullptr) then Some s else None
          | _ => None
          end) cs.

(** The arguments that [query()] binds in the end: those it was called
    with, after as many rounds of [maybe_serialize] as there are until no
    type has a converter. *)
Inductive serializes_to : list arg -> list arg -> Prop :=
  | ser_done (bind_args : list arg) :
      existsb (fun a => has_serialize_fn (arg_t a)) bind_args = false ->
      serializes_to bind_args bind_args
  | ser_round (bind_args bind_args' : list arg) :
      existsb (fun a => has_serialize_fn (arg_t a)) bind_args = true ->
      serializes_to (map maybe_serialize bind_args) bind_args' ->
      serializes_to bind_args bind_args'.

(** The codes of the [sqlite3_open] and [sqlite3_prepare_v3] calls among
    [cs] that did not return [SQLITE_OK]. *)
Definition failures (cs : list call) : list Z :=
  omap (fun c =>
          match c with
          | call_open _ rc _ | call_prepare_v3 _ _ _ _ rc _ =>
              if decide (rc ≠ SQLITE_OK) then Some rc else None
          | _ => None
          end) cs.

(** *** Shapes of the calls of a checkout *)

(** The calls of a connection that was set up: configuration (the first
    time), one successful [sqlite3_open], then the busy handler and the
    hook. *)
Definition connected (cs : list call) : Prop :=
  exists pre name db post,
    cs = pre ++ call_open name SQLITE_OK db :: post
    /\ forallb is_config pre = true
    /\ forallb (fun c => is_setup c && negb (is_open c)) post = true.

(** The calls of a connection whose [sqlite3_open] returned [rc]: nothing
    follows the call that failed. *)
Definition connect_failed (rc : Z) (cs : list call) : Prop :=
  exists pre name db,
    cs = pre ++ [call_open name rc db] /\ forallb is_config pre = true.

(** The calls up to a [sqlite3_prepare_v3] that returned [rc] and [s]:
    nothing follows it, and before it there is at most the set-up of the
    connection. *)
Definition prepare_last (rc : Z) (s : sqlite3_stmt) (cs : list call) : Prop :=
  exists pre db sql nbyte flags,
    cs = pre ++ [call_prepare_v3 db sql nbyte flags rc s]
    /\ (pre = [] \/ connected pre).

(** *** Callers *)

(** A caller that invokes the row fetcher once for each element of
    [fetches] (the objects passed each time), until one invocation throws:
    what the invocations returned, the cursor and the thread afterwards. *)
Fixpoint fetch_rows (depth : nat) (this : QueryResult)
    (fetches : list (list arg)) (w : World)
    : option (list bool * QueryResult * World) :=
  match fetches with
  | [] => Some ([], this, w)
  | args :: rest =>
      match operator_call depth this args w with
      | Return b (this', _, w') =>
          match fetch_rows depth this' rest w' with
          | Some (bs, r, w'') => Some (b :: bs, r, w'')
          | None => None
          end
      | Throw _ (this', _, w') => Some ([], this', w')
      | _ => None
      end
  end.

(** Of the results of the invocations of a row fetcher, those that follow
    the first [true]. *)
Fixpoint after_first_row (bs : list bool) : list bool :=
  match bs with
  | [] => []
  | true :: rest => rest
  | false :: rest => after_first_row rest
  end.

(** One use of [query<query_str>(bind_args...)]: the cursor is stepped as
    [fetch_rows] does and destroyed when its scope ends (also on an
    exception, which the caller catches).  [None]: the use does not compile,
    reads an uninitialised member, or throws out of the destructor. *)
Definition use_query (depth : nat) (q : query_ref)
    (use : list arg * list (list arg)) (w : World) : option World :=
  match query depth q use.1 w with
  | Return fetch_row w1 =>
      match fetch_rows depth fetch_row use.2 w1 with
      | Some (_, fetch_row', w2) =>
          match QueryResult_dtor fetch_row' w2 with
          | Return _ w3 => Some w3
          | _ => None
          end
      | None => None
      end
  | Throw _ w1 => Some w1
  | _ => None
  end.

(** The uses of one [query_str], one after the other. *)
Fixpoint use_query_seq (depth : nat) (q : query_ref)
    (uses : list (list arg * list (list arg))) (w : World) : option World :=
  match uses with
  | [] => Some w
  | use :: rest =>
      match use_query depth q use w with
      | Some w' => use_query_seq depth q rest w'
      | None => None
      end
  end.

(** From test/single-thread-tests.cpp, [test_transactions()]:
      [auto fetch_row = db::query<select_query>(1);]
      [fetch_row = db::query<select_query>(2);]
    with [fetch_row] at address 1 and the temporary of the second line at
    address 2.  The temporary is destroyed at the end of its full
    expression, [fetch_row] at the end of its scope, also when the second
    [query()] throws. *)
Definition reassign_cursor (depth : nat) (q : query_ref)
    (args1 args2 : list arg) (w : World) : outcome World unit :=
  match query depth q args1 w with
  | Return fetch_row w1 =>
      match query depth q args2 w1 with
      | Return temporary w2 =>
          match operator_assign 1 2 (<[2%N := temporary]> {[1%N := fetch_row]}) with
          | Some objs =>
              match objs !! 2%N, objs !! 1%N with
              | Some temporary', Some fetch_row' =>
                  (_ ← QueryResult_dtor temporary';
                   QueryResult_dtor fetch_row') w2
              | _, _ => Undefined
              end
          | None => Undefined
          end
      | Throw e w2 =>
          match QueryResult_dtor fetch_row w2 with
          | Return _ w3 => Throw e w3
          | other => other
          end
      | IllFormed => IllFormed
      | Undefined => Undefined
      end
  | Throw e w1 => Throw e w1
  | IllFormed => IllFormed
  | Undefined => Undefined
  end.

(** *** A thread using several cursors *)

(** What a caller does with its cursors: call [query()], which makes a new
    cursor (the last of the live ones); invoke the cursor at position [i];
    let the cursor at position [i] go out of scope.  Cursors are not
    assigned to. *)
Inductive cursor_op :=
  | op_query (q : query_ref) (bind_args : list arg)
  | op_fetch (i : nat) (args : list arg)
  | op_destroy (i : nat).

(** The live cursors and the thread. *)
Definition thread : Type := list QueryResult * World.

(** One operation; an exception is caught by the caller.  [None]: the
    operation does not compile, names no cursor, reads an uninitialised
    member, or throws out of the destructor. *)
Definition step_op (depth : nat) (op : cursor_op) (st : thread) : option thread :=
  match op with
  | op_query q bind_args =>
      match query depth q bind_args st.2 with
      | Return r w' => Some (st.1 ++ [r], w')
      | Throw _ w' => Some (st.1, w')
      | _ => None
      end
  | op_fetch i args =>
      match st.1 !! i with
      | Some r =>
          match operator_call depth r args st.2 with
          | Return _ (r', _, w') => Some (<[i := r']> st.1, w')
          | Throw _ (r', _, w') => Some (<[i := r']> st.1, w')
          | _ => None
          end
      | None => None
      end
  | op_destroy i =>
      match st.1 !! i with
      | Some r =>
          match QueryResult_dtor r st.2 with
          | Return _ w' => Some (delete i st.1, w')
          | _ => None
          end
      | None => None
      end
  end.

Fixpoint run_ops (depth : nat) (ops : list cursor_op) (st : thread)
    : option thread :=
  match ops with
  | [] => Some st
  | op :: rest =>
      match step_op depth op st with
      | Some st' => run_ops depth rest st'
      | None => None
      end
  end.

(** The largest number of cursors live at once while [ops] run. *)
Fixpoint peak_live (depth : nat) (ops : list cursor_op) (st : thread) : nat :=
  match ops with
  | [] => length st.1
  | op :: rest =>
      match step_op depth op st with
      | Some st' => Nat.max (length st.1) (peak_live depth rest st')
      | None => length st.1
      end
  end.

(** The operation is not a [query()] of another [query_str] than [q]. *)
Definition op_on (q : query_ref) (op : cursor_op) : Prop :=
  match op with
  | op_query q' _ => q' = q
  | _ => True
  end.

(** The statements that the live cursors hold. *)
Definition held (live : list QueryResult) : list sqlite3_stmt :=
  filter (fun s => s ≠ nullptr) (map stmt live).

(** The live cursors were made by [query<q>()], whose cache exists. *)
Definition cursors_of (q : query_ref) (st : thread) : Prop :=
  Forall (fun r => put_cb r = Some (put_tls_addr q)) st.1
  /\ (st.1 = [] \/ is_Some (singleton_tls_object st.2 !! q_addr q)).

(** *** Relations kept by the wrapper's code *)

(** Whenever [m] returns or throws, the calls it made and the thread before
    and after are related by [R]. *)
Definition keeps (R : World -> list call -> World -> Prop) {A} (m : M A)
    : Prop :=
  forall w,
    match m w with
    | Return _ w' => exists cs, trace w' = trace w ++ cs /\ R w cs w'
    | Throw _ w' => exists cs, trace w' = trace w ++ cs /\ R w cs w'
    | _ => True
    end.

(** Of the caches only the one at address [a] may have changed, and it was
    not removed. *)
Definition touches_only (a : N) (w : World) (cs : list call) (w' : World)
    : Prop :=
  (forall b, b ≠ a -> singleton_tls_object w' !! b = singleton_tls_object w !! b)
  /\ (is_Some (singleton_tls_object w !! a) ->
      is_Some (singleton_tls_object w' !! a)).

(** The calls made to the engine between two states of the thread. *)
Definition calls_since (w w' : World) : list call :=
  drop (length (trace w)) (trace w').

(** *** What the calls did to set up the connection *)

(** The handles given by the calls of [sqlite3_open] that returned
    [SQLITE_OK]. *)
Definition opened (cs : list call) : list sqlite3 :=
  omap (fun c =>
          match c with
          | call_open _ rc db => if decide (rc = SQLITE_OK) then Some db else None
          | _ => None
          end) cs.

(** The file names that [sqlite3_open] was called with. *)
Definition opens_named (cs : list call) : list string :=
  omap (fun c => match c with call_open name _ _ => Some name | _ => None end) cs.

(** The handles that a busy handler was installed on, and those that the
    hook was called with. *)
Definition busy_handlers (cs : list call) : list sqlite3 :=
  omap (fun c => match c with call_busy_handler db => Some db | _ => None end) cs.

Definition hooked (cs : list call) : list sqlite3 :=
  omap (fun c =>
          match c with call_post_connection_hook db => Some db | _ => None end) cs.

(** The options that [sqlite3_config] was called with. *)
Definition configs (cs : list call) : list Z :=
  omap (fun c => match c with call_config op => Some op | _ => None end) cs.

(** No [sqlite3_config] follows a [sqlite3_open]. *)
Fixpoint config_first (cs : list call) : Prop :=
  match cs with
  | [] => True
  | c :: rest => (is_open c = true -> configs rest = []) /\ config_first rest
  end.

(** The handle of the thread's connection, if it has one. *)
Definition connection_of (w : World) : list sqlite3 :=
  match connection_tls_object w with
  | Some c => [db_handle c]
  | None => []
  end.

(** How the calls [cs] and the thread's connection go together: a thread
    that has a connection keeps it and sets up nothing; one that has none
    opened at most the one it has afterwards, with the busy handler and the
    hook on it; SQLite is configured once, before it opens anything. *)
Definition one_connection (w : World) (cs : list call) (w' : World) : Prop :=
  (forall c, connection_tls_object w = Some c ->
     connection_tls_object w' = Some c
     /\ forallb (fun c => negb (is_setup c)) cs = true
     /\ sqlite3_configured w' = sqlite3_configured w)
  /\ (connection_tls_object w = None -> opened cs = connection_of w')
  /\ busy_handlers cs = opened cs
  /\ hooked cs = match post_connection_hook with
                 | Some _ => opened cs
                 | None => []
                 end
  /\ Forall (fun name => name = maybe_invoke db_name) (opens_named cs)
  /\ configs cs
     = (if sqlite3_configured w then []
        else if sqlite3_configured w'
             then [SQLITE_CONFIG_MULTITHREAD; SQLITE_CONFIG_LOG] else [])
  /\ config_first cs
  /\ (sqlite3_configured w = true -> sqlite3_configured w' = true)
  /\ (opens_named cs ≠ [] -> sqlite3_configured w' = true).

(** *** What statements are prepared on *)

(** Every cache of the thread was made on the thread's connection. *)
Definition caches_on_connection (w : World) : Prop :=
  forall a c,
    singleton_tls_object w !! a = Some c ->
    exists conn, connection_tls_object w = Some conn
                 /\ cache_db_handle c = db_handle conn.

(** A call of [sqlite3_prepare_v3] is on the connection of [w], for the
    text of [q] with the zero that ends it, and persistent. *)
Definition prepare_for (q : query_ref) (w : World) (c : call) : Prop :=
  match c with
  | call_prepare_v3 db sql nbyte flags _ _ =>
      connection_of w = [db]
      /\ sql = maybe_invoke (q_thing q)
      /\ nbyte = (Z.of_nat (String.length sql) + 1)%Z
      /\ flags = SQLITE_PREPARE_PERSISTENT
  | _ => True
  end.

Definition prepares_on_connection (q : query_ref) (w : World) (cs : list call)
    (w' : World) : Prop :=
  caches_on_connection w ->
  caches_on_connection w'
  /\ (forall c, connection_tls_object w = Some c ->
                connection_tls_object w' = Some c)
  /\ Forall (prepare_for q w') cs.

(** The [query()] calls among the operations are for a [query_str] that
    [Q] holds of. *)
Definition queries (Q : query_ref -> Prop) (op : cursor_op) : Prop :=
  match op with
  | op_query q _ => Q q
  | _ => True
  end.

(** *** Columns and values *)

(** The statement and the column that a call reads. *)
Definition column_of (c : call) : option (sqlite3_stmt * Z) :=
  match c with
  | call_column_type s i _ | call_column_int64 s i _
  | call_column_text s i _ | call_column_bytes s i _ => Some (s, i)
  | _ => None
  end.

(** The values of an integral type: [bool], and the signed and unsigned
    types of up to 64 bits. *)
Definition in_range (k : integral) (z : Z) : Prop :=
  match k with
  | i_bool => z = 0%Z \/ z = 1%Z
  | i_signed b =>
      (0 < b <= 64)%N /\ (- 2 ^ (Z.of_N b - 1) <= z < 2 ^ (Z.of_N b - 1))%Z
  | i_unsigned b => (0 < b <= 64)%N /\ (0 <= z < 2 ^ Z.of_N b)%Z
  end.

(** *** Calls that compile *)

(** A call [query<query_str>(bind_args...)] compiles within [depth]
    instantiations of the template. *)
Fixpoint query_compiles (depth : nat) (bind_args : list arg) : bool :=
  match depth with
  | O => false
  | S depth' =>
      if existsb (fun a => has_serialize_fn (arg_t a)) bind_args then
        query_compiles depth' (map maybe_serialize bind_args)
      else forallb (fun a => bindable (arg_t a)) bind_args
  end.

(** An operation that compiles, on one of the [n] live cursors. *)
Definition well_formed (depth : nat) (n : nat) (op : cursor_op) : Prop :=
  match op with
  | op_query _ bind_args => query_compiles depth bind_args = true
  | op_fetch i args =>
      i < n /\ forallb (extractable depth) (map arg_t args) = true
  | op_destroy i => i < n
  end.

(** Every live cursor has the code of a step. *)
Definition stepped (live : list QueryResult) : Prop :=
  Forall (fun r => is_Some (ret r)) live.

(** *** beginTransaction() and commit() *)

(** A call of [query()] whose result is not used: the temporary is
    destroyed at the end of the full expression. *)
Definition discarded (m : M QueryResult) : M unit :=
  r ← m; QueryResult_dtor r.

(** The static arrays [begin_transaction_query] and
    [commit_transaction_query], at the addresses given. *)
Definition begin_transaction_query (addr : N) : query_ref :=
  {| q_addr := addr; q_thing := string_object "begin transaction" |}.

Definition commit_transaction_query (addr : N) : query_ref :=
  {| q_addr := addr; q_thing := string_object "commit transaction" |}.

(** [beginTransaction()] and [commit()]; a call of [query()] without
    arguments is one instantiation of the template. *)
Definition beginTransaction (addr : N) : M unit :=
  discarded (query 1 (begin_transaction_query addr) []).

Definition commit (addr : N) : M unit :=
  discarded (query 1 (commit_transaction_query addr) []).

(** *** The end of the thread *)


End Wrapper.

(** ** A small engine to run the wrapper on

    [sqlite3.h] as far as the wrapper uses it, for one table of result
    rows that every statement yields.  As in SQLite, a statement stepped
    again after [SQLITE_DONE] is reset and starts over. *)
Module Toy.

Inductive cell :=
  | c_null
  | c_int (z : Z)
  | c_text (s : string).

Record config := {
  open_rc : Z;               (* what sqlite3_open returns *)
  prepare_rc : Z;            (* what sqlite3_prepare_v3 returns *)
  ncols : Z;                 (* number of columns of a result row *)
  rows : list (list cell);   (* the result rows *)
}.

(** For each statement: the number of rows stepped over since the last
    reset, and whether it ran to completion. *)
Record state := {
  next_stmt : N;
  progress : gmap N (nat * bool);
}.

Definition init : state := {| next_stmt := 1; progress := ∅ |}.

Definition step (cfg : config) (s : sqlite3_stmt) (st : state) : Z * state :=
  match (progress st !! s : option (nat * bool)) with
  | None => (21%Z, st)
  | Some (pc, done) =>
      let pc0 := if done then O else pc in
      if (pc0 <? length (rows cfg))%nat then
        (100%Z, {| next_stmt := next_stmt st;
                   progress := <[s := (S pc0, false)]> (progress st) |})
      else
        (101%Z, {| next_stmt := next_stmt st;
                   progress := <[s := (pc0, true)]> (progress st) |})
  end.

Definition reset (s : sqlite3_stmt) (st : state) : state :=
  match (progress st !! s : option (nat * bool)) with
  | None => st
  | Some _ => {| next_stmt := next_stmt st;
                 progress := <[s := (O, false)]> (progress st) |}
  end.

Definition prepare (cfg : config) (sql : string) (st : state)
    : Z * sqlite3_stmt * state :=
  if decide (prepare_rc cfg ≠ 0%Z) then (prepare_rc cfg, nullptr, st)
  else if decide (sql = EmptyString) then (0%Z, nullptr, st)
  else (0%Z, next_stmt st,
        {| next_stmt := N.succ (next_stmt st);
           progress := <[next_stmt st := (O, false)]> (progress st) |}).

Definition finalize (s : sqlite3_stmt) (st : state) : state :=
  {| next_stmt := next_stmt st; progress := delete s (progress st) |}.

(** The cell of the current row at column [idx]. *)
Definition current (cfg : config) (s : sqlite3_stmt) (idx : Z) (st : state)
    : cell :=
  match (progress st !! s : option (nat * bool)) with
  | Some (S pc, false) =>
      match rows cfg !! pc with
      | Some row => default c_null (row !! Z.to_nat idx)
      | None => c_null
      end
  | _ => c_null
  end.

Definition column_type (cfg : config) (s : sqlite3_stmt) (idx : Z) (st : state)
    : Z :=
  match current cfg s idx st with
  | c_null => 5%Z
  | c_int _ => 1%Z
  | c_text _ => 3%Z
  end.

Definition column_int64 (cfg : config) (s : sqlite3_stmt) (idx : Z)
    (st : state) : Z :=
  match current cfg s idx st with c_int z => z | _ => 0%Z end.

Definition column_text (cfg : config) (s : sqlite3_stmt) (idx : Z)
    (st : state) : string :=
  match current cfg s idx st with c_text t => t | _ => EmptyString end.

Definition sqlite (cfg : config) : Sqlite3 := {|
  engine_state := state;
  SQLITE_OK := 0;
  SQLITE_ERROR := 1;
  SQLITE_ROW := 100;
  SQLITE_NULL := 5;
  SQLITE_PREPARE_PERSISTENT := 1;
  SQLITE_CONFIG_MULTITHREAD := 2;
  SQLITE_CONFIG_LOG := 16;
  sqlite3_config := fun _ st => st;
  sqlite3_open := fun _ st => (open_rc cfg, 1%N, st);
  sqlite3_busy_handler := fun _ st => st;
  sqlite3_close_v2 := fun _ st => st;
  sqlite3_prepare_v3 := fun _ sql _ _ st => prepare cfg sql st;
  sqlite3_finalize := finalize;
  sqlite3_step := step cfg;
  sqlite3_reset := reset;
  sqlite3_clear_bindings := fun _ st => st;
  sqlite3_bind_int64 := fun _ _ _ st => st;
  sqlite3_bind_text := fun _ _ _ _ st => st;
  sqlite3_bind_blob := fun _ _ _ _ st => st;
  sqlite3_bind_null := fun _ _ st => st;
  sqlite3_column_count := fun _ _ => ncols cfg;
  sqlite3_column_type := column_type cfg;
  sqlite3_column_int64 := fun s idx st => (column_int64 cfg s idx st, st);
  sqlite3_column_text := fun s idx st => (column_text cfg s idx st, st);
  sqlite3_column_bytes := fun s idx st =>
    (Z.of_nat (String.length (column_text cfg s idx st)), st);
|}.

(** The table [(a, b)] of the tests with its row [(1, "hello")]. *)
Definition one_row : config :=
  {| open_rc := 0; prepare_rc := 0; ncols := 2;
     rows := [[c_int 1; c_text "hello"]] |}.

Definition no_rows : config :=
  {| open_rc := 0; prepare_rc := 0; ncols := 2; rows := [] |}.

Definition null_row : config :=
  {| open_rc := 0; prepare_rc := 0; ncols := 2;
     rows := [[c_int 7; c_null]] |}.

Definition cannot_open : config :=
  {| open_rc := 14; prepare_rc := 0; ncols := 0; rows := [] |}.

Definition cannot_prepare : config :=
  {| open_rc := 0; prepare_rc := 1; ncols := 0; rows := [] |}.

(** The database of the tests, without a post-connection hook. *)
Definition db (cfg : config) : @Database (sqlite cfg) :=
  {| db_name := string_object ":memory:"; post_connection_hook := None |}.

(** The class types of the user: each wraps a string, as
    [noncopyable_string] (type 0) and [string_wrapper] (type 1) do. *)
Definition users : UserTypes := fun _ => string.

(** [string_wrapper], which can be copied, has the serialize converter
    that [query()] can call; [noncopyable_string], whose serialize converter
    takes it by value, has the deserialize converter. *)
Definition converters : @Converters users := {|
  user_serialize_fn_of := fun u =>
    if decide (u = 1%N)
    then Some (existT TString (fun x : string => x)) else None;
  user_deserialize_fn_of := fun u =>
    if decide (u = 0%N)
    then Some (existT TString (fun x : string => x)) else None;
|}.

Definition start (cfg : config) : @World (sqlite cfg) :=
  @Build_World (sqlite cfg) init [] false None ∅.

Definition select_query : query_ref :=
  {| q_addr := 4096; q_thing := string_object "select a, b from test where a = ?1" |}.

Definition int_arg (z : Z) : @arg users := existT (TIntegral (i_signed 32)) z.
Definition string_arg (s : string) : @arg users := existT TString s.

End Toy.

(** ** Runs on the small engine *)
Module Runs.
Import Toy.

(** The outputs [(a, b)] of the tests. *)
Definition out2 : list (@arg users) := [int_arg 0; string_arg ""].

(** Three uses of [select_query], the first stepping twice. *)
Definition three_uses
    : list (list (@arg users) * list (list (@arg users))) :=
  [([int_arg 1], [out2; out2]); ([int_arg 2], []); ([int_arg 1], [out2])].

Definition after_three_uses : @World (sqlite one_row) :=
  default (start one_row)
    (use_query_seq (DB := db one_row) (CV := converters)
       1 select_query three_uses (start one_row)).

(** The cursor of [query<select_query>(1)] on a fresh thread, and the
    thread after the call. *)
Definition first_query : QueryResult * @World (sqlite one_row) :=
  match query (DB := db one_row) (CV := converters)
          1 select_query [int_arg 1] (start one_row) with
  | Return r w => (r, w)
  | _ => (QueryResult_default, start one_row)
  end.

(** Three outputs for the two columns. *)
Definition out3 : list (@arg users) := [int_arg 0; string_arg ""; int_arg 0].

(** Two cursor objects: a live one at address 1, a default-constructed one
    at address 2. *)
Definition two_cursors : gmap N QueryResult :=
  <[2%N := QueryResult_default]> {[1%N := first_query.1]}.

Definition two_cursors_moved : gmap N QueryResult :=
  default ∅ (operator_assign 2 1 two_cursors).

(** The object at address 1 after it was moved from. *)
Definition moved_from : QueryResult :=
  default QueryResult_default (two_cursors_moved !! 1%N).

(** Three invocations of the row fetcher of [first_query]. *)
Definition three_fetches
    : list bool * QueryResult * @World (sqlite one_row) :=
  default ([], QueryResult_default, start one_row)
    (fetch_rows (CV := converters) 1 first_query.1 [out2; out2; out2]
       first_query.2).

(** The thread after [reassign_cursor]. *)
Definition reassigned : @World (sqlite one_row) :=
  match reassign_cursor (DB := db one_row) (CV := converters)
          1 select_query [int_arg 1] [int_arg 2] (start one_row) with
  | Return _ w => w
  | _ => start one_row
  end.

(** [query<select_query>(1)] on the empty table. *)
Definition empty_query : QueryResult * @World (sqlite no_rows) :=
  match query (DB := db no_rows) (CV := converters)
          1 select_query [int_arg 1] (start no_rows) with
  | Return r w => (r, w)
  | _ => (QueryResult_default, start no_rows)
  end.

(** [query<select_query>(7)] on the table with the row [(7, NULL)]. *)
Definition null_query : QueryResult * @World (sqlite null_row) :=
  match query (DB := db null_row) (CV := converters)
          1 select_query [int_arg 7] (start null_row) with
  | Return r w => (r, w)
  | _ => (QueryResult_default, start null_row)
  end.

(** [db::query<insert_users_query>("John", std::string("Doe"), 29,
    std::nullopt, sqlite::blob{"hello"})], after examples/example.cpp. *)
Definition insert_users_query : query_ref :=
  {| q_addr := 8192;
     q_thing := string_object "insert into users values (?1, ?2, ?3, ?4, ?5)" |}.

Definition insert_args : list (@arg users) :=
  [existT TCharPtr "John"; string_arg "Doe"; int_arg 29;
   existT TNullopt tt; existT TBlob "hello"].

Definition insert_run : QueryResult * @World (sqlite one_row) :=
  match query (DB := db one_row) (CV := converters)
          1 insert_users_query insert_args (start one_row) with
  | Return r w => (r, w)
  | _ => (QueryResult_default, start one_row)
  end.

(** [db::query<insert_query>(1, string_wrapper{"hello world"})], with the
    [insert_query] of the tests. *)
Definition insert_query : query_ref :=
  {| q_addr := 12288;
     q_thing := string_object "insert into test (a, b) values (?1, ?2)" |}.

Definition wrapper_args : list (@arg users) :=
  [int_arg 1; existT (TUser 1) "hello world"].

Definition wrapper_run : QueryResult * @World (sqlite one_row) :=
  match query (DB := db one_row) (CV := converters)
          2 insert_query wrapper_args (start one_row) with
  | Return r w => (r, w)
  | _ => (QueryResult_default, start one_row)
  end.

(** The first two invocations of the row fetcher of [first_query], and
    three invocations of the one of [empty_query]. *)
Definition two_fetches
    : list bool * QueryResult * @World (sqlite one_row) :=
  default ([], QueryResult_default, start one_row)
    (fetch_rows (CV := converters) 1 first_query.1 [out2; out2]
       first_query.2).

Definition empty_fetches
    : list bool * QueryResult * @World (sqlite no_rows) :=
  default ([], QueryResult_default, start no_rows)
    (fetch_rows (CV := converters) 1 empty_query.1 [out2; out2; out2]
       empty_query.2).

(** Two cursors of [select_query] at once: the first is stepped, both are
    destroyed, and a third is made. *)
Definition cursor_ops : list (@cursor_op users) :=
  [op_query select_query [int_arg 1]; op_query select_query [int_arg 2];
   op_fetch 0 out2; op_destroy 0; op_destroy 0;
   op_query select_query [int_arg 3]].

Definition after_cursor_ops : @thread (sqlite one_row) :=
  default ([], start one_row)
    (run_ops (DB := db one_row) (CV := converters) 1 cursor_ops
       ([], start one_row)).

(** The third cursor, and the cache of [select_query] at the end. *)
Definition third_cursor : QueryResult :=
  default QueryResult_default (after_cursor_ops.1 !! 0).


(** The first invocation of the row fetcher of [first_query]. *)
Definition first_fetch : @frame (sqlite one_row) users :=
  match operator_call (CV := converters) 1 first_query.1 out2 first_query.2 with
  | Return _ f => f
  | _ => (QueryResult_default, [], start one_row)
  end.

(** A table whose row holds the integer with all 64 bits set, and the
    largest [uint64_t]. *)
Definition all_ones_row : config :=
  {| open_rc := 0; prepare_rc := 0; ncols := 1; rows := [[c_int (-1)]] |}.

Definition uint64_max : Z := 18446744073709551615.

Definition all_ones_query : QueryResult * @World (sqlite all_ones_row) :=
  match query (DB := db all_ones_row) (CV := converters)
          1 select_query [existT (TIntegral (i_unsigned 64)) uint64_max]
          (start all_ones_row) with
  | Return r w => (r, w)
  | _ => (QueryResult_default, start all_ones_row)
  end.

End Runs.

(** ** Properties *)

Section Properties.
Context {SQ : Sqlite3} {DB : Database} {UT : UserTypes} {CV : Converters}.

Ltac unfold_M :=
  unfold mbind, mret, M_bind, M_ret, throw, gets, modify, run in *.

Ltac unfold_Eng :=
  unfold mbind, mret, Eng_bind, Eng_ret, static_assert_false,
    eng_config, eng_open, eng_busy_handler, eng_hook, eng_close_v2,
    eng_prepare_v3, eng_finalize, eng_step, eng_reset, eng_clear_bindings,
    eng_bind_int64, eng_bind_text, eng_bind_blob, eng_bind_null,
    eng_column_count, eng_column_type, eng_column_int64, eng_column_text,
    eng_column_bytes in *.

(** *** The destructor and the move assignment *)

Lemma QueryResult_dtor_nullptr (this : QueryResult) (w : World) :
  stmt this = nullptr -> QueryResult_dtor this w = Return tt w.
Proof.
  intros Hnull. unfold QueryResult_dtor.
  destruct (decide (stmt this = nullptr)); [reflexivity | contradiction].
Qed.

Lemma operator_assign_source (this other : N) (objs objs' : gmap N QueryResult)
    (src : QueryResult) :
  this ≠ other ->
  operator_assign this other objs = Some objs' ->
  objs' !! other = Some src ->
  stmt src = nullptr.
Proof.
  intros Hne Hassign Hsrc. unfold operator_assign in Hassign.
  destruct (objs !! this) as [t|]; [|discriminate].
  destruct (objs !! other) as [o|]; [|discriminate].
  destruct (decide (this ≠ other)); [|contradiction].
  injection Hassign as <-.
  rewrite lookup_insert_eq in Hsrc. by injection Hsrc as <-.
Qed.

Lemma operator_assign_target (this other : N) (objs objs' : gmap N QueryResult)
    (o : QueryResult) :
  this ≠ other ->
  operator_assign this other objs = Some objs' ->
  objs !! other = Some o ->
  objs' !! this = Some o.
Proof.
  intros Hne Hassign Ho. unfold operator_assign in Hassign.
  destruct (objs !! this) as [t|]; [|discriminate].
  rewrite Ho in Hassign.
  destruct (decide (this ≠ other)); [|contradiction].
  injection Hassign as <-.
  rewrite lookup_insert_ne by done. rewrite lookup_insert_eq.
  by destruct o.
Qed.

Lemma operator_assign_self (a : N) (objs : gmap N QueryResult) (cur : QueryResult) :
  objs !! a = Some cur -> operator_assign a a objs = Some objs.
Proof.
  intros Hcur. unfold operator_assign. rewrite Hcur.
  destruct (decide (a ≠ a)); [contradiction | reflexivity].
Qed.

(** C10: destroying a default-constructed cursor or the source of a move
    assignment returns at once, leaving the engine, the calls made to it and
    the caches as they were (no [sqlite3_clear_bindings], no
    [sqlite3_reset], no [put_cb]); a self-move-assignment changes no object,
    so the cursor keeps its statement. *)
Theorem dtor_without_statement_is_noop
    (w : World) (this other a : N) (objs objs' : gmap N QueryResult)
    (src cur : QueryResult) :
  this ≠ other ->
  operator_assign this other objs = Some objs' ->
  objs' !! other = Some src ->
  objs !! a = Some cur ->
  QueryResult_dtor QueryResult_default w = Return tt w
  /\ stmt src = nullptr
  /\ QueryResult_dtor src w = Return tt w
  /\ operator_assign a a objs = Some objs.
Proof.
  intros Hne Hassign Hsrc Hcur.
  pose proof (operator_assign_source _ _ _ _ _ Hne Hassign Hsrc) as Hnull.
  split; [by apply QueryResult_dtor_nullptr|].
  split; [exact Hnull|].
  split; [by apply QueryResult_dtor_nullptr|].
  by eapply operator_assign_self.
Qed.

(** *** The column-count guard *)

(** C4: when more output references (of types that the row fetcher
    accepts) are passed than the statement has columns, [operator()] throws
    [error{SQLITE_ERROR}] (the spec's ColumnMismatch) with the cursor and
    every output as they were; the only call made to the engine is
    [sqlite3_column_count]: no step, no column read. *)
Theorem column_count_guard
    (depth : nat) (this : QueryResult) (args : list arg) (w : World) :
  forallb (extractable depth) (map arg_t args) = true ->
  (Z.of_nat (length args) > sqlite3_column_count (stmt this) (engine w))%Z ->
  exists w',
    operator_call depth this args w
      = Throw {| err_code := SQLITE_ERROR |} (this, args, w')
    /\ engine w' = engine w
    /\ trace w' = trace w ++
         [call_column_count (stmt this)
            (sqlite3_column_count (stmt this) (engine w))]
    /\ singleton_tls_object w' = singleton_tls_object w.
Proof.
  intros Hwf Hmore. unfold operator_call. rewrite Hwf. simpl.
  destruct (decide _) as [_|Hno]; [|contradiction].
  eexists. split; [reflexivity|]. by simpl.
Qed.

(** *** The bind dispatcher *)

Lemma bind_dispatcher_spec (stmt_ : sqlite3_stmt) (t : ty) (v : val t)
    (idx idx' : Z) (e e' : engine_state) (cs : list call) :
  bind_dispatcher stmt_ t v idx e = Some (idx', e', cs) ->
  idx' = (idx + 1)%Z
  /\ exists c, cs = [c] /\ is_bind c = true
               /\ spec_bind_call stmt_ t v idx = Some c.
Proof.
  revert v. induction t; intros v Hrun; simpl in *;
    try (by unfold_Eng);
    try (unfold_Eng; simplify_eq; split; [done|]; eexists; by split_and!).
  - destruct (bindable t); [|done]. destruct v as [x|].
    + by apply IHt.
    + unfold_Eng; simplify_eq. split; [done|]. eexists; by split_and!.
Qed.

Lemma bind_dispatcher_total (stmt_ : sqlite3_stmt) (t : ty) (v : val t)
    (idx : Z) (e : engine_state) :
  bindable t = true ->
  exists idx' e' cs, bind_dispatcher stmt_ t v idx e = Some (idx', e', cs).
Proof.
  revert v. induction t; intros v Hb; simpl in *; try done;
    try (unfold_Eng; by eexists _, _, _).
  rewrite Hb. destruct v as [x|]; [by apply IHt|].
  unfold_Eng. by eexists _, _, _.
Qed.

Lemma bind_all_total (stmt_ : sqlite3_stmt) (bind_args : list arg)
    (idx : Z) (e : engine_state) :
  forallb (fun a => bindable (arg_t a)) bind_args = true ->
  exists idx' e' cs, bind_all stmt_ bind_args idx e = Some (idx', e', cs).
Proof.
  revert idx e. induction bind_args as [|a rest IH]; intros idx e Hb; simpl.
  - unfold_Eng. by eexists _, _, _.
  - simpl in Hb. apply andb_prop in Hb as [Ha Hrest].
    destruct (bind_dispatcher_total stmt_ (projT1 a) (projT2 a) idx e Ha)
      as (idx1 & e1 & c1 & Hone).
    destruct (IH idx1 e1 Hrest) as (idx2 & e2 & c2 & Hall).
    unfold mbind, Eng_bind. rewrite Hone, Hall. by eexists _, _, _.
Qed.

Lemma bind_all_spec (stmt_ : sqlite3_stmt) (bind_args : list arg)
    (idx idx' : Z) (e e' : engine_state) (cs : list call) :
  bind_all stmt_ bind_args idx e = Some (idx', e', cs) ->
  idx' = (idx + Z.of_nat (length bind_args))%Z
  /\ length cs = length bind_args
  /\ forallb is_bind cs = true
  /\ forall (i : nat) (a : arg),
       bind_args !! i = Some a ->
       cs !! i = spec_bind_call stmt_ (projT1 a) (projT2 a) (idx + Z.of_nat i)
       /\ is_Some (cs !! i).
Proof.
  revert idx e cs. induction bind_args as [|a rest IH]; intros idx e cs Hrun.
  - simpl in Hrun. unfold_Eng. simplify_eq. simpl.
    split; [lia|]. split; [done|]. split; [done|]. intros i a Hi.
    by rewrite lookup_nil in Hi.
  - simpl in Hrun. unfold mbind, Eng_bind in Hrun.
    destruct (bind_dispatcher stmt_ (projT1 a) (projT2 a) idx e)
      as [[[idx1 e1] c1]|] eqn:Hone; [|discriminate].
    destruct (bind_all stmt_ rest idx1 e1) as [[[idx2 e2] c2]|] eqn:Hrest;
      [|discriminate].
    simplify_eq.
    apply bind_dispatcher_spec in Hone as (-> & c & -> & Hc & Hspec).
    apply IH in Hrest as (-> & Hlen & Hall & Hnth).
    split; [simpl; lia|]. split; [simpl; lia|].
    split; [simpl; by rewrite Hc, Hall|].
    intros [|i] b Hb; simpl in *.
    + simplify_eq. rewrite Z.add_0_r. by rewrite Hspec.
    + destruct (Hnth i b Hb) as [Heq Hsome]. split; [|done].
      rewrite Heq. f_equal. lia.
Qed.

(** *** Optional values *)

Lemma column_dispatcher_optional (depth : nat) (stmt_ : sqlite3_stmt) (t : ty)
    (idx : Z) (e : engine_state) :
  column_dispatcher depth stmt_ (TOptional t) idx e =
    let ct := sqlite3_column_type stmt_ idx e in
    if extractable depth t then
      if decide (ct = SQLITE_NULL) then
        Some ((None, (idx + 1)%Z), e, [call_column_type stmt_ idx ct])
      else
        match column_dispatcher depth stmt_ t idx e with
        | Some ((v, idx'), e', cs) =>
            Some ((Some v, idx'), e', call_column_type stmt_ idx ct :: cs)
        | None => None
        end
    else None.
Proof.
  destruct depth; simpl;
    match goal with
    | |- context [if ?b then _ else _] => destruct b
    end; try reflexivity; unfold_Eng; simpl;
    destruct (decide _); try reflexivity;
    match goal with
    | |- context [match ?m e with _ => _ end] =>
        destruct (m e) as [[[[v idx'] e'] cs]|]
    end; simpl; by rewrite ?app_nil_r.
Qed.

(** *** Connections and caches *)

Lemma Connection_ctor_inv (w : World) :
  match Connection_ctor w with
  | Return c w' =>
      singleton_tls_object w' = singleton_tls_object w
      /\ connection_tls_object w' = connection_tls_object w
      /\ exists cs, trace w' = trace w ++ cs /\ connected cs
  | Throw e w' =>
      singleton_tls_object w' = singleton_tls_object w
      /\ connection_tls_object w' = connection_tls_object w
      /\ err_code e ≠ SQLITE_OK
      /\ exists cs, trace w' = trace w ++ cs /\ connect_failed (err_code e) cs
  | _ => False
  end.
Proof.
  unfold Connection_ctor, configure_once, connected, connect_failed.
  unfold_M. unfold_Eng.
  destruct (sqlite3_configured w); simpl;
    destruct (sqlite3_open _ _) as [[rc db] e1] eqn:Hopen; simpl;
    (destruct (decide (rc ≠ SQLITE_OK)) as [Hrc|Hrc]; simpl;
     [|apply dec_stable in Hrc; subst rc; destruct post_connection_hook; simpl]);
    split_and!; try done; eexists; rewrite <- ?app_assoc;
    (split; [reflexivity|]).
  all: first [ by eexists [], _, _, _ | by eexists [_; _], _, _, _
             | by eexists [], _, _ | by eexists [_; _], _, _ ].
Qed.

Lemma connection_tls_inv (w : World) :
  match connection_tls w with
  | Return c w' =>
      singleton_tls_object w' = singleton_tls_object w
      /\ exists cs, trace w' = trace w ++ cs /\ (cs = [] \/ connected cs)
  | Throw e w' =>
      singleton_tls_object w' = singleton_tls_object w
      /\ err_code e ≠ SQLITE_OK
      /\ exists cs, trace w' = trace w ++ cs /\ connect_failed (err_code e) cs
  | _ => False
  end.
Proof.
  unfold connection_tls. unfold_M.
  destruct (connection_tls_object w) as [c|].
  - split; [done|]. exists []. by rewrite app_nil_r; auto.
  - pose proof (Connection_ctor_inv w) as Hctor.
    destruct (Connection_ctor w) as [c w1|e w1| |]; [| |done|done].
    + destruct Hctor as (Hs & _ & cs & Htr & Hcs). simpl.
      split; [done|]. exists cs. auto.
    + destruct Hctor as (Hs & _ & Hrc & cs & Htr & Hcs). eauto.
Qed.

Lemma singleton_tls_inv (q : query_ref) (w : World) :
  match singleton_tls q w with
  | Return c w' =>
      singleton_tls_object w' !! q_addr q = Some c
      /\ exists cs, trace w' = trace w ++ cs
         /\ ((singleton_tls_object w !! q_addr q = Some c /\ w' = w /\ cs = [])
             \/ (singleton_tls_object w !! q_addr q = None
                 /\ singleton_tls_object w'
                    = <[q_addr q := c]> (singleton_tls_object w)
                 /\ first_free_stmt c = nullptr
                 /\ other_free_stmts c = []
                 /\ (cs = [] \/ connected cs)))
  | Throw e w' =>
      singleton_tls_object w !! q_addr q = None
      /\ singleton_tls_object w' = singleton_tls_object w
      /\ err_code e ≠ SQLITE_OK
      /\ exists cs, trace w' = trace w ++ cs /\ connect_failed (err_code e) cs
  | _ => False
  end.
Proof.
  unfold singleton_tls, PreparedStmtCache_ctor. unfold_M.
  destruct (singleton_tls_object w !! q_addr q) as [c|] eqn:Hq.
  - split; [done|]. exists []. rewrite app_nil_r. auto.
  - pose proof (connection_tls_inv w) as Hconn.
    destruct (connection_tls w) as [c w1|e w1| |]; [| |done|done].
    + destruct Hconn as (Hs & cs & Htr & Hcs). simpl.
      split; [by rewrite lookup_insert_eq|].
      exists cs. split; [done|]. right. rewrite Hs. by split_and!.
    + destruct Hconn as (Hs & Hrc & cs & Htr & Hcs). eauto 10.
Qed.

Lemma cached_insert (q : query_ref) (c : PreparedStmtCache) (w w' : World) :
  singleton_tls_object w' = <[q_addr q := c]> (singleton_tls_object w) ->
  cached q w' = idle_stmts c.
Proof. intros Hs. unfold cached. by rewrite Hs, lookup_insert_eq. Qed.

Lemma slot_occupied_insert (q : query_ref) (c : PreparedStmtCache) (w w' : World) :
  singleton_tls_object w' = <[q_addr q := c]> (singleton_tls_object w) ->
  slot_occupied q w' <-> first_free_stmt c ≠ nullptr.
Proof.
  intros Hs. unfold slot_occupied. rewrite Hs, lookup_insert_eq. split.
  - by intros (c' & [= <-] & Hc).
  - eauto.
Qed.

Lemma get_tls_inv (q : query_ref) (w : World) :
  match get_tls q w with
  | Return s w' =>
      exists c' cs,
        singleton_tls_object w' = <[q_addr q := c']> (singleton_tls_object w)
        /\ first_free_stmt c' = nullptr
        /\ trace w' = trace w ++ cs
        /\ ((cs = []
             /\ (slot_occupied q w -> s ≠ nullptr)
             /\ cached q w ≡ₚ filter (fun s => s ≠ nullptr) [s] ++ cached q w')
            \/ (¬ slot_occupied q w
                /\ cached q w = []
                /\ cached q w' = []
                /\ prepare_last SQLITE_OK s cs))
  | Throw e w' =>
      ¬ slot_occupied q w
      /\ cached q w = []
      /\ cached q w' = []
      /\ ¬ slot_occupied q w'
      /\ err_code e ≠ SQLITE_OK
      /\ exists cs, trace w' = trace w ++ cs
           /\ (connect_failed (err_code e) cs
               \/ exists s, prepare_last (err_code e) s cs)
  | _ => False
  end.
Proof.
  unfold get_tls. unfold_M.
  pose proof (singleton_tls_inv q w) as Hsing.
  destruct (singleton_tls q w) as [c w1|e w1| |]; [| |done|done].
  - destruct Hsing as (Hc & cs0 & Htr0 & Hcase).
    unfold internal_get. unfold_M.
    destruct (decide (first_free_stmt c ≠ nullptr)) as [Hfirst|Hfirst]; simpl.
    + destruct Hcase as [(Hq & -> & ->)|(_ & _ & Hf & _)]; [|done].
      eexists _, []. split; [done|]. split; [done|].
      split; [by rewrite app_nil_r|]. left. split; [done|]. split; [done|].
      unfold cached at 1. rewrite Hq. erewrite cached_insert by done.
      unfold idle_stmts; simpl.
      rewrite !filter_cons_True by done.
      by rewrite filter_cons_False, filter_nil by (intros ?; done).
    + apply dec_stable in Hfirst.
      destruct (last (other_free_stmts c)) as [s|] eqn:Hlast; simpl.
      * destruct Hcase as [(Hq & -> & ->)|(_ & _ & _ & Ho & _)];
          [|by rewrite Ho in Hlast].
        eexists _, []. split; [done|]. split; [done|].
        split; [by rewrite app_nil_r|]. left. split; [done|].
        split; [intros (c0 & Hc0 & Hne); congruence|].
        unfold cached at 1. rewrite Hq. erewrite cached_insert by done.
        unfold idle_stmts; simpl.
        apply last_Some in Hlast as [l' Hl']. rewrite Hl', Hfirst.
        rewrite removelast_last.
        rewrite !(filter_cons_False _ nullptr) by (intros ?; done).
        rewrite filter_app. apply Permutation_app_comm.
      * apply last_None in Hlast.
        assert (Hw : ¬ slot_occupied q w /\ cached q w = []
                     /\ (cs0 = [] \/ connected cs0)
                     /\ forall c', <[q_addr q := c']> (singleton_tls_object w1)
                                   = <[q_addr q := c']> (singleton_tls_object w)).
        { destruct Hcase as [(Hq & -> & ->)|(Hq & Hs & Hf & Ho & Hcs)].
          - split_and!; auto.
            + intros (c0 & Hc0 & Hne). congruence.
            + unfold cached. rewrite Hq. unfold idle_stmts.
              rewrite Hfirst, Hlast.
              by rewrite filter_cons_False, filter_nil by (intros ?; done).
          - split_and!; auto.
            + intros (c0 & Hc0 & Hne). congruence.
            + unfold cached. by rewrite Hq.
            + intros c'. rewrite Hs. by rewrite insert_insert_eq. }
        destruct Hw as (Hslot & Hcw & Hcs0 & Hins).
        assert (Hidle : idle_stmts c = []).
        { unfold idle_stmts. rewrite Hfirst, Hlast.
          by rewrite filter_cons_False, filter_nil by (intros ?; done). }
        unfold_Eng.
        destruct (sqlite3_prepare_v3 _ _ _ _ _) as [[rc s] e1] eqn:Hprep; simpl.
        destruct (decide (rc ≠ SQLITE_OK)) as [Hrc|Hrc]; simpl.
        -- split; [done|]. split; [done|].
           split; [unfold cached; simpl; by rewrite Hc|].
           split; [intros (c0 & Hc0 & Hne); simpl in Hc0; congruence|].
           split; [done|]. eexists. rewrite Htr0, <- app_assoc.
           split; [done|]. right. exists s. by eexists cs0, _, _, _, _.
        -- apply dec_stable in Hrc. subst rc.
           eexists c, _. split; [apply Hins|]. split; [done|].
           rewrite Htr0, <- app_assoc. split; [done|]. right.
           split; [done|]. split; [done|].
           split; [by erewrite cached_insert by apply Hins|].
           by eexists cs0, _, _, _, _.
  - destruct Hsing as (Hq & Hs & Hrc & cs & Htr & Hfail).
    assert (Hnone : forall w0 : World,
              singleton_tls_object w0 = singleton_tls_object w ->
              ¬ slot_occupied q w0 /\ cached q w0 = []).
    { intros w0 Hw0. unfold slot_occupied, cached. rewrite Hw0, Hq.
      split; [by intros (c0 & ? & _)|done]. }
    destruct (Hnone w eq_refl) as [? ?]. destruct (Hnone w1 Hs) as [? ?].
    split_and!; try done. eauto.
Qed.
Lemma put_tls_existing (q : query_ref) (s : sqlite3_stmt)
    (c : PreparedStmtCache) (w : World) :
  singleton_tls_object w !! q_addr q = Some c ->
  put_tls q s w = Return tt (set_singleton q (internal_put s c) w).
Proof.
  intros Hc. unfold put_tls, singleton_tls. unfold_M. by rewrite Hc.
Qed.

Lemma column_dispatcher_reads (depth : nat) (stmt_ : sqlite3_stmt) (t : ty)
    (idx : Z) (e e' : engine_state) (r : val t * Z) (cs : list call) :
  column_dispatcher depth stmt_ t idx e = Some (r, e', cs) ->
  forallb is_column_read cs = true.
Proof.
  revert t idx e e' r cs. induction depth as [|depth IHd];
    induction t; intros idx e e' r cs Hrun.
  all: try match type of Hrun with
       | column_dispatcher _ _ (TOptional ?t) _ _ = _ =>
           rewrite column_dispatcher_optional in Hrun; cbv zeta in Hrun;
           destruct (extractable _ t); [|done];
           destruct (decide _); [by simplify_eq|];
           destruct (column_dispatcher _ _ t idx e) as [[[[v i'] e1] c1]|] eqn:Hin;
           [|done]; simplify_eq; simpl; by eapply IHt
       end.
  all: simpl in Hrun; unfold_Eng; try done.
  all: repeat match type of Hrun with
       | context [let '(_, _) := ?x in _] => destruct x
       | context [match ?x with _ => _ end] => destruct x eqn:?
       end; simplify_eq; simpl; try done.
  rewrite app_nil_r. by eapply IHd.
Qed.

Lemma column_all_reads (depth : nat) (stmt_ : sqlite3_stmt) (ts : list ty)
    (idx : Z) (e e' : engine_state) (args' : list arg) (cs : list call) :
  column_all depth stmt_ ts idx e = Some (args', e', cs) ->
  forallb is_column_read cs = true /\ map arg_t args' = ts.
Proof.
  revert idx e e' args' cs. induction ts as [|t ts IH];
    intros idx e e' args' cs Hrun; simpl in Hrun.
  - unfold_Eng. by simplify_eq.
  - unfold mbind, Eng_bind in Hrun.
    destruct (column_dispatcher depth stmt_ t idx e) as [[[[v i'] e1] c1]|] eqn:Hone;
      [|done].
    destruct (column_all depth stmt_ ts i' e1) as [[[rest e2] c2]|] eqn:Hrest;
      [|done].
    unfold_Eng. simplify_eq.
    apply column_dispatcher_reads in Hone. apply IH in Hrest as [Hc2 Hts].
    rewrite app_nil_r, forallb_app, Hone, Hc2. simpl. by rewrite Hts.
Qed.
(** *** The row fetcher *)

Lemma operator_call_inv (depth : nat) (this : QueryResult) (args : list arg)
    (w : World) :
  let n := sqlite3_column_count (stmt this) (engine w) in
  match operator_call depth this args w with
  | Return b (this', args', w') =>
      (Z.of_nat (length args) <= n)%Z
      /\ stmt this' = stmt this /\ put_cb this' = put_cb this
      /\ singleton_tls_object w' = singleton_tls_object w
      /\ exists rc steps reads,
           trace w' = trace w ++ call_column_count (stmt this) n :: steps ++ reads
           /\ ret this' = Some rc
           /\ b = bool_decide (rc = SQLITE_ROW)
           /\ (if first_invocation this
               then steps = [] /\ ret this = Some rc
               else steps = [call_step (stmt this) rc]
                    /\ rc = (sqlite3_step (stmt this) (engine w)).1)
           /\ forallb is_column_read reads = true
           /\ (if b
               then first_invocation this' = false
                    /\ map arg_t args' = map arg_t args
               else reads = [] /\ args' = args
                    /\ first_invocation this' = first_invocation this
                    /\ (first_invocation this = true ->
                        this' = this /\ engine w' = engine w))
  | Throw e (this', args', w') =>
      (Z.of_nat (length args) > n)%Z
      /\ e = {| err_code := SQLITE_ERROR |}
      /\ this' = this /\ args' = args
      /\ engine w' = engine w
      /\ singleton_tls_object w' = singleton_tls_object w
      /\ trace w' = trace w ++ [call_column_count (stmt this) n]
  | _ => True
  end.
Proof.
  intros n. unfold operator_call. fold n.
  destruct (forallb (extractable depth) (map arg_t args)); simpl; [|done].
  destruct (decide (Z.of_nat (length args) > n)%Z) as [Hgt|Hle].
  { by split_and!. }
  destruct (first_invocation this) eqn:Hfirst; simpl.
  - destruct (ret this) as [rc|] eqn:Hret; [|done].
    destruct (decide (rc ≠ SQLITE_ROW)) as [Hrc|Hrc].
    + split; [lia|]. split_and!; try done.
      exists rc, [], []. rewrite bool_decide_eq_false_2 by done. simpl.
      by split_and!.
    + apply dec_stable in Hrc.
      destruct (column_all _ _ _ _ _) as [[[args' e2] cs]|] eqn:Hcols; [|done].
      apply column_all_reads in Hcols as [Hreads Hts].
      split; [lia|]. split_and!; try done.
      exists rc, [], cs. rewrite bool_decide_eq_true_2 by done. simpl.
      rewrite <- !app_assoc. by split_and!.
  - destruct (sqlite3_step (stmt this) (engine w)) as [rc e1] eqn:Hstep; simpl.
    destruct (decide (rc ≠ SQLITE_ROW)) as [Hrc|Hrc].
    + split; [lia|]. split_and!; try done.
      exists rc, [call_step (stmt this) rc], [].
      rewrite bool_decide_eq_false_2 by done. simpl.
      rewrite <- app_assoc. by split_and!.
    + apply dec_stable in Hrc.
      destruct (column_all _ _ _ _ _) as [[[args' e2] cs]|] eqn:Hcols; [|done].
      apply column_all_reads in Hcols as [Hreads Hts].
      split; [lia|]. split_and!; try done.
      exists rc, [call_step (stmt this) rc], cs.
      rewrite bool_decide_eq_true_2 by done. simpl.
      rewrite <- !app_assoc. by split_and!.
Qed.
(** *** query() *)

Lemma query_inv (depth : nat) (q : query_ref) (bind_args : list arg) (w : World) :
  match query depth q bind_args w with
  | Return r w' =>
      put_cb r = Some (put_tls_addr q) /\ first_invocation r = true
      /\ exists bind_args' c' pre binds rc,
           serializes_to bind_args bind_args'
           /\ singleton_tls_object w'
              = <[q_addr q := c']> (singleton_tls_object w)
           /\ first_free_stmt c' = nullptr
           /\ trace w' = trace w ++ pre ++ binds ++ [call_step (stmt r) rc]
           /\ ret r = Some rc
           /\ length binds = length bind_args'
           /\ forallb is_bind binds = true
           /\ (forall (i : nat) (a : arg),
                 bind_args' !! i = Some a ->
                 binds !! i = spec_bind_call (stmt r) (projT1 a) (projT2 a)
                                (1 + Z.of_nat i)
                 /\ is_Some (binds !! i))
           /\ ((pre = []
                /\ (slot_occupied q w -> stmt r ≠ nullptr)
                /\ cached q w ≡ₚ filter (fun s => s ≠ nullptr) [stmt r]
                                  ++ cached q w')
               \/ (¬ slot_occupied q w
                   /\ cached q w = []
                   /\ cached q w' = []
                   /\ prepare_last SQLITE_OK (stmt r) pre))
  | Throw e w' =>
      ¬ slot_occupied q w
      /\ cached q w = []
      /\ cached q w' = []
      /\ ¬ slot_occupied q w'
      /\ err_code e ≠ SQLITE_OK
      /\ exists cs, trace w' = trace w ++ cs
           /\ (connect_failed (err_code e) cs
               \/ exists s, prepare_last (err_code e) s cs)
  | _ => True
  end.
Proof.
  revert bind_args. induction depth as [|depth IH]; intros bind_args; [done|].
  simpl. destruct (existsb _ bind_args) eqn:Hconv.
  - specialize (IH (map maybe_serialize bind_args)).
    destruct (query depth q _ w) as [r w'|e w'| |]; try done.
    destruct IH as (Hcb & Hfi & args' & c' & pre & binds & rc & Hser & Hrest).
    split; [done|]. split; [done|].
    exists args', c', pre, binds, rc. split; [|done]. by apply ser_round.
  - destruct (forallb _ bind_args); [|done]. unfold_M.
    pose proof (get_tls_inv q w) as Hget.
    destruct (get_tls q w) as [s w1|e w1| |]; [| |done|done].
    + destruct Hget as (c' & pre & Hs & Hf & Htr & Hcase).
      destruct (bind_all s bind_args 1 (engine w1)) as [[[idx' e2] binds]|] eqn:Hbind;
        [|done].
      apply bind_all_spec in Hbind as (_ & Hlen & Hall & Hnth).
      unfold QueryResult_ctor. unfold_Eng. simpl.
      destruct (sqlite3_step s e2) as [rc e3] eqn:Hstep. simpl.
      split; [done|]. split; [done|].
      exists bind_args, c', pre, binds, rc.
      split; [by apply ser_done|]. split; [done|]. split; [done|].
      split; [simpl; by rewrite Htr, <- ?app_assoc|].
      split; [done|]. split; [done|]. split; [done|]. split; [done|].
      change (cached q (engine_ran e3 [call_step s rc] (engine_ran e2 binds w1)))
        with (cached q w1).
      destruct Hcase as [(-> & Hnn & Hperm)|(Hslot & Hcw & Hcw1 & Hprep)].
      * left. split; [done|]. split; [done|]. by rewrite Hperm.
      * right. by split_and!.
    + done.
Qed.
(** *** Calls that compile run *)

Lemma extractable_optional (depth : nat) (t : ty) :
  extractable depth (TOptional t) = extractable depth t.
Proof. by destruct depth. Qed.

Lemma column_dispatcher_total (depth : nat) (stmt_ : sqlite3_stmt) (t : ty)
    (idx : Z) (e : engine_state) :
  extractable depth t = true ->
  exists r e' cs, column_dispatcher depth stmt_ t idx e = Some (r, e', cs).
Proof.
  revert t idx e. induction depth as [|depth IHd];
    induction t; intros idx e Hext.
  all: try match goal with
       | |- context [column_dispatcher _ _ (TOptional ?t)] =>
           rewrite extractable_optional in Hext;
           rewrite column_dispatcher_optional; cbv zeta; rewrite Hext;
           destruct (decide _); [by eexists _, _, _|];
           destruct (IHt idx e Hext) as ([v i'] & e1 & c1 & ->);
           by eexists _, _, _
       end.
  all: simpl in Hext; try done; simpl; unfold_Eng.
  all: repeat match goal with
       | |- context [let '(_, _) := ?x in _] => destruct x
       end; simpl; try by eexists _, _, _.
  all: destruct (user_deserialize_fn_of u) as [[from fn]|]; [|done]; try done.
  destruct (IHd from idx e Hext) as ([v i'] & e1 & c1 & ->).
  by eexists _, _, _.
Qed.

Lemma column_all_total (depth : nat) (stmt_ : sqlite3_stmt) (ts : list ty)
    (idx : Z) (e : engine_state) :
  forallb (extractable depth) ts = true ->
  exists args' e' cs, column_all depth stmt_ ts idx e = Some (args', e', cs).
Proof.
  revert idx e. induction ts as [|t ts IH]; intros idx e Hext; simpl.
  - unfold_Eng. by eexists _, _, _.
  - simpl in Hext. apply andb_prop in Hext as [Ht Hts].
    destruct (column_dispatcher_total depth stmt_ t idx e Ht)
      as ([v i'] & e1 & c1 & Hone).
    destruct (IH i' e1 Hts) as (rest & e2 & c2 & Hrest).
    unfold mbind, Eng_bind. rewrite Hone, Hrest. unfold_Eng.
    by eexists _, _, _.
Qed.

(** A call of the row fetcher that compiles, on a cursor that [query()]
    made, returns or throws. *)
Lemma operator_call_total (depth : nat) (this : QueryResult) (args : list arg)
    (w : World) :
  forallb (extractable depth) (map arg_t args) = true ->
  first_invocation this = false \/ is_Some (ret this) ->
  match operator_call depth this args w with
  | Return _ _ | Throw _ _ => True
  | _ => False
  end.
Proof.
  intros Hext Hinit. unfold operator_call. rewrite Hext. simpl.
  destruct (decide _); [done|].
  destruct (first_invocation this) eqn:Hfirst; simpl.
  - destruct Hinit as [?|[rc Hret]]; [done|]. rewrite Hret.
    destruct (decide _); [done|].
    by destruct (column_all_total depth (stmt this) (map arg_t args) 0
                   (engine w) Hext) as (a' & e' & cs & ->).
  - destruct (sqlite3_step _ _) as [rc e1]. simpl.
    destruct (decide _); [done|].
    match goal with
    | |- context [column_all depth ?s ?ts 0 ?e0] =>
        by destruct (column_all_total depth s ts 0 e0 Hext) as (a' & e' & cs & ->)
    end.
Qed.

(** A call of [query()] that compiles returns or throws. *)
Lemma query_total (d : nat) (q : query_ref) (bind_args : list arg) (w : World) :
  existsb (fun a => has_serialize_fn (arg_t a)) bind_args = false ->
  forallb (fun a => bindable (arg_t a)) bind_args = true ->
  match query (S d) q bind_args w with
  | Return _ _ | Throw _ _ => True
  | _ => False
  end.
Proof.
  intros Hnone Hb. simpl. rewrite Hnone, Hb. unfold_M.
  pose proof (get_tls_inv q w) as Hget.
  destruct (get_tls q w) as [s w1|e w1| |]; try done.
  destruct (bind_all_total s bind_args 1 (engine w1) Hb) as (i' & e' & cs & ->).
  unfold QueryResult_ctor. unfold_Eng. simpl.
  by destruct (sqlite3_step _ _).
Qed.
(** *** Callers *)

Lemma forallb_weaken (P Q : call -> bool) (cs : list call) :
  (forall c, P c = true -> Q c = true) ->
  forallb P cs = true -> forallb Q cs = true.
Proof.
  intros HPQ. rewrite !forallb_forall. auto.
Qed.

Lemma fetch_rows_inv (depth : nat) (fetches : list (list arg))
    (this this' : QueryResult) (w w' : World) (bs : list bool) :
  fetch_rows depth this fetches w = Some (bs, this', w') ->
  stmt this' = stmt this /\ put_cb this' = put_cb this
  /\ singleton_tls_object w' = singleton_tls_object w
  /\ exists cs, trace w' = trace w ++ cs /\ forallb is_fetch cs = true.
Proof.
  revert this w bs. induction fetches as [|args rest IH]; intros this w bs Hrun;
    simpl in Hrun.
  - simplify_eq. split_and!; try done. exists []. by rewrite app_nil_r.
  - pose proof (operator_call_inv depth this args w) as Hcall. simpl in Hcall.
    destruct (operator_call depth this args w) as [b [[this1 args1] w1]|e [[this1 args1] w1]| |];
      [| |done|done].
    + destruct Hcall as (_ & Hst & Hcb & Hs & rc & steps & reads & Htr & _ & _ & Hsteps & Hreads & _).
      destruct (fetch_rows depth this1 rest w1) as [[[bs1 r1] w2]|] eqn:Hrest;
        [|done].
      simplify_eq. apply IH in Hrest as (Hst2 & Hcb2 & Hs2 & cs2 & Htr2 & Hcs2).
      split; [congruence|]. split; [congruence|]. split; [congruence|].
      eexists. rewrite Htr2, Htr, <- app_assoc. split; [done|].
      simpl. rewrite !forallb_app, Hcs2, andb_true_r.
      apply andb_true_intro. split.
      * destruct (first_invocation this); destruct Hsteps as [-> _]; done.
      * eapply forallb_weaken; [|done]. by intros [].
    + destruct Hcall as (_ & _ & -> & _ & _ & Hs & Htr). simplify_eq.
      split_and!; try done. eexists. split; [done|]. done.
Qed.

Lemma QueryResult_dtor_put (q : query_ref) (this : QueryResult)
    (c : PreparedStmtCache) (w : World) :
  stmt this ≠ nullptr ->
  put_cb this = Some (put_tls_addr q) ->
  singleton_tls_object w !! q_addr q = Some c ->
  exists w',
    QueryResult_dtor this w = Return tt w'
    /\ singleton_tls_object w'
       = <[q_addr q := internal_put (stmt this) c]> (singleton_tls_object w)
    /\ trace w' = trace w ++ [call_clear_bindings (stmt this); call_reset (stmt this)].
Proof.
  intros Hnn Hcb Hc. unfold QueryResult_dtor.
  destruct (decide (stmt this = nullptr)); [done|].
  unfold_M. unfold_Eng. simpl. rewrite Hcb. simpl.
  erewrite put_tls_existing by (simpl; done).
  eexists. split; [done|]. simpl. by rewrite <- app_assoc.
Qed.
Lemma prepared_app (a b : list call) :
  prepared (a ++ b) = prepared a ++ prepared b.
Proof. apply omap_app. Qed.

Lemma prepared_none (P : call -> bool) (cs : list call) :
  (forall c, P c = true -> is_prepare c = false) ->
  forallb P cs = true -> prepared cs = [].
Proof.
  intros HP. induction cs as [|c cs IH]; [done|]. simpl.
  intros [Hc Hcs]%andb_prop. unfold prepared in *. simpl.
  rewrite IH by done. apply HP in Hc. by destruct c.
Qed.

Lemma connected_setup (cs : list call) :
  connected cs -> forallb is_setup cs = true.
Proof.
  intros (pre & name & db & post & -> & Hpre & Hpost).
  rewrite forallb_app. simpl. apply andb_true_intro. split.
  - eapply forallb_weaken; [|done]. by intros [].
  - eapply forallb_weaken; [|done]. by intros c [? _]%andb_prop.
Qed.

Lemma prepared_setup (cs : list call) :
  cs = [] \/ connected cs -> prepared cs = [].
Proof.
  intros [->|Hcs]; [done|]. apply (prepared_none is_setup).
  - by intros [].
  - by apply connected_setup.
Qed.

Lemma prepared_prepare_last (rc : Z) (s : sqlite3_stmt) (cs : list call) :
  prepare_last rc s cs ->
  prepared cs = if decide (rc = SQLITE_OK /\ s ≠ nullptr) then [s] else [].
Proof.
  intros (pre & db & sql & n & fl & -> & Hpre).
  rewrite prepared_app, prepared_setup by done. unfold prepared. simpl.
  by destruct (decide _).
Qed.

Lemma prepared_connect_failed (rc : Z) (cs : list call) :
  connect_failed rc cs -> prepared cs = [].
Proof.
  intros (pre & name & db & -> & Hpre). apply (prepared_none is_setup).
  - by intros [].
  - rewrite forallb_app. simpl. rewrite andb_true_r.
    eapply forallb_weaken; [|done]. by intros [].
Qed.

Lemma filter_nonnull_singleton (s : sqlite3_stmt) :
  filter (fun s => s ≠ nullptr) [s] = if decide (s ≠ nullptr) then [s] else [].
Proof.
  destruct (decide (s ≠ nullptr)).
  - by rewrite filter_cons_True.
  - by rewrite filter_cons_False.
Qed.

Lemma use_query_inv (depth : nat) (q : query_ref)
    (use : list arg * list (list arg)) (w w' : World) :
  use_query depth q use w = Some w' ->
  exists cs,
    trace w' = trace w ++ cs
    /\ cached q w' ≡ₚ cached q w ++ prepared cs
    /\ length (prepared cs) <= 1
    /\ (slot_occupied q w -> prepared cs = [] /\ slot_occupied q w')
    /\ (prepared cs ≠ [] -> slot_occupied q w').
Proof.
  unfold use_query. intros Huse.
  pose proof (query_inv depth q use.1 w) as Hquery.
  destruct (query depth q use.1 w) as [r w1|e w1| |]; [| |done|done].
  - destruct Hquery as (Hcb & _ & args' & c' & pre & binds & rc & _ & Hs1 & Hf
                        & Htr1 & _ & _ & Hbinds & _ & Hcase).
    destruct (fetch_rows depth r use.2 w1) as [[[bs r2] w2]|] eqn:Hfetch; [|done].
    apply fetch_rows_inv in Hfetch as (Hst & Hcb2 & Hs2 & fs & Htr2 & Hfs).
    assert (Hmid : prepared (binds ++ [call_step (stmt r) rc] ++ fs) = []).
    { apply (prepared_none (fun c => is_bind c || is_fetch c)).
      - by intros [].
      - rewrite !forallb_app. simpl. apply andb_true_intro. split.
        + eapply forallb_weaken; [|done]. by intros c ->.
        + eapply forallb_weaken; [|done]. intros c ->. by rewrite orb_true_r. }
    assert (Hdtor : exists tail,
      trace w' = trace w2 ++ tail /\ prepared tail = []
      /\ cached q w' = filter (fun s => s ≠ nullptr) [stmt r] ++ cached q w1
      /\ (stmt r ≠ nullptr -> slot_occupied q w')).
    { destruct (decide (stmt r2 = nullptr)) as [Hnull|Hnn].
      - rewrite QueryResult_dtor_nullptr in Huse by done. simplify_eq.
        exists []. rewrite app_nil_r. split; [done|]. split; [done|].
        rewrite filter_nonnull_singleton, <- Hst.
        destruct (decide (stmt r2 ≠ nullptr)); [done|].
        split; [|done]. unfold cached. by rewrite Hs2.
      - destruct (QueryResult_dtor_put q r2 c' w2) as (w3 & Hd & Hs3 & Htr3);
          [done|congruence|by rewrite Hs2, Hs1, lookup_insert_eq|].
        rewrite Hd in Huse. simplify_eq. eexists. split; [done|].
        split; [done|].
        assert (Hput : internal_put (stmt r2) c'
                       = {| cache_db_handle := cache_db_handle c';
                            first_free_stmt := stmt r2;
                            other_free_stmts := other_free_stmts c' |}).
        { unfold internal_put. by destruct (decide _). }
        split.
        + erewrite (cached_insert q _ w2 w') by done.
          erewrite (cached_insert q c' w w1) by done.
          rewrite Hput. unfold idle_stmts. simpl. rewrite <- Hst.
          rewrite filter_cons_True by done.
          rewrite (filter_cons_True _ (stmt r2)) by done.
          rewrite Hf. by rewrite (filter_cons_False _ nullptr) by (intros ?; done).
        + intros _. eapply slot_occupied_insert; [done|]. by rewrite Hput. }
    destruct Hdtor as (tail & Htr3 & Htail & Hcached & Hslot').
    exists (pre ++ (binds ++ [call_step (stmt r) rc] ++ fs) ++ tail).
    split; [rewrite Htr3, Htr2, Htr1; by rewrite <- !app_assoc|].
    rewrite (prepared_app pre), (prepared_app _ tail), Hmid, Htail. simpl.
    rewrite !app_nil_r.
    destruct Hcase as [(-> & Hnn & Hperm)|(Hslot & Hcw & Hcw1 & Hprep)].
    + simpl. rewrite app_nil_r. split; [by rewrite Hcached, Hperm|].
      split; [lia|]. split; [|done]. intros Hocc. split; [done|]. auto.
    + rewrite (prepared_prepare_last _ _ _ Hprep).
      rewrite Hcached, Hcw, Hcw1, app_nil_r, filter_nonnull_singleton. simpl.
      destruct (decide (stmt r ≠ nullptr)) as [Hnn|Hnull].
      * rewrite decide_True by done. split; [done|]. split; [simpl; lia|].
        split; [done|]. auto.
      * rewrite decide_False by (intros [_ ?]; done).
        split; [done|]. split; [simpl; lia|]. split; done.
  - simplify_eq.
    destruct Hquery as (Hslot & Hcw & Hcw1 & Hslot1 & Hrc & cs & Htr & Hcase).
    exists cs. split; [done|].
    assert (Hp : prepared cs = []).
    { destruct Hcase as [Hfail|[s Hprep]].
      - by eapply prepared_connect_failed.
      - rewrite (prepared_prepare_last _ _ _ Hprep).
        by rewrite decide_False by (intros [? _]; done). }
    rewrite Hp, Hcw, Hcw1. simpl. split; [done|]. split; [lia|]. split; done.
Qed.
(** *** Reuse of prepared statements *)

Lemma use_query_seq_inv (depth : nat) (q : query_ref)
    (uses : list (list arg * list (list arg))) (w w' : World) :
  use_query_seq depth q uses w = Some w' ->
  exists cs,
    trace w' = trace w ++ cs
    /\ cached q w' ≡ₚ cached q w ++ prepared cs
    /\ length (prepared cs) <= 1
    /\ (slot_occupied q w -> prepared cs = [] /\ slot_occupied q w')
    /\ (prepared cs ≠ [] -> slot_occupied q w').
Proof.
  revert w. induction uses as [|use rest IH]; intros w Hrun; simpl in Hrun.
  - simplify_eq. exists []. rewrite !app_nil_r. unfold prepared. simpl.
    split; [done|]. split; [done|]. split; [lia|]. split; done.
  - destruct (use_query depth q use w) as [w1|] eqn:Hone; [|done].
    apply use_query_inv in Hone as (cs1 & Htr1 & Hc1 & Hl1 & Hocc1 & Hnew1).
    apply IH in Hrun as (cs2 & Htr2 & Hc2 & Hl2 & Hocc2 & Hnew2).
    exists (cs1 ++ cs2). rewrite prepared_app.
    split; [by rewrite Htr2, Htr1, <- app_assoc|].
    split; [by rewrite Hc2, Hc1, <- app_assoc|].
    destruct (prepared cs1) as [|s1 p1] eqn:Hp1.
    + simpl. split; [done|]. split; [|done].
      intros Hocc. destruct (Hocc1 Hocc) as [_ Hocc']. auto.
    + assert (Hocc1' : slot_occupied q w1) by (by apply Hnew1).
      destruct (Hocc2 Hocc1') as [-> Hocc'].
      rewrite app_nil_r. split; [done|]. split; [|done].
      intros Hocc. by destruct (Hocc1 Hocc).
Qed.

Lemma internal_get_slot (q : query_ref) (this : PreparedStmtCache) (w : World) :
  first_free_stmt this ≠ nullptr ->
  internal_get q this w
  = Return (first_free_stmt this,
            {| cache_db_handle := cache_db_handle this;
               first_free_stmt := nullptr;
               other_free_stmts := other_free_stmts this |}) w.
Proof.
  intros Hfirst. unfold internal_get. by rewrite decide_True by done.
Qed.

Lemma internal_get_overflow (q : query_ref) (this : PreparedStmtCache)
    (l : list sqlite3_stmt) (s : sqlite3_stmt) (w : World) :
  first_free_stmt this = nullptr ->
  other_free_stmts this = l ++ [s] ->
  internal_get q this w
  = Return (s, {| cache_db_handle := cache_db_handle this;
                  first_free_stmt := nullptr;
                  other_free_stmts := l |}) w.
Proof.
  intros Hfirst Hother. unfold internal_get.
  rewrite decide_False by (intros ?; done).
  rewrite Hother, last_snoc, removelast_last, Hfirst. done.
Qed.

Lemma internal_get_prepare (q : query_ref) (this : PreparedStmtCache) (w : World) :
  first_free_stmt this = nullptr ->
  other_free_stmts this = [] ->
  let sql := maybe_invoke (q_thing q) in
  let nbyte := (Z.of_nat (String.length sql) + 1)%Z in
  let '(rc, s, e') :=
    sqlite3_prepare_v3 (cache_db_handle this) sql nbyte
      SQLITE_PREPARE_PERSISTENT (engine w) in
  let w' :=
    engine_ran e'
      [call_prepare_v3 (cache_db_handle this) sql nbyte
         SQLITE_PREPARE_PERSISTENT rc s] w in
  internal_get q this w
  = if decide (rc ≠ SQLITE_OK) then Throw {| err_code := rc |} w'
    else Return (s, this) w'.
Proof.
  intros Hfirst Hother. simpl. unfold internal_get.
  rewrite decide_False by (intros ?; done). rewrite Hother. simpl.
  unfold_M. unfold_Eng.
  destruct (sqlite3_prepare_v3 _ _ _ _ _) as [[rc s] e']. simpl.
  by destruct (decide _).
Qed.

Lemma internal_put_slot (stmt_ : sqlite3_stmt) (this : PreparedStmtCache) :
  first_free_stmt this = nullptr ->
  internal_put stmt_ this
  = {| cache_db_handle := cache_db_handle this;
       first_free_stmt := stmt_;
       other_free_stmts := other_free_stmts this |}.
Proof. intros Hfirst. unfold internal_put. by rewrite decide_True. Qed.

Lemma internal_put_overflow (stmt_ : sqlite3_stmt) (this : PreparedStmtCache) :
  first_free_stmt this ≠ nullptr ->
  internal_put stmt_ this
  = {| cache_db_handle := cache_db_handle this;
       first_free_stmt := first_free_stmt this;
       other_free_stmts := other_free_stmts this ++ [stmt_] |}.
Proof. intros Hfirst. unfold internal_put. by rewrite decide_False. Qed.

(** C1: [internal_get] gives the statement of the slot when there is one,
    else takes the last statement off the overflow list, and only with both
    empty calls [sqlite3_prepare_v3]; [internal_put] fills the slot when it
    is empty and else appends to the list.  Hence, over any number of uses
    of one [query_str] one after the other, each cursor destroyed before
    the next use, at most one statement is prepared from scratch, and every
    statement that was idle before or was prepared in between is idle in the
    cache afterwards. *)
Theorem cache_reuse (depth : nat) (q : query_ref)
    (uses : list (list arg * list (list arg))) (w w' : World) :
  use_query_seq depth q uses w = Some w' ->
  (forall (this : PreparedStmtCache) (w0 : World),
     first_free_stmt this ≠ nullptr ->
     internal_get q this w0
     = Return (first_free_stmt this,
               {| cache_db_handle := cache_db_handle this;
                  first_free_stmt := nullptr;
                  other_free_stmts := other_free_stmts this |}) w0)
  /\ (forall (this : PreparedStmtCache) l s (w0 : World),
        first_free_stmt this = nullptr ->
        other_free_stmts this = l ++ [s] ->
        internal_get q this w0
        = Return (s, {| cache_db_handle := cache_db_handle this;
                        first_free_stmt := nullptr;
                        other_free_stmts := l |}) w0)
  /\ (forall (this : PreparedStmtCache) (w0 : World),
        first_free_stmt this = nullptr ->
        other_free_stmts this = [] ->
        exists rc s w1 cs,
          trace w1 = trace w0 ++ cs
          /\ prepare_last rc s cs
          /\ internal_get q this w0
             = if decide (rc ≠ SQLITE_OK) then Throw {| err_code := rc |} w1
               else Return (s, this) w1)
  /\ (forall (this : PreparedStmtCache) stmt_,
        internal_put stmt_ this
        = if decide (first_free_stmt this = nullptr) then
            {| cache_db_handle := cache_db_handle this;
               first_free_stmt := stmt_;
               other_free_stmts := other_free_stmts this |}
          else
            {| cache_db_handle := cache_db_handle this;
               first_free_stmt := first_free_stmt this;
               other_free_stmts := other_free_stmts this ++ [stmt_] |})
  /\ exists cs,
       trace w' = trace w ++ cs
       /\ length (prepared cs) <= 1
       /\ cached q w' ≡ₚ cached q w ++ prepared cs.
Proof.
  intros Hrun.
  split; [intros; by apply internal_get_slot|].
  split; [intros; by apply internal_get_overflow|].
  split.
  { intros this w0 Hfirst Hother.
    pose proof (internal_get_prepare q this w0 Hfirst Hother) as Hget.
    simpl in Hget.
    destruct (sqlite3_prepare_v3 _ _ _ _ _) as [[rc s] e'].
    eexists rc, s, _, _. split; [|split; [|exact Hget]].
    - reflexivity.
    - eexists [], _, _, _, _. split; [reflexivity|]. by left. }
  split; [done|].
  apply use_query_seq_inv in Hrun as (cs & Htr & Hc & Hl & _).
  by exists cs.
Qed.
(** *** Optional values and converters *)

(** C7: for an optional of a type that [bind_dispatcher] accepts, binding
    an absent value binds NULL at its index and binding a present value is
    binding the value it holds; either way the index advances by one, with
    one call.  For an optional of a type that [column_dispatcher] accepts,
    extracting gives empty for a NULL column and else the value that
    extracting into the unwrapped type gives for that column, wrapped. *)
Theorem optional_composition (depth : nat) (stmt_ : sqlite3_stmt) (t : ty)
    (idx : Z) (e : engine_state) :
  (bindable t = true ->
   bind_dispatcher stmt_ (TOptional t) None idx e
   = Some ((idx + 1)%Z, sqlite3_bind_null stmt_ idx e, [call_bind_null stmt_ idx])
   /\ (forall x : val t,
         bind_dispatcher stmt_ (TOptional t) (Some x) idx e
         = bind_dispatcher stmt_ t x idx e)
   /\ (forall v : val (TOptional t),
         exists e' c,
           bind_dispatcher stmt_ (TOptional t) v idx e
           = Some ((idx + 1)%Z, e', [c])))
  /\ (extractable depth t = true ->
      column_dispatcher depth stmt_ (TOptional t) idx e
      = (if decide (sqlite3_column_type stmt_ idx e = SQLITE_NULL) then
           Some ((None, (idx + 1)%Z), e,
                 [call_column_type stmt_ idx (sqlite3_column_type stmt_ idx e)])
         else
           match column_dispatcher depth stmt_ t idx e with
           | Some ((v, idx'), e', cs) =>
               Some ((Some v, idx'), e',
                     call_column_type stmt_ idx (sqlite3_column_type stmt_ idx e)
                       :: cs)
           | None => None
           end)).
Proof.
  split.
  - intros Hb. split; [simpl; by rewrite Hb|]. split; [simpl; by rewrite Hb|].
    intros v.
    destruct (bind_dispatcher_total stmt_ (TOptional t) v idx e Hb)
      as (idx' & e' & cs & Hrun).
    rewrite Hrun.
    apply bind_dispatcher_spec in Hrun as (-> & c & -> & _). eauto.
  - intros He. rewrite column_dispatcher_optional. cbv zeta. by rewrite He.
Qed.

Lemma maybe_serialize_without (a : arg) :
  has_serialize_fn (arg_t a) = false -> maybe_serialize a = a.
Proof.
  destruct a as [t v]. unfold has_serialize_fn, maybe_serialize. simpl.
  by destruct (user_serialize_fn t) as [[r fn]|].
Qed.

Lemma query_without_converter (d1 d2 : nat) (q : query_ref) (bind_args : list arg) :
  existsb (fun a => has_serialize_fn (arg_t a)) bind_args = false ->
  query (S d1) q bind_args = query (S d2) q bind_args.
Proof. intros Hnone. simpl. by rewrite Hnone. Qed.

Lemma query_with_converter (d : nat) (q : query_ref) (bind_args : list arg) :
  existsb (fun a => has_serialize_fn (arg_t a)) bind_args = true ->
  query (S d) q bind_args = query d q (map maybe_serialize bind_args).
Proof. intros Hsome. simpl. by rewrite Hsome. Qed.

(** With enough depth [query()] gets to bind the serialized arguments. *)
Lemma query_enough_depth (q : query_ref) (bind_args bind_args' : list arg) :
  serializes_to bind_args bind_args' ->
  exists d, forall d', d <= d' ->
    query (S d') q bind_args = query 1 q bind_args'.
Proof.
  induction 1 as [bind_args Hnone|bind_args bind_args' Hsome _ [d IH]].
  - exists 0. intros d' _. by apply query_without_converter.
  - exists (S d). intros [|d'] Hle; [lia|].
    rewrite query_with_converter by done. apply IH. lia.
Qed.
(** *** The calls of query() *)

Lemma filter_none (P Q : call -> bool) (cs : list call) :
  (forall c, P c = true -> Q c = false) ->
  forallb P cs = true -> List.filter Q cs = [].
Proof.
  intros HPQ. induction cs as [|c cs IH]; [done|]. simpl.
  intros [Hc Hcs]%andb_prop. by rewrite (HPQ c Hc), IH.
Qed.

Lemma failures_none (P : call -> bool) (cs : list call) :
  (forall c, P c = true -> is_open c = false /\ is_prepare c = false) ->
  forallb P cs = true -> failures cs = [].
Proof.
  intros HP. induction cs as [|c cs IH]; [done|]. simpl.
  intros [Hc Hcs]%andb_prop. unfold failures in *. simpl.
  rewrite IH by done. apply HP in Hc as [? ?]. by destruct c.
Qed.

Lemma failures_app (a b : list call) :
  failures (a ++ b) = failures a ++ failures b.
Proof. apply omap_app. Qed.

Lemma failures_connected (cs : list call) :
  cs = [] \/ connected cs -> failures cs = [].
Proof.
  intros [->|(pre & name & db & post & -> & Hpre & Hpost)]; [done|].
  rewrite failures_app. rewrite (failures_none is_config) by (done || by intros []).
  change (call_open name SQLITE_OK db :: post)
    with ([call_open name SQLITE_OK db] ++ post).
  rewrite failures_app.
  rewrite (failures_none (fun c => is_setup c && negb (is_open c)) post); [|by intros []|done].
  unfold failures. simpl. by rewrite decide_False by (intros ?; done).
Qed.

Lemma setup_calls (cs : list call) :
  cs = [] \/ connected cs -> forallb is_setup cs = true.
Proof. intros [->|Hcs]; [done|]. by apply connected_setup. Qed.

Lemma serializes_to_without (bind_args bind_args' : list arg) :
  existsb (fun a => has_serialize_fn (arg_t a)) bind_args = false ->
  serializes_to bind_args bind_args' -> bind_args' = bind_args.
Proof. intros Hnone Hser. destruct Hser; [done|congruence]. Qed.

(** C6: the calls of a [query()] that returns are those of the checkout,
    none of them a bind or a step, then one bind call for each argument, in
    order, the argument at position [i] at parameter index [1 + i] with the
    call that the contract gives for its type, and then the first step.
    The arguments bound are those passed, when no type has a converter. *)
Theorem bind_dispatch (depth : nat) (q : query_ref) (bind_args : list arg)
    (w w' : World) (r : QueryResult) :
  query depth q bind_args w = Return r w' ->
  exists bind_args' pre binds rc,
    serializes_to bind_args bind_args'
    /\ (existsb (fun a => has_serialize_fn (arg_t a)) bind_args = false ->
        bind_args' = bind_args)
    /\ trace w' = trace w ++ pre ++ binds ++ [call_step (stmt r) rc]
    /\ forallb (fun c => negb (is_bind c) && negb (is_step c)) pre = true
    /\ length binds = length bind_args'
    /\ forall (i : nat) (a : arg),
         bind_args' !! i = Some a ->
         binds !! i = spec_bind_call (stmt r) (projT1 a) (projT2 a)
                        (1 + Z.of_nat i)
         /\ is_Some (binds !! i).
Proof.
  intros Hrun. pose proof (query_inv depth q bind_args w) as Hq.
  rewrite Hrun in Hq.
  destruct Hq as (_ & _ & args' & c' & pre & binds & rc & Hser & _ & _ & Htr
                  & _ & Hlen & _ & Hnth & Hcase).
  exists args', pre, binds, rc. split; [done|].
  split; [intros Hnone; by eapply serializes_to_without|].
  split; [done|]. split; [|done].
  destruct Hcase as [(-> & _)|(_ & _ & _ & (pre0 & db & sql & n & fl & -> & Hpre0))];
    [done|].
  rewrite forallb_app. simpl. rewrite andb_true_r.
  eapply forallb_weaken; [|by apply setup_calls]. by intros [].
Qed.
Lemma checkout_calls (rc : Z) (s : sqlite3_stmt) (pre : list call) :
  pre = [] \/ prepare_last rc s pre ->
  forallb (fun c => is_setup c || is_prepare c) pre = true.
Proof.
  intros [->|(pre0 & db & sql & n & fl & -> & Hpre0)]; [done|].
  rewrite forallb_app. simpl. rewrite andb_true_r.
  eapply forallb_weaken; [|by apply setup_calls]. by intros c ->.
Qed.

Lemma operator_call_delivers (depth : nat) (this : QueryResult)
    (args : list arg) (w : World) :
  match operator_call depth this args w with
  | Return true (this', args', w') =>
      exists e2 reads,
        column_all depth (stmt this) (map arg_t args) 0
          (if first_invocation this then engine w
           else (sqlite3_step (stmt this) (engine w)).2)
        = Some (args', e2, reads)
        /\ engine w' = e2
  | _ => True
  end.
Proof.
  unfold operator_call.
  destruct (negb (forallb _ _)); [done|].
  destruct (decide _); [done|].
  destruct (first_invocation this); simpl.
  - destruct (ret this) as [rc|]; [|done]. destruct (decide _); [done|].
    destruct (column_all _ _ _ _ _) as [[[a' e2] cs]|] eqn:Hcols; [|done].
    by eexists _, _.
  - destruct (sqlite3_step _ _) as [rc e1] eqn:Hstep. simpl.
    destruct (decide _); [done|].
    destruct (column_all _ _ _ _ _) as [[[a' e2] cs]|] eqn:Hcols; [|done].
    by eexists _, _.
Qed.

Lemma operator_call_ill_formed (depth : nat) (this : QueryResult)
    (args : list arg) (w : World) :
  forallb (extractable depth) (map arg_t args) = false ->
  operator_call depth this args w = IllFormed.
Proof. intros Hext. unfold operator_call. by rewrite Hext. Qed.

Lemma fetch_rows_schedule (depth : nat) (fetches : list (list arg))
    (this this' : QueryResult) (w w' : World) (bs : list bool) :
  fetch_rows depth this fetches w = Some (bs, this', w') ->
  exists cs,
    trace w' = trace w ++ cs
    /\ first_invocation this' = first_invocation this && negb (existsb id bs)
    /\ length (List.filter is_step cs)
       = if first_invocation this then length (after_first_row bs)
         else length bs.
Proof.
  revert this w bs. induction fetches as [|args rest IH]; intros this w bs Hrun;
    simpl in Hrun.
  - simplify_eq. exists []. rewrite app_nil_r. simpl. rewrite andb_true_r.
    by destruct (first_invocation this').
  - pose proof (operator_call_inv depth this args w) as Hcall. simpl in Hcall.
    destruct (operator_call depth this args w)
      as [b [[this1 args1] w1]|e [[this1 args1] w1]| |]; [| |done|done].
    + destruct Hcall as (_ & _ & _ & _ & rc & steps & reads & Htr & _ & _
                         & Hsteps & Hreads & Hrest).
      destruct (fetch_rows depth this1 rest w1) as [[[bs1 r1] w2]|] eqn:Hrest';
        [|done].
      simplify_eq. apply IH in Hrest' as (cs2 & Htr2 & Hfi2 & Hlen2).
      assert (Hfi1 : first_invocation this1 = first_invocation this && negb b).
      { destruct b; [destruct Hrest as [-> _]; by rewrite andb_false_r|].
        destruct Hrest as (_ & _ & -> & _). by rewrite andb_true_r. }
      eexists. rewrite Htr2, Htr, <- app_assoc. split; [done|].
      rewrite Hfi2, Hfi1. simpl.
      split; [by destruct (first_invocation this), b|].
      rewrite !List.filter_app, !length_app.
      rewrite (filter_none is_column_read is_step reads); [|by intros []|done].
      rewrite Hlen2, Hfi1.
      destruct (first_invocation this); destruct Hsteps as [-> _]; simpl;
        [by destruct b|done].
    + destruct Hcall as (_ & _ & -> & _ & _ & _ & Htr). simplify_eq.
      eexists. split; [done|]. simpl. rewrite andb_true_r.
      split; [done|]. by destruct (first_invocation this').
Qed.

(** C2, as the code has it: [query()] itself steps the statement, once,
    as the last call it makes, and the cursor it returns has
    [first_invocation] set and the code of that step.  The first invocation
    of the row fetcher on that cursor makes no step and reports that code:
    it returns true exactly when the code is [SQLITE_ROW], and then its
    outputs are what the columns of the row that [query()] stepped onto
    give; otherwise the cursor and the outputs are as they were.  An
    invocation of the row fetcher makes no step while [first_invocation] is
    set and exactly one step once it is cleared, which happens when an
    invocation delivers a row; what it returns is whether the code it finds
    is [SQLITE_ROW], and when it returns true its outputs are read from the
    columns of the current row.  So, of the invocations on the cursor of a
    [query()], those that follow the first one that returned true make one
    step each, and the others make none. *)
Theorem stepping_schedule (depth : nat) (q : query_ref)
    (bind_args : list arg) (this : QueryResult) (args : list arg) (w : World) :
  match query depth q bind_args w with
  | Return r w' =>
      first_invocation r = true
      /\ exists cs rc,
           trace w' = trace w ++ cs ++ [call_step (stmt r) rc]
           /\ List.filter is_step cs = []
           /\ ret r = Some rc
           /\ match operator_call depth r args w' with
              | Return b (r', args', w'') =>
                  b = bool_decide (rc = SQLITE_ROW)
                  /\ resultCode r' = Some rc
                  /\ (exists cs',
                        trace w'' = trace w' ++ cs'
                        /\ List.filter is_step cs' = [])
                  /\ (if b
                      then first_invocation r' = false
                           /\ exists e2 reads,
                                column_all depth (stmt r) (map arg_t args) 0
                                  (engine w')
                                = Some (args', e2, reads)
                                /\ engine w'' = e2
                      else r' = r /\ args' = args /\ engine w'' = engine w')
              | Throw _ _ =>
                  (Z.of_nat (length args)
                   > sqlite3_column_count (stmt r) (engine w'))%Z
              | _ => forallb (extractable depth) (map arg_t args) = false
              end
  | _ => True
  end
  /\ match operator_call depth this args w with
     | Return b (this', args', w') =>
         first_invocation this' = first_invocation this && negb b
         /\ (exists cs,
               trace w' = trace w ++ cs
               /\ List.filter is_step cs
                  = if first_invocation this then []
                    else [call_step (stmt this)
                            (sqlite3_step (stmt this) (engine w)).1])
         /\ (exists rc,
               resultCode this' = Some rc
               /\ b = bool_decide (rc = SQLITE_ROW)
               /\ (if first_invocation this then resultCode this = Some rc
                   else rc = (sqlite3_step (stmt this) (engine w)).1))
         /\ (if b
             then exists e2 reads,
                    column_all depth (stmt this) (map arg_t args) 0
                      (if first_invocation this then engine w
                       else (sqlite3_step (stmt this) (engine w)).2)
                    = Some (args', e2, reads)
                    /\ engine w' = e2
             else args' = args)
     | Throw _ (_, _, w') =>
         exists cs, trace w' = trace w ++ cs /\ List.filter is_step cs = []
     | _ => True
     end
  /\ (forall (r r' : QueryResult) (w' w'' : World)
             (fetches : list (list arg)) (bs : list bool),
        query depth q bind_args w = Return r w' ->
        fetch_rows depth r fetches w' = Some (bs, r', w'') ->
        exists cs,
          trace w'' = trace w' ++ cs
          /\ length (List.filter is_step cs) = length (after_first_row bs)
          /\ first_invocation r' = negb (existsb id bs)).
Proof.
  split; [|split].
  3: { intros r r' w' w'' fetches bs Hquery Hrun.
       pose proof (query_inv depth q bind_args w) as Hq. rewrite Hquery in Hq.
       destruct Hq as (_ & Hfi & _).
       apply fetch_rows_schedule in Hrun as (cs & Htr & Hfi' & Hlen).
       rewrite Hfi in Hfi', Hlen. by exists cs. }
  - pose proof (query_inv depth q bind_args w) as Hq.
    destruct (query depth q bind_args w) as [r w'|e w'| |]; try done.
    destruct Hq as (_ & Hfi & args0 & c' & pre & binds & rc & _ & _ & _ & Htr
                    & Hret & _ & Hbinds & _ & Hcase).
    split; [done|]. exists (pre ++ binds), rc.
    split; [by rewrite Htr, <- app_assoc|]. split.
    { rewrite List.filter_app.
      rewrite (filter_none is_bind is_step binds); [|by intros []|done].
      rewrite (filter_none (fun c => is_setup c || is_prepare c) is_step pre);
        [done|by intros []|].
      apply (checkout_calls SQLITE_OK (stmt r)). tauto. }
    split; [done|].
    destruct (forallb (extractable depth) (map arg_t args)) eqn:Hext;
      [|by rewrite operator_call_ill_formed].
    pose proof (operator_call_total depth r args w' Hext
                  (or_intror (ex_intro _ rc Hret))) as Htot.
    pose proof (operator_call_inv depth r args w') as Hcall. simpl in Hcall.
    pose proof (operator_call_delivers depth r args w') as Hrow.
    destruct (operator_call depth r args w')
      as [b [[r' args'] w'']|e [[r' args'] w'']| |]; try done.
    + destruct Hcall as (_ & _ & _ & _ & rc' & steps & reads & Htr' & Hret' & Hb
                         & Hsteps & Hreads & Hrest).
      rewrite Hfi in Hsteps, Hrest. destruct Hsteps as [-> Hrc'].
      assert (rc' = rc) as -> by congruence.
      split; [done|]. split; [done|]. split.
      { eexists. split; [done|]. simpl.
        by rewrite (filter_none is_column_read is_step reads);
          [|by intros []|]. }
      destruct b.
      * destruct Hrest as [Hfalse _]. split; [done|].
        rewrite Hfi in Hrow. exact Hrow.
      * destruct Hrest as (_ & Hargs & _ & Hsame).
        destruct (Hsame eq_refl) as [-> He]. done.
    + by destruct Hcall as (Hgt & _).
  - pose proof (operator_call_inv depth this args w) as Hcall. simpl in Hcall.
    pose proof (operator_call_delivers depth this args w) as Hrow.
    destruct (operator_call depth this args w)
      as [b [[this' args'] w']|e [[this' args'] w']| |]; try done.
    + destruct Hcall as (_ & _ & _ & _ & rc & steps & reads & Htr & Hret & Hb
                         & Hsteps & Hreads & Hrest).
      split.
      { destruct b; [destruct Hrest as [-> _]; by rewrite andb_false_r|].
        destruct Hrest as (_ & _ & -> & _). by rewrite andb_true_r. }
      split.
      { eexists. split; [done|]. simpl. rewrite List.filter_app.
        rewrite (filter_none is_column_read is_step reads); [|by intros []|done].
        rewrite app_nil_r.
        destruct (first_invocation this); destruct Hsteps as [-> Hrc]; [done|].
        simpl. by rewrite Hrc. }
      split.
      { exists rc. split; [done|]. split; [done|].
        destruct (first_invocation this); by destruct Hsteps. }
      destruct b; [exact Hrow|by destruct Hrest as (_ & -> & _)].
    + destruct Hcall as (_ & _ & _ & _ & _ & _ & Htr). by eexists.
Qed.

Lemma failures_checkout (s : sqlite3_stmt) (pre : list call) :
  pre = [] \/ prepare_last SQLITE_OK s pre -> failures pre = [].
Proof.
  intros [->|(pre0 & db & sql & n & fl & -> & Hpre0)]; [done|].
  rewrite failures_app, failures_connected by done.
  unfold failures. simpl. by rewrite decide_False by (intros ?; done).
Qed.

Lemma serializes_to_length (bind_args bind_args' : list arg) :
  serializes_to bind_args bind_args' -> length bind_args' = length bind_args.
Proof.
  induction 1 as [|bind_args bind_args' _ _ IH]; [done|].
  by rewrite IH, length_map.
Qed.

Lemma query_compiles_total (depth : nat) (q : query_ref) (bind_args : list arg)
    (w : World) :
  query_compiles depth bind_args = true ->
  match query depth q bind_args w with
  | Return _ _ | Throw _ _ => True
  | _ => False
  end.
Proof.
  revert bind_args. induction depth as [|depth IH]; intros bind_args; [done|].
  intros Hc. simpl in Hc.
  destruct (existsb _ bind_args) eqn:Hconv.
  - rewrite query_with_converter by done. by apply IH.
  - by apply query_total.
Qed.

(** C8: when the type of some argument has a serialize converter,
    [query()] is the query of the arguments mapped by [maybe_serialize],
    which keeps the number and the positions of the arguments, leaves an
    argument without converter as it is and replaces one with a converter
    by the converter's result.  For [std::optional<T>] with a converter
    [fn] for [T], a present value [x] becomes present [fn x] and an absent
    one stays absent.  The call that compiles returns or throws; when it
    returns, it has made one bind call for each argument, in order, before
    its step, and what it bound are the converted arguments: at the
    position of an argument [v] with converter [fn], the bind call that the
    contract gives for [fn v].  When it throws, it has bound nothing and
    throws the code of the open or prepare call that failed. *)
Theorem serialize_converter_dispatch (depth : nat) (q : query_ref)
    (bind_args : list arg) (t r : ty) (fn : val t -> val r) (v : val t)
    (w : World) :
  existsb (fun a => has_serialize_fn (arg_t a)) bind_args = true ->
  user_serialize_fn t = Some (existT r fn) ->
  query (S depth) q bind_args = query depth q (map maybe_serialize bind_args)
  /\ length (map maybe_serialize bind_args) = length bind_args
  /\ (forall (i : nat) (a : arg),
        bind_args !! i = Some a ->
        map maybe_serialize bind_args !! i = Some (maybe_serialize a))
  /\ (forall a : arg, has_serialize_fn (arg_t a) = false -> maybe_serialize a = a)
  /\ maybe_serialize (existT t v) = existT r (fn v)
  /\ has_serialize_fn (TOptional t) = true
  /\ maybe_serialize (existT (TOptional t) (Some v : val (TOptional t)))
     = existT (TOptional r) (Some (fn v) : val (TOptional r))
  /\ maybe_serialize (existT (TOptional t) (None : val (TOptional t)))
     = existT (TOptional r) (None : val (TOptional r))
  /\ match query (S depth) q bind_args w with
     | Return cur w' =>
         exists bind_args' pre binds rc,
           serializes_to (map maybe_serialize bind_args) bind_args'
           /\ (existsb (fun a => has_serialize_fn (arg_t a))
                 (map maybe_serialize bind_args) = false ->
               bind_args' = map maybe_serialize bind_args)
           /\ trace w' = trace w ++ pre ++ binds ++ [call_step (stmt cur) rc]
           /\ forallb (fun c => negb (is_bind c) && negb (is_step c)) pre = true
           /\ length binds = length bind_args
           /\ (forall (i : nat) (a : arg),
                 bind_args' !! i = Some a ->
                 binds !! i = spec_bind_call (stmt cur) (projT1 a) (projT2 a)
                                (1 + Z.of_nat i)
                 /\ is_Some (binds !! i))
           /\ (existsb (fun a => has_serialize_fn (arg_t a))
                 (map maybe_serialize bind_args) = false ->
               forall i : nat,
                 bind_args !! i = Some (existT t v) ->
                 binds !! i = spec_bind_call (stmt cur) r (fn v) (1 + Z.of_nat i)
                 /\ is_Some (binds !! i))
     | Throw e w' =>
         exists cs,
           trace w' = trace w ++ cs
           /\ failures cs = [err_code e]
           /\ List.filter is_bind cs = []
     | _ => query_compiles (S depth) bind_args = false
     end.
Proof.
  intros Hsome Hfn.
  assert (Hser : maybe_serialize (existT t v) = existT r (fn v))
    by (unfold maybe_serialize; by rewrite Hfn).
  split; [simpl; by rewrite Hsome|].
  split; [apply length_map|].
  split; [intros i a Hi; by rewrite list_lookup_fmap, Hi|].
  split; [apply maybe_serialize_without|].
  split; [done|].
  split; [unfold has_serialize_fn; simpl; by rewrite Hfn|].
  split; [unfold maybe_serialize; simpl; by rewrite Hfn|].
  split; [unfold maybe_serialize; simpl; by rewrite Hfn|].
  pose proof (query_compiles_total (S depth) q bind_args w) as Htot.
  pose proof (query_inv depth q (map maybe_serialize bind_args) w) as Hq.
  rewrite <- (query_with_converter depth q bind_args Hsome) in Hq.
  destruct (query (S depth) q bind_args w) as [cur w'|e w'| |].
  - destruct Hq as (_ & _ & args' & c' & pre & binds & rc & Hto & _ & _ & Htr
                    & _ & Hlen & _ & Hnth & Hcase).
    exists args', pre, binds, rc. split; [done|].
    split; [intros Hnone; by eapply serializes_to_without|].
    split; [done|].
    split.
    { destruct Hcase as [(-> & _)|(_ & _ & _ & (pre0 & db & sql & n & fl & -> & Hpre0))];
        [done|].
      rewrite forallb_app. simpl. rewrite andb_true_r.
      eapply forallb_weaken; [|by apply setup_calls]. by intros []. }
    split; [by rewrite Hlen, (serializes_to_length _ _ Hto), length_map|].
    split; [done|].
    intros Hnone i Hi.
    rewrite (serializes_to_without _ _ Hnone Hto) in Hnth.
    apply (Hnth i (existT r (fn v))).
    rewrite list_lookup_fmap.
    etrans; [exact (f_equal (fmap maybe_serialize) Hi)|].
    exact (f_equal Some Hser).
  - destruct Hq as (_ & _ & _ & _ & Hrc & cs & Htr & Hcase).
    exists cs. split; [done|].
    destruct Hcase as [(pre & name & db & -> & Hpre)
                      |(s & pre & db & sql & n & fl & -> & Hpre)].
    + split.
      * rewrite failures_app, (failures_none is_config) by (done || by intros []).
        unfold failures. simpl. by rewrite decide_True.
      * apply (filter_none is_setup); [by intros []|].
        rewrite forallb_app. simpl. rewrite andb_true_r.
        eapply forallb_weaken; [|done]. by intros [].
    + split.
      * rewrite failures_app, failures_connected by done.
        unfold failures. simpl. by rewrite decide_True.
      * apply (filter_none (fun c => is_setup c || is_prepare c)); [by intros []|].
        apply (checkout_calls (err_code e) s). right. by eexists _, _, _, _, _.
  - by destruct (query_compiles (S depth) bind_args); [destruct (Htot eq_refl)|].
  - by destruct (query_compiles (S depth) bind_args); [destruct (Htot eq_refl)|].
Qed.

(** C9: a [query()] that throws throws the code of a [sqlite3_open] or
    [sqlite3_prepare_v3] call that did not return [SQLITE_OK]; that call is
    the last one made (nothing is tried again), no call before it failed,
    and no step was made.  A [query()] that returns made no failing open or
    prepare call and keeps the code of its step, whatever it is, for
    [resultCode()].  The row fetcher keeps the code of the step it makes
    and returns; what it throws is thrown before any step, for the number of
    arguments. *)
Theorem error_surface (depth : nat) (q : query_ref) (bind_args : list arg)
    (this : QueryResult) (args : list arg) (w : World) :
  match query depth q bind_args w with
  | Return r w' =>
      exists cs rc,
        trace w' = trace w ++ cs ++ [call_step (stmt r) rc]
        /\ failures cs = []
        /\ resultCode r = Some rc
  | Throw e w' =>
      err_code e ≠ SQLITE_OK
      /\ exists pre c,
           trace w' = trace w ++ pre ++ [c]
           /\ failures pre = []
           /\ failures [c] = [err_code e]
           /\ List.filter is_step (pre ++ [c]) = []
  | _ => True
  end
  /\ match operator_call depth this args w with
     | Return b (this', _, w') =>
         exists rc,
           resultCode this' = Some rc
           /\ b = bool_decide (rc = SQLITE_ROW)
           /\ (if first_invocation this then resultCode this = Some rc
               else rc = (sqlite3_step (stmt this) (engine w)).1)
     | Throw e (this', args', w') =>
         e = {| err_code := SQLITE_ERROR |}
         /\ (Z.of_nat (length args)
             > sqlite3_column_count (stmt this) (engine w))%Z
         /\ this' = this /\ args' = args
         /\ trace w' = trace w ++
              [call_column_count (stmt this)
                 (sqlite3_column_count (stmt this) (engine w))]
     | _ => True
     end.
Proof.
  split.
  - pose proof (query_inv depth q bind_args w) as Hq.
    destruct (query depth q bind_args w) as [r w'|e w'| |]; try done.
    + destruct Hq as (_ & _ & args' & c' & pre & binds & rc & _ & _ & _ & Htr
                      & Hret & _ & Hbinds & _ & Hcase).
      exists (pre ++ binds), rc. split; [by rewrite Htr, <- app_assoc|].
      split; [|done]. rewrite failures_app.
      rewrite (failures_none is_bind binds); [|by intros []|done].
      rewrite (failures_checkout (stmt r)); [done|]. tauto.
    + destruct Hq as (_ & _ & _ & _ & Hrc & cs & Htr & Hcase).
      split; [done|].
      destruct Hcase as [(pre & name & db & -> & Hpre)
                        |(s & pre & db & sql & n & fl & -> & Hpre)].
      * eexists pre, _. split; [done|].
        split; [apply (failures_none is_config); [by intros []|done]|].
        split; [unfold failures; simpl; by rewrite decide_True|].
        apply (filter_none is_setup); [by intros []|].
        rewrite forallb_app. simpl. rewrite andb_true_r.
        eapply forallb_weaken; [|done]. by intros [].
      * eexists pre, _. split; [done|].
        split; [by apply failures_connected|].
        split; [unfold failures; simpl; by rewrite decide_True|].
        apply (filter_none (fun c => is_setup c || is_prepare c)); [by intros []|].
        apply (checkout_calls (err_code e) s). right. by eexists _, _, _, _, _.
  - pose proof (operator_call_inv depth this args w) as Hcall. simpl in Hcall.
    destruct (operator_call depth this args w)
      as [b [[this' args'] w']|e [[this' args'] w']| |]; try done.
    + destruct Hcall as (_ & _ & _ & _ & rc & steps & reads & _ & Hret & Hb
                         & Hsteps & _).
      exists rc. split; [done|]. split; [done|].
      destruct (first_invocation this); by destruct Hsteps.
    + destruct Hcall as (Hgt & -> & -> & -> & _ & _ & Htr). done.
Qed.
(** *** Exhausted cursors *)

Lemma operator_call_exhausted (depth : nat) (this : QueryResult)
    (args : list arg) (w : World) (rc : Z) :
  first_invocation this = true ->
  ret this = Some rc ->
  rc ≠ SQLITE_ROW ->
  forallb (extractable depth) (map arg_t args) = true ->
  (Z.of_nat (length args) <= sqlite3_column_count (stmt this) (engine w))%Z ->
  operator_call depth this args w
  = Return false
      (this, args,
       engine_ran (engine w)
         [call_column_count (stmt this)
            (sqlite3_column_count (stmt this) (engine w))] w).
Proof.
  intros Hfirst Hret Hrc Hwf Hle. unfold operator_call. rewrite Hwf. simpl.
  rewrite decide_False by lia. rewrite Hfirst. simpl. rewrite Hret.
  by rewrite decide_True.
Qed.

Lemma fetch_rows_exhausted (depth : nat) (this : QueryResult)
    (fetches : list (list arg)) (w : World) (rc : Z) :
  first_invocation this = true ->
  ret this = Some rc ->
  rc ≠ SQLITE_ROW ->
  Forall (fun args =>
            forallb (extractable depth) (map arg_t args) = true
            /\ (Z.of_nat (length args)
                <= sqlite3_column_count (stmt this) (engine w))%Z) fetches ->
  exists w',
    fetch_rows depth this fetches w
    = Some (replicate (length fetches) false, this, w')
    /\ engine w' = engine w
    /\ singleton_tls_object w' = singleton_tls_object w
    /\ exists cs, trace w' = trace w ++ cs /\ List.filter is_step cs = [].
Proof.
  intros Hfirst Hret Hrc Hfit. revert w Hfit.
  induction fetches as [|args rest IH]; intros w Hfit; simpl.
  - exists w. split_and!; try done. exists []. by rewrite app_nil_r.
  - apply Forall_cons in Hfit as [[Hwf Hargs] Hrest].
    rewrite (operator_call_exhausted depth this args w rc) by done.
    set (w1 := engine_ran _ _ w).
    destruct (IH w1 Hrest) as (w' & Hrun & He & Hs & cs & Htr & Hcs).
    rewrite Hrun. exists w'. split; [done|]. split; [done|]. split; [done|].
    eexists. rewrite Htr. subst w1. simpl. rewrite <- app_assoc.
    split; [done|]. done.
Qed.

(** The row fetcher keeps no record of the end of the rows: a cursor that
    has delivered a row and whose last step did not find one steps its
    statement again at the next invocation, and delivers a row when the
    engine gives one. *)
Lemma operator_call_after_exhaustion (depth : nat) (this : QueryResult)
    (args : list arg) (w : World) (rc : Z) :
  first_invocation this = false ->
  ret this = Some rc ->
  rc ≠ SQLITE_ROW ->
  forallb (extractable depth) (map arg_t args) = true ->
  (Z.of_nat (length args) <= sqlite3_column_count (stmt this) (engine w))%Z ->
  (sqlite3_step (stmt this) (engine w)).1 = SQLITE_ROW ->
  exists this' args' w',
    operator_call depth this args w = Return true (this', args', w')
    /\ resultCode this' = Some SQLITE_ROW.
Proof.
  intros Hfirst Hret Hrc Hext Hle Hstep.
  pose proof (operator_call_total depth this args w Hext (or_introl Hfirst))
    as Htot.
  pose proof (operator_call_inv depth this args w) as Hcall. simpl in Hcall.
  destruct (operator_call depth this args w)
    as [b [[this' args'] w']|e [[this' args'] w']| |]; try done.
  - destruct Hcall as (_ & _ & _ & _ & rc' & steps & reads & _ & Hret' & Hb
                       & Hsteps & _).
    rewrite Hfirst in Hsteps. destruct Hsteps as [_ Hrc'].
    rewrite Hstep in Hrc'. subst rc'.
    rewrite bool_decide_eq_true_2 in Hb by done. subst b. by eexists _, _, _.
  - destruct Hcall as (Hgt & _). lia.
Qed.
(** *** Relations kept by the wrapper's code *)

Section Keeps.
Variable R : World -> list call -> World -> Prop.
Hypothesis R_refl : forall w, R w [] w.
Hypothesis R_trans :
  forall w1 cs1 w2 cs2 w3, R w1 cs1 w2 -> R w2 cs2 w3 -> R w1 (cs1 ++ cs2) w3.

Lemma keeps_ret {A} (a : A) : keeps R (mret a).
Proof using R_refl.
  intros w. unfold_M. exists []. by rewrite app_nil_r.
Qed.

Lemma keeps_throw {A} (e : error) : keeps R (throw (A := A) e).
Proof using R_refl.
  intros w. unfold_M. exists []. by rewrite app_nil_r.
Qed.

Lemma keeps_gets {A} (f : World -> A) : keeps R (gets f).
Proof using R_refl.
  intros w. unfold_M. exists []. by rewrite app_nil_r.
Qed.

Lemma keeps_bind {A B} (m : M A) (k : A -> M B) :
  keeps R m -> (forall a, keeps R (k a)) -> keeps R (m ≫= k).
Proof using R_trans.
  intros Hm Hk w. specialize (Hm w). unfold mbind, M_bind.
  destruct (m w) as [a w1|e w1| |]; try done.
  specialize (Hk a w1). destruct Hm as (cs1 & Htr1 & HR1).
  destruct (k a w1) as [b w2|e w2| |]; try done;
    destruct Hk as (cs2 & Htr2 & HR2); exists (cs1 ++ cs2);
    (split; [by rewrite Htr2, Htr1, <- app_assoc|by eapply R_trans]).
Qed.

Lemma keeps_modify (f : World -> World) :
  (forall w, trace (f w) = trace w /\ R w [] (f w)) -> keeps R (modify f).
Proof using Type.
  intros Hf w. unfold_M. exists []. rewrite app_nil_r. apply Hf.
Qed.

Lemma keeps_run {A} (m : Eng A) :
  (forall w a e cs, m (engine w) = Some (a, e, cs) -> R w cs (engine_ran e cs w)) ->
  keeps R (run m).
Proof using Type.
  intros Hm w. unfold_M.
  destruct (m (engine w)) as [[[a e] cs]|] eqn:Hrun; [|done].
  exists cs. split; [done|]. by eapply Hm.
Qed.

End Keeps.

Ltac keeps_step Hrefl Htrans leaf :=
  first
    [ apply (keeps_ret _ Hrefl)
    | apply (keeps_throw _ Hrefl)
    | apply (keeps_gets _ Hrefl)
    | apply (keeps_bind _ Htrans); [|intros ?]
    | apply keeps_run; intros; solve [leaf]
    | apply keeps_modify; intros; split; [reflexivity|]; solve [leaf]
    | match goal with
      | |- keeps _ (match ?x with _ => _ end) => destruct x
      | |- keeps _ (if ?x then _ else _) => destruct x
      | |- keeps _ (fun _ => IllFormed) => by intros ?
      | |- keeps _ (fun _ => Undefined) => by intros ?
      end ].

Ltac keeps_with Hrefl Htrans leaf := repeat keeps_step Hrefl Htrans leaf.

(** *** Caches of other query strings *)

Lemma touches_only_refl (a : N) (w : World) : touches_only a w [] w.
Proof. by split. Qed.

Lemma touches_only_trans (a : N) (w1 : World) (cs1 : list call) (w2 : World)
    (cs2 : list call) (w3 : World) :
  touches_only a w1 cs1 w2 -> touches_only a w2 cs2 w3 ->
  touches_only a w1 (cs1 ++ cs2) w3.
Proof.
  intros [H1 D1] [H2 D2]. split.
  - intros b Hb. by rewrite H2, H1.
  - auto.
Qed.

Ltac touches_leaf :=
  split; simpl;
  [ intros; by rewrite ?lookup_insert_ne by done
  | intros; rewrite ?lookup_insert_eq; by eauto ].

Ltac touches a :=
  keeps_with (touches_only_refl a) (touches_only_trans a) touches_leaf.

Lemma connection_tls_touches (a : N) : keeps (touches_only a) connection_tls.
Proof.
  unfold connection_tls, Connection_ctor, configure_once. touches a.
Qed.

Lemma singleton_tls_touches (q : query_ref) :
  keeps (touches_only (q_addr q)) (singleton_tls q).
Proof.
  unfold singleton_tls, PreparedStmtCache_ctor.
  touches (q_addr q).
Qed.

Lemma get_tls_touches (q : query_ref) :
  keeps (touches_only (q_addr q)) (get_tls q).
Proof.
  unfold get_tls, internal_get.
  touches (q_addr q).
Qed.

Lemma put_tls_touches (q : query_ref) (s : sqlite3_stmt) :
  keeps (touches_only (q_addr q)) (put_tls q s).
Proof.
  unfold put_tls. touches (q_addr q); apply singleton_tls_touches.
Qed.

Lemma query_touches (depth : nat) (q : query_ref) (bind_args : list arg) :
  keeps (touches_only (q_addr q)) (query depth q bind_args).
Proof.
  revert bind_args. induction depth as [|depth IH]; intros bind_args; simpl.
  - by intros ?.
  - destruct (existsb _ bind_args); [apply IH|].
    unfold get_tls, internal_get. touches (q_addr q).
Qed.

Lemma QueryResult_dtor_touches (q : query_ref) (this : QueryResult) :
  put_cb this = Some (put_tls_addr q) ->
  keeps (touches_only (q_addr q)) (QueryResult_dtor this).
Proof.
  intros Hcb. unfold QueryResult_dtor. rewrite Hcb. simpl.
  unfold put_tls. touches (q_addr q).
Qed.

(** *** Several cursors at once *)

Lemma idle_internal_put (s : sqlite3_stmt) (c : PreparedStmtCache) :
  s ≠ nullptr -> idle_stmts (internal_put s c) ≡ₚ s :: idle_stmts c.
Proof.
  intros Hs. unfold internal_put, idle_stmts.
  destruct (decide (first_free_stmt c = nullptr)) as [Hnull|Hnn]; simpl.
  - rewrite Hnull. rewrite filter_cons_True by done.
    by rewrite (filter_cons_False _ nullptr) by (intros ?; done).
  - rewrite !filter_cons_True by done. rewrite filter_app.
    rewrite filter_cons_True, filter_nil by done.
    rewrite <- Permutation_cons_append. apply perm_swap.
Qed.

Lemma held_app (l1 l2 : list QueryResult) : held (l1 ++ l2) = held l1 ++ held l2.
Proof. unfold held. by rewrite map_app, filter_app. Qed.

Lemma held_length (live : list QueryResult) : length (held live) <= length live.
Proof.
  unfold held. etrans; [apply length_filter|]. by rewrite length_map.
Qed.

Lemma held_insert (live : list QueryResult) (i : nat) (r r' : QueryResult) :
  live !! i = Some r -> stmt r' = stmt r -> held (<[i := r']> live) = held live.
Proof.
  intros Hi Hst. unfold held. f_equal.
  change (map stmt) with (fmap (M := list) stmt).
  rewrite list_fmap_insert, Hst. apply list_insert_id.
  by rewrite list_lookup_fmap, Hi.
Qed.

Lemma held_delete (live : list QueryResult) (i : nat) (r : QueryResult) :
  live !! i = Some r ->
  held live ≡ₚ filter (fun s => s ≠ nullptr) [stmt r] ++ held (delete i live).
Proof.
  intros Hi. unfold held.
  rewrite (delete_Permutation live i r Hi) at 1. simpl.
  destruct (decide (stmt r ≠ nullptr)).
  - by rewrite !filter_cons_True by done.
  - by rewrite !filter_cons_False by done.
Qed.

Lemma cached_lookup (q : query_ref) (w w' : World) :
  singleton_tls_object w' !! q_addr q = singleton_tls_object w !! q_addr q ->
  cached q w' = cached q w.
Proof. intros Hq. unfold cached. by rewrite Hq. Qed.

Lemma step_op_inv (depth : nat) (q : query_ref) (op : cursor_op)
    (st st' : thread) :
  cursors_of q st -> op_on q op -> step_op depth op st = Some st' ->
  cursors_of q st'
  /\ exists cs,
       trace st'.2 = trace st.2 ++ cs
       /\ cached q st'.2 ++ held st'.1
          ≡ₚ cached q st.2 ++ held st.1 ++ prepared cs
       /\ touches_only (q_addr q) st.2 cs st'.2
       /\ length (cached q st'.2) + length (held st'.1)
          <= Nat.max (length (cached q st.2) + length (held st.1))
               (length st'.1).
Proof.
  destruct st as [live w]. intros [Hcbs Hcache] Hon Hstep.
  destruct op as [q' bind_args|i args|i]; simpl in *.
  - subst q'.
    pose proof (query_inv depth q bind_args w) as Hq.
    pose proof (query_touches depth q bind_args w) as Ht.
    destruct (query depth q bind_args w) as [r w'|e w'| |]; simplify_eq; simpl.
    + destruct Hq as (Hcb & _ & args' & c' & pre & binds & rc & _ & Hs & Hf
                      & Htr & _ & _ & Hbinds & _ & Hcase).
      destruct Ht as (cs & Htr' & Htouch).
      assert (cs = pre ++ binds ++ [call_step (stmt r) rc]) as ->.
      { rewrite Htr in Htr'. by apply app_inv_head in Htr'. }
      split.
      { split; simpl; [apply Forall_app; split; [done|by constructor]|].
        right. rewrite Hs, lookup_insert_eq. eauto. }
      eexists. split; [done|].
      assert (Hp : prepared (pre ++ binds ++ [call_step (stmt r) rc])
                   = prepared pre).
      { rewrite prepared_app.
        rewrite (prepared_none (fun c => is_bind c || is_step c)
                   (binds ++ [call_step (stmt r) rc])).
        - by rewrite app_nil_r.
        - by intros [].
        - rewrite forallb_app. simpl. rewrite andb_true_r.
          eapply forallb_weaken; [|done]. by intros c ->. }
      rewrite Hp, held_app.
      change (held [r]) with (filter (fun s => s ≠ nullptr) [stmt r]).
      pose proof (held_length live) as Hlen.
      assert (HF : length (filter (fun s => s ≠ nullptr) [stmt r]) <= 1).
      { rewrite filter_nonnull_singleton. destruct (decide _); simpl; lia. }
      rewrite !length_app. simpl.
      destruct Hcase as [(-> & _ & Hperm)|(_ & Hcw & Hcw' & Hprep)].
      * split; [|split; [done|]].
        -- unfold prepared. simpl. rewrite app_nil_r, Hperm.
           rewrite (Permutation_app_comm (filter _ [stmt r]) (cached q w')).
           by rewrite <- app_assoc, (Permutation_app_comm (held live)).
        -- rewrite Hperm, length_app. lia.
      * rewrite (prepared_prepare_last _ _ _ Hprep), Hcw, Hcw'.
        split; [|split; [done|simpl; lia]].
        rewrite filter_nonnull_singleton. simpl.
        destruct (decide (stmt r ≠ nullptr)).
        -- by rewrite decide_True by done.
        -- by rewrite decide_False by (intros [_ ?]; done).
    + destruct Hq as (_ & Hcw & Hcw' & _ & Hrc & cs & Htr & Hcase).
      destruct Ht as (cs' & Htr' & Htouch).
      assert (cs' = cs) as -> by (rewrite Htr in Htr'; by apply app_inv_head in Htr').
      split.
      { split; [done|]. destruct Hcache as [?|Hsome]; [by left|right].
        by apply Htouch. }
      exists cs. split; [done|].
      assert (Hp : prepared cs = []).
      { destruct Hcase as [Hfail|[s Hprep]].
        - by eapply prepared_connect_failed.
        - rewrite (prepared_prepare_last _ _ _ Hprep).
          by rewrite decide_False by (intros [? _]; done). }
      rewrite Hp, Hcw, Hcw', app_nil_r. simpl. split; [done|].
      split; [done|lia].
  - destruct (live !! i) as [r|] eqn:Hi; [|done].
    assert (Hfetch : exists bs r', fetch_rows depth r [args] w = Some (bs, r', st'.2)
                                   /\ st'.1 = <[i := r']> live).
    { simpl. destruct (operator_call depth r args w)
        as [b [[r' a'] w']|e [[r' a'] w']| |]; simplify_eq; simpl; eauto. }
    destruct Hfetch as (bs & r' & Hfetch & Hlive). destruct st' as [live' w'].
    simpl in *. subst live'.
    apply (fetch_rows_inv depth [args] r r' w w' bs) in Hfetch
      as (Hst & Hcb & Hs & cs & Htr & Hcs).
    split.
    { split; simpl.
      - apply Forall_insert; [done|].
        rewrite Hcb. by eapply (Forall_lookup_1 _ _ _ _ Hcbs Hi).
      - right. destruct Hcache as [->|Hsome]; [done|]. by rewrite Hs. }
    exists cs. split; [done|].
    rewrite (held_insert live i r r') by done.
    rewrite (prepared_none is_fetch cs); [|by intros []|done].
    rewrite app_nil_r, (cached_lookup q w w') by (by rewrite Hs).
    split; [done|]. split; [split; intros; by rewrite Hs|lia].
  - destruct (live !! i) as [r|] eqn:Hi; [|done].
    pose proof (Forall_lookup_1 _ _ _ _ Hcbs Hi) as Hcb. simpl in Hcb.
    pose proof (held_delete live i r Hi) as Hheld.
    assert (Hcbs' : Forall (fun r => put_cb r = Some (put_tls_addr q))
                      (delete i live)).
    { by apply Forall_delete. }
    destruct (decide (stmt r = nullptr)) as [Hnull|Hnn].
    + rewrite QueryResult_dtor_nullptr in Hstep by done. simplify_eq. simpl.
      split.
      { split; [done|]. destruct Hcache as [->|?]; [done|by right]. }
      exists []. rewrite !app_nil_r. split; [done|].
      rewrite Hheld, filter_nonnull_singleton.
      rewrite decide_False by (intros ?; done). simpl.
      split; [done|]. split; [apply touches_only_refl|lia].
    + destruct Hcache as [->|[c Hc]]; [done|].
      destruct (QueryResult_dtor_put q r c w Hnn Hcb Hc) as (w' & Hd & Hs & Htr).
      rewrite Hd in Hstep. simplify_eq. simpl.
      split.
      { split; simpl; [done|]. right. rewrite Hs, lookup_insert_eq. eauto. }
      eexists. split; [done|].
      assert (Hcached : cached q w' ≡ₚ stmt r :: cached q w).
      { erewrite cached_insert by done. unfold cached. rewrite Hc.
        by apply idle_internal_put. }
      simpl. rewrite app_nil_r.
      rewrite Hheld, filter_nonnull_singleton, decide_True by done.
      split; [rewrite Hcached; simpl; by rewrite Permutation_middle|].
      split.
      * split; [intros b Hb; by rewrite Hs, lookup_insert_ne|].
        intros _. rewrite Hs, lookup_insert_eq. eauto.
      * rewrite Hcached. simpl. lia.
Qed.

Lemma calls_since_app (w w' : World) (cs : list call) :
  trace w' = trace w ++ cs -> calls_since w w' = cs.
Proof. intros Htr. unfold calls_since. by rewrite Htr, drop_app_length. Qed.

Lemma peak_live_ge (depth : nat) (ops : list cursor_op) (st : thread) :
  length st.1 <= peak_live depth ops st.
Proof.
  destruct ops as [|op rest]; simpl; [done|].
  destruct (step_op depth op st); lia.
Qed.

Lemma run_ops_inv (depth : nat) (q : query_ref) (ops : list cursor_op)
    (st st' : thread) :
  cursors_of q st -> Forall (op_on q) ops -> run_ops depth ops st = Some st' ->
  cursors_of q st'
  /\ exists cs,
       trace st'.2 = trace st.2 ++ cs
       /\ cached q st'.2 ++ held st'.1
          ≡ₚ cached q st.2 ++ held st.1 ++ prepared cs
       /\ touches_only (q_addr q) st.2 cs st'.2
       /\ length (cached q st'.2) + length (held st'.1)
          <= Nat.max (length (cached q st.2) + length (held st.1))
               (peak_live depth ops st).
Proof.
  intros Hinv Hon. revert st Hinv.
  induction Hon as [|op rest Hop Hrest IH]; intros st Hinv Hrun; simpl in *.
  - simplify_eq. split; [done|]. exists []. rewrite !app_nil_r.
    split; [done|]. split; [done|]. split; [apply touches_only_refl|lia].
  - destruct (step_op depth op st) as [st1|] eqn:Hstep; [|done].
    destruct (step_op_inv depth q op st st1 Hinv Hop Hstep)
      as (Hinv1 & cs1 & Htr1 & Hperm1 & Ht1 & Hpool1).
    destruct (IH st1 Hinv1 Hrun) as (Hinv' & cs2 & Htr2 & Hperm2 & Ht2 & Hpool2).
    split; [done|]. exists (cs1 ++ cs2).
    split; [by rewrite Htr2, Htr1, <- app_assoc|].
    split; [rewrite Hperm2, prepared_app, (app_assoc _ _ (prepared cs1 ++ _)),
              (app_assoc _ (prepared cs1)), <- (app_assoc (cached q st.2));
            by rewrite <- Hperm1, <- !app_assoc|].
    split; [by eapply touches_only_trans|].
    pose proof (peak_live_ge depth rest st1). lia.
Qed.

Lemma cursors_of_none (q : query_ref) (w : World) : cursors_of q ([], w).
Proof. split; [constructor|by left]. Qed.

(** X1: while a thread calls [query()] for one query string, steps and
    destroys cursors in any order, several cursors being live at once, the
    statements idle in the cache together with those that live cursors
    hold are those that were idle at the start together with those
    prepared since, each as often: none is lost and none is added. *)
Theorem statements_conserved (depth : nat) (q : query_ref)
    (ops : list cursor_op) (w w' : World) (live' : list QueryResult) :
  Forall (op_on q) ops ->
  run_ops depth ops ([], w) = Some (live', w') ->
  cached q w' ++ held live' ≡ₚ cached q w ++ prepared (calls_since w w').
Proof.
  intros Hon Hrun.
  destruct (run_ops_inv depth q ops _ _ (cursors_of_none q w) Hon Hrun)
    as (_ & cs & Htr & Hperm & _). simpl in *.
  by rewrite (calls_since_app w w' cs).
Qed.


(** X3: when the engine gave a new handle for every statement it
    prepared, no statement is idle in the cache while a cursor holds it,
    and no two live cursors hold the same statement. *)
Theorem statement_not_shared (depth : nat) (q : query_ref)
    (ops : list cursor_op) (w w' : World) (live' : list QueryResult) :
  Forall (op_on q) ops ->
  run_ops depth ops ([], w) = Some (live', w') ->
  NoDup (cached q w ++ prepared (calls_since w w')) ->
  NoDup (cached q w' ++ held live')
  /\ (forall s, s ∈ cached q w' -> s ∉ held live').
Proof.
  intros Hon Hrun Hfresh.
  destruct (run_ops_inv depth q ops _ _ (cursors_of_none q w) Hon Hrun)
    as (_ & cs & Htr & Hperm & _). simpl in *.
  rewrite (calls_since_app w w' cs) in Hfresh by done.
  rewrite <- Hperm in Hfresh. split; [done|].
  apply NoDup_app in Hfresh as (_ & Hdisj & _). done.
Qed.

(** X4: the cursors of one query string leave the caches of all other
    query strings as they were. *)
Theorem other_caches_untouched (depth : nat) (q : query_ref)
    (ops : list cursor_op) (w w' : World) (live' : list QueryResult) (b : N) :
  Forall (op_on q) ops ->
  run_ops depth ops ([], w) = Some (live', w') ->
  b ≠ q_addr q ->
  singleton_tls_object w' !! b = singleton_tls_object w !! b.
Proof.
  intros Hon Hrun Hb.
  destruct (run_ops_inv depth q ops _ _ (cursors_of_none q w) Hon Hrun)
    as (_ & cs & _ & _ & [Hother _] & _). simpl in *.
  by apply Hother.
Qed.

(** X5: a cursor that [query()] made, stepped or not, while other cursors
    of its query string came and went, can be destroyed: the destructor
    returns, and when the cursor holds a statement its calls are
    [sqlite3_clear_bindings] and then [sqlite3_reset] on it, nothing else,
    after which the statement is idle in the cache of its query string. *)
Theorem destructor_checks_in (depth : nat) (q : query_ref)
    (ops : list cursor_op) (w w' : World) (live' : list QueryResult)
    (i : nat) (r : QueryResult) :
  Forall (op_on q) ops ->
  run_ops depth ops ([], w) = Some (live', w') ->
  live' !! i = Some r ->
  exists w'',
    QueryResult_dtor r w' = Return tt w''
    /\ calls_since w' w''
       = (if decide (stmt r = nullptr) then []
          else [call_clear_bindings (stmt r); call_reset (stmt r)])
    /\ cached q w'' ≡ₚ filter (fun s => s ≠ nullptr) [stmt r] ++ cached q w'.
Proof.
  intros Hon Hrun Hi.
  destruct (run_ops_inv depth q ops _ _ (cursors_of_none q w) Hon Hrun)
    as ([Hcbs Hcache] & _). simpl in *.
  pose proof (Forall_lookup_1 _ _ _ _ Hcbs Hi) as Hcb. simpl in Hcb.
  rewrite filter_nonnull_singleton.
  destruct (decide (stmt r = nullptr)) as [Hnull|Hnn].
  - exists w'. rewrite QueryResult_dtor_nullptr by done.
    rewrite decide_False by (intros ?; done).
    split; [done|]. split; [|done].
    apply calls_since_app. by rewrite app_nil_r.
  - destruct Hcache as [->|[c Hc]]; [done|].
    destruct (QueryResult_dtor_put q r c w' Hnn Hcb Hc) as (w'' & Hd & Hs & Htr).
    exists w''. split; [done|]. split; [by apply calls_since_app|].
    rewrite decide_True by done.
    erewrite cached_insert by done. unfold cached. rewrite Hc.
    by apply idle_internal_put.
Qed.

(** *** One connection, configured once *)

Lemma no_setup_observed (cs : list call) :
  forallb (fun c => negb (is_setup c)) cs = true ->
  opened cs = [] /\ opens_named cs = [] /\ busy_handlers cs = []
  /\ hooked cs = [] /\ configs cs = [] /\ config_first cs.
Proof.
  induction cs as [|c cs IH]; [done|]. simpl.
  intros [Hc Hcs]%andb_prop. destruct (IH Hcs) as (H1 & H2 & H3 & H4 & H5 & H6).
  unfold opened, opens_named, busy_handlers, hooked, configs in *. simpl.
  rewrite H1, H2, H3, H4, H5. by destruct c.
Qed.

Lemma config_first_app (cs1 cs2 : list call) :
  config_first cs1 -> config_first cs2 ->
  opens_named cs1 = [] \/ configs cs2 = [] ->
  config_first (cs1 ++ cs2).
Proof.
  induction cs1 as [|c cs1 IH]; [done|]. simpl.
  intros [Hc H1] H2 Hor. split.
  - intros Hopen. unfold configs in *. rewrite omap_app, (Hc Hopen). simpl.
    destruct Hor as [Hno|Hno]; [by destruct c|done].
  - apply IH; [done|done|]. destruct Hor as [Hno|?]; [left|by right].
    unfold opens_named in *. simpl in Hno. by destruct c.
Qed.

Lemma config_first_split (cs pre post : list call) :
  config_first cs -> cs = pre ++ post ->
  opens_named pre = [] \/ configs post = [].
Proof.
  revert cs. induction pre as [|c pre IH]; intros cs Hcs ->; [by left|].
  simpl in Hcs. destruct Hcs as [Hc Hrest].
  destruct (is_open c) eqn:Hopen.
  - right. specialize (Hc eq_refl). unfold configs in *.
    rewrite omap_app in Hc. by apply app_eq_nil in Hc as [_ ?].
  - destruct (IH _ Hrest eq_refl) as [Hno|?]; [left|by right].
    unfold opens_named in *. simpl. by destruct c.
Qed.

Lemma one_connection_refl (w : World) : one_connection w [] w.
Proof.
  unfold one_connection, connection_of. simpl. split_and!; try done.
  - intros Hnone. by rewrite Hnone.
  - by destruct post_connection_hook.
  - by destruct (sqlite3_configured w).
Qed.

Lemma one_connection_trans (w1 : World) (cs1 : list call) (w2 : World)
    (cs2 : list call) (w3 : World) :
  one_connection w1 cs1 w2 -> one_connection w2 cs2 w3 ->
  one_connection w1 (cs1 ++ cs2) w3.
Proof.
  intros (A1 & B1 & C1 & D1 & E1 & F1 & G1 & H1 & I1)
         (A2 & B2 & C2 & D2 & E2 & F2 & G2 & H2 & I2).
  assert (Happ : opened (cs1 ++ cs2) = opened cs1 ++ opened cs2)
    by apply omap_app.
  assert (Hnames : opens_named (cs1 ++ cs2) = opens_named cs1 ++ opens_named cs2)
    by apply omap_app.
  assert (Hconfigs : configs (cs1 ++ cs2) = configs cs1 ++ configs cs2)
    by apply omap_app.
  unfold one_connection. split_and!.
  - intros c Hc. destruct (A1 c Hc) as (Hc2 & Hn1 & Hk1).
    destruct (A2 c Hc2) as (Hc3 & Hn2 & Hk2).
    split; [done|]. split; [by rewrite forallb_app, Hn1, Hn2|congruence].
  - intros Hnone. rewrite Happ, (B1 Hnone).
    unfold connection_of at 1.
    pose proof A2 as A2'. pose proof B2 as B2'.
    destruct (connection_tls_object w2) as [c|] eqn:Hc2.
    + destruct (A2' c eq_refl) as (Hc3 & Hn2 & _).
      destruct (no_setup_observed cs2 Hn2) as (-> & _).
      unfold connection_of. by rewrite Hc3.
    + simpl. by apply B2'.
  - unfold busy_handlers in *. by rewrite omap_app, C1, C2, Happ.
  - unfold hooked in *. rewrite omap_app, D1, D2, Happ.
    by destruct post_connection_hook.
  - rewrite Hnames. by apply Forall_app.
  - rewrite Hconfigs, F1, F2.
    destruct (sqlite3_configured w1), (sqlite3_configured w2) eqn:Hk2,
      (sqlite3_configured w3) eqn:Hk3; try done.
    + by specialize (H1 eq_refl).
    + by specialize (H2 eq_refl).
  - apply config_first_app; [done|done|].
    destruct (opens_named cs1) as [|n ns] eqn:Hn; [by left|right].
    rewrite F2, I1; done.
  - auto.
  - rewrite Hnames. intros Hne.
    destruct (opens_named cs1) as [|n ns] eqn:Hn; [by apply I2|].
    apply H2, I1. done.
Qed.

Lemma one_connection_engine (w : World) (e : engine_state) (cs : list call) :
  forallb (fun c => negb (is_setup c)) cs = true ->
  one_connection w cs (engine_ran e cs w).
Proof.
  intros Hcs.
  destruct (no_setup_observed cs Hcs) as (H1 & H2 & H3 & H4 & H5 & H6).
  unfold one_connection, connection_of. simpl.
  rewrite H1, H2, H3, H4, H5. split_and!; try done.
  - intros Hnone. by rewrite Hnone.
  - by destruct post_connection_hook.
  - by destruct (sqlite3_configured w).
Qed.

Lemma one_connection_singleton (q : query_ref) (c : PreparedStmtCache) (w : World) :
  one_connection w [] (set_singleton q c w).
Proof.
  unfold one_connection, connection_of. simpl. split_and!; try done.
  - intros Hnone. by rewrite Hnone.
  - by destruct post_connection_hook.
  - by destruct (sqlite3_configured w).
Qed.

Lemma connection_tls_one_connection : keeps one_connection connection_tls.
Proof.
  intros w. unfold connection_tls, Connection_ctor, configure_once.
  unfold_M. unfold_Eng.
  destruct (connection_tls_object w) as [c|] eqn:Hconn.
  { exists []. rewrite app_nil_r. split; [done|]. apply one_connection_refl. }
  destruct (sqlite3_configured w) eqn:Hk; simpl;
    destruct (sqlite3_open _ _) as [[rc db] e1] eqn:Hopen; simpl;
    (destruct (decide (rc ≠ SQLITE_OK)) as [Hrc|Hrc]; simpl;
     [|apply dec_stable in Hrc; subst rc;
       destruct post_connection_hook eqn:Hhook; simpl]);
    eexists; rewrite <- ?app_assoc; (split; [reflexivity|]);
    unfold one_connection, connection_of, opened, opens_named, busy_handlers,
      hooked, configs; simpl; rewrite ?Hconn, ?Hk, ?Hhook; simpl;
    rewrite ?decide_True by done; rewrite ?decide_False by done;
    split_and!; try done; repeat constructor; try done.
  all: by destruct post_connection_hook.
Qed.

Ltac connection_leaf :=
  first
    [ apply one_connection_singleton
    | apply one_connection_engine;
      match goal with
      | H : bind_all _ _ _ _ = Some _ |- _ =>
          apply bind_all_spec in H as (_ & _ & H & _);
          eapply forallb_weaken; [|exact H]; by intros []
      | H : _ = Some _ |- _ =>
          unfold QueryResult_ctor in H; unfold_Eng;
          repeat match type of H with
                 | context [let '(_, _) := ?x in _] => destruct x
                 end; by simplify_eq
      end ].

Ltac connection_kept :=
  repeat first
    [ apply connection_tls_one_connection
    | keeps_step one_connection_refl one_connection_trans connection_leaf ].

Lemma get_tls_one_connection (q : query_ref) : keeps one_connection (get_tls q).
Proof.
  unfold get_tls, singleton_tls, PreparedStmtCache_ctor, internal_get.
  connection_kept.
Qed.

Lemma put_tls_one_connection (q : query_ref) (s : sqlite3_stmt) :
  keeps one_connection (put_tls q s).
Proof.
  unfold put_tls, singleton_tls, PreparedStmtCache_ctor. connection_kept.
Qed.

Lemma query_one_connection (depth : nat) (q : query_ref) (bind_args : list arg) :
  keeps one_connection (query depth q bind_args).
Proof.
  revert bind_args. induction depth as [|depth IH]; intros bind_args; simpl.
  - by intros ?.
  - destruct (existsb _ bind_args); [apply IH|].
    destruct (forallb _ bind_args); [|by intros ?].
    apply (keeps_bind _ one_connection_trans); [apply get_tls_one_connection|].
    intros s. connection_kept.
Qed.

Lemma QueryResult_dtor_one_connection (this : QueryResult) :
  keeps one_connection (QueryResult_dtor this).
Proof.
  unfold QueryResult_dtor.
  destruct (decide _); [apply (keeps_ret _ one_connection_refl)|].
  destruct (put_cb this) as [[q]|]; simpl.
  - unfold put_tls, singleton_tls, PreparedStmtCache_ctor. connection_kept.
  - connection_kept.
Qed.

Lemma engine_ran_twice (e1 e2 : engine_state) (cs1 cs2 : list call) (w : World) :
  engine_ran e2 cs2 (engine_ran e1 cs1 w) = engine_ran e2 (cs1 ++ cs2) w.
Proof. unfold engine_ran. simpl. by rewrite app_assoc. Qed.

Lemma operator_call_world (depth : nat) (this : QueryResult) (args : list arg)
    (w : World) :
  match operator_call depth this args w with
  | Return _ (_, _, w') | Throw _ (_, _, w') =>
      exists e cs, w' = engine_ran e cs w /\ forallb is_fetch cs = true
  | _ => True
  end.
Proof.
  unfold operator_call.
  destruct (negb (forallb _ _)); [done|].
  destruct (decide _); [by eexists _, _|].
  destruct (negb (first_invocation this)).
  - destruct (sqlite3_step _ _) as [rc e1] eqn:Hstep. simpl.
    destruct (decide _).
    + eexists _, _. by rewrite engine_ran_twice.
    + destruct (column_all _ _ _ _ _) as [[[args' e2] cs]|] eqn:Hcols; [|done].
      apply column_all_reads in Hcols as [Hcs _].
      eexists _, _. rewrite !engine_ran_twice. split; [done|]. simpl.
      eapply forallb_weaken; [|done]. by intros [].
  - destruct (ret this) as [rc|]; [|done]. destruct (decide _).
    + by eexists _, _.
    + destruct (column_all _ _ _ _ _) as [[[args' e2] cs]|] eqn:Hcols; [|done].
      apply column_all_reads in Hcols as [Hcs _].
      eexists _, _. rewrite !engine_ran_twice. split; [done|]. simpl.
      eapply forallb_weaken; [|done]. by intros [].
Qed.

Section Lifting.
Variable R : World -> list call -> World -> Prop.
Variable Q : query_ref -> Prop.
Variable depth : nat.
Hypothesis R_refl : forall w, R w [] w.
Hypothesis R_trans :
  forall w1 cs1 w2 cs2 w3, R w1 cs1 w2 -> R w2 cs2 w3 -> R w1 (cs1 ++ cs2) w3.
Hypothesis R_query :
  forall q bind_args, Q q -> keeps R (query depth q bind_args).
Hypothesis R_fetch :
  forall w e cs, forallb is_fetch cs = true -> R w cs (engine_ran e cs w).
Hypothesis R_dtor : forall this, keeps R (QueryResult_dtor this).

Lemma step_op_keeps (op : cursor_op) (st st' : thread) :
  queries Q op ->
  step_op depth op st = Some st' ->
  exists cs, trace st'.2 = trace st.2 ++ cs /\ R st.2 cs st'.2.
Proof using R_query R_fetch R_dtor.
  destruct st as [live w]. destruct op as [q bind_args|i args|i]; simpl; intros HQ.
  - pose proof (R_query q bind_args HQ w) as Hq.
    destruct (query depth q bind_args w); intros; by simplify_eq.
  - destruct (live !! i) as [r|]; [|done].
    pose proof (operator_call_world depth r args w) as Hcall.
    destruct (operator_call depth r args w) as [b [[r' a'] w']|e [[r' a'] w']| |];
      intros; simplify_eq; destruct Hcall as (e1 & cs & -> & Hcs);
      exists cs; (split; [done|]); by apply R_fetch.
  - destruct (live !! i) as [r|]; [|done].
    pose proof (R_dtor r w) as Hd.
    destruct (QueryResult_dtor r w); intros; by simplify_eq.
Qed.

Lemma run_ops_keeps (ops : list cursor_op) (st st' : thread) :
  Forall (queries Q) ops ->
  run_ops depth ops st = Some st' ->
  exists cs, trace st'.2 = trace st.2 ++ cs /\ R st.2 cs st'.2.
Proof using R_refl R_trans R_query R_fetch R_dtor.
  revert st. induction ops as [|op ops IH]; intros st Hops Hrun; simpl in Hrun.
  - simplify_eq. exists []. by rewrite app_nil_r.
  - apply Forall_cons in Hops as [Hop Hops].
    destruct (step_op depth op st) as [st1|] eqn:Hstep; [|done].
    apply step_op_keeps in Hstep as (cs1 & Htr1 & H1); [|done].
    apply IH in Hrun as (cs2 & Htr2 & H2); [|done].
    exists (cs1 ++ cs2). split; [by rewrite Htr2, Htr1, app_assoc|].
    by eapply R_trans.
Qed.

End Lifting.

Lemma queries_any (ops : list cursor_op) : Forall (queries (fun _ => True)) ops.
Proof. apply Forall_forall. by intros []. Qed.

Lemma run_ops_one_connection (depth : nat) (ops : list cursor_op)
    (st st' : thread) :
  run_ops depth ops st = Some st' ->
  exists cs, trace st'.2 = trace st.2 ++ cs /\ one_connection st.2 cs st'.2.
Proof.
  apply (run_ops_keeps one_connection (fun _ => True)).
  - apply one_connection_refl.
  - apply one_connection_trans.
  - intros. apply query_one_connection.
  - intros w e cs Hcs. apply one_connection_engine.
    eapply forallb_weaken; [|done]. by intros [].
  - apply QueryResult_dtor_one_connection.
  - apply queries_any.
Qed.

(** X6: whatever a thread that has no connection does with its cursors,
    for whichever query strings, the handle of the connection it has
    afterwards is the only one that a [sqlite3_open] gave with
    [SQLITE_OK] (none, if it still has no connection); the busy handler was
    installed on that handle and on no other, the hook, if there is one,
    ran on that handle and on no other, and every [sqlite3_open] named the
    database. *)
Theorem one_connection_per_thread (depth : nat) (ops : list cursor_op)
    (live live' : list QueryResult) (w w' : World) :
  connection_tls_object w = None ->
  run_ops depth ops (live, w) = Some (live', w') ->
  opened (calls_since w w') = connection_of w'
  /\ busy_handlers (calls_since w w') = connection_of w'
  /\ hooked (calls_since w w')
     = match post_connection_hook with
       | Some _ => connection_of w'
       | None => []
       end
  /\ Forall (fun name => name = maybe_invoke db_name)
       (opens_named (calls_since w w')).
Proof.
  intros Hnone Hrun.
  apply run_ops_one_connection in Hrun as (cs & Htr & HR). simpl in *.
  rewrite (calls_since_app w w' cs) by done.
  destruct HR as (_ & B & C & D & E & _).
  rewrite C, D, (B Hnone). by split_and!.
Qed.

(** X7: SQLite is configured at most once, by [SQLITE_CONFIG_MULTITHREAD]
    and then [SQLITE_CONFIG_LOG], not again after a [sqlite3_open] that
    failed, and never after a [sqlite3_open]; a thread that has its
    connection calls neither [sqlite3_config] nor [sqlite3_open]. *)
Theorem configured_once_before_open (depth : nat) (ops : list cursor_op)
    (live live' : list QueryResult) (w w' : World) :
  run_ops depth ops (live, w) = Some (live', w') ->
  configs (calls_since w w')
  = (if sqlite3_configured w then []
     else if sqlite3_configured w'
          then [SQLITE_CONFIG_MULTITHREAD; SQLITE_CONFIG_LOG] else [])
  /\ (opens_named (calls_since w w') ≠ [] -> sqlite3_configured w' = true)
  /\ (forall pre post,
        calls_since w w' = pre ++ post ->
        opens_named pre = [] \/ configs post = [])
  /\ (is_Some (connection_tls_object w) ->
      configs (calls_since w w') = [] /\ opens_named (calls_since w w') = []).
Proof.
  intros Hrun.
  apply run_ops_one_connection in Hrun as (cs & Htr & HR). simpl in *.
  rewrite (calls_since_app w w' cs) by done.
  destruct HR as (A & _ & _ & _ & _ & F & G & _ & I).
  split_and!; try done.
  - intros pre post. by apply config_first_split.
  - intros [c Hc]. destruct (A c Hc) as (_ & Hno & _).
    by destruct (no_setup_observed cs Hno) as (_ & ? & _ & _ & ? & _).
Qed.

(** *** What statements are prepared on *)

Lemma prepares_on_connection_refl (q : query_ref) (w : World) :
  prepares_on_connection q w [] w.
Proof. by intros Hinv. Qed.

Lemma prepare_for_later (q : query_ref) (w w' : World) (c : call) :
  (forall conn, connection_tls_object w = Some conn ->
                connection_tls_object w' = Some conn) ->
  prepare_for q w c -> prepare_for q w' c.
Proof.
  intros Hkeep. destruct c; try done. simpl. intros (Hdb & Hrest).
  split; [|done]. unfold connection_of in *.
  destruct (connection_tls_object w) as [conn|]; [|done].
  by rewrite (Hkeep conn eq_refl).
Qed.

Lemma prepares_on_connection_trans (q : query_ref) (w1 : World)
    (cs1 : list call) (w2 : World) (cs2 : list call) (w3 : World) :
  prepares_on_connection q w1 cs1 w2 -> prepares_on_connection q w2 cs2 w3 ->
  prepares_on_connection q w1 (cs1 ++ cs2) w3.
Proof.
  intros H1 H2 Hinv. destruct (H1 Hinv) as (Hinv2 & Hk1 & Hp1).
  destruct (H2 Hinv2) as (Hinv3 & Hk2 & Hp2).
  split; [done|]. split; [by auto|].
  apply Forall_app. split; [|done].
  eapply Forall_impl; [done|]. intros c. by apply prepare_for_later.
Qed.

Lemma prepares_on_connection_engine (q : query_ref) (w : World)
    (e : engine_state) (cs : list call) :
  forallb (fun c => negb (is_prepare c)) cs = true ->
  prepares_on_connection q w cs (engine_ran e cs w).
Proof.
  intros Hcs Hinv. split; [done|]. split; [done|].
  induction cs as [|c cs IH]; [done|]. simpl in Hcs.
  apply andb_prop in Hcs as [Hc Hcs]. constructor; [by destruct c|].
  eapply Forall_impl; [by apply IH|]. intros c'. by apply prepare_for_later.
Qed.

Lemma singleton_tls_prepares (q q' : query_ref) (w : World) :
  match singleton_tls q' w with
  | Return c w' =>
      singleton_tls_object w' !! q_addr q' = Some c
      /\ exists cs, trace w' = trace w ++ cs /\ prepares_on_connection q w cs w'
  | Throw _ w' =>
      exists cs, trace w' = trace w ++ cs /\ prepares_on_connection q w cs w'
  | _ => True
  end.
Proof.
  unfold singleton_tls, PreparedStmtCache_ctor, connection_tls, Connection_ctor,
    configure_once.
  unfold_M. unfold_Eng.
  destruct (singleton_tls_object w !! q_addr q') as [c|] eqn:Hq.
  { split; [done|]. exists []. rewrite app_nil_r. split; [done|].
    apply prepares_on_connection_refl. }
  destruct (connection_tls_object w) as [conn|] eqn:Hconn.
  { simpl. rewrite lookup_insert_eq. split; [done|].
    exists []. rewrite app_nil_r. split; [done|].
    intros Hinv. split; [|by split; [simpl|]].
    intros a c. simpl. destruct (decide (a = q_addr q')) as [->|Hne].
    - rewrite lookup_insert_eq. intros [= <-]. eauto.
    - rewrite lookup_insert_ne by done. apply Hinv. }
  assert (Hnone : caches_on_connection w -> singleton_tls_object w = ∅).
  { intros Hinv. apply map_empty. intros a.
    destruct (singleton_tls_object w !! a) as [c|] eqn:Ha; [|done].
    destruct (Hinv a c Ha) as (conn & Hsome & _). congruence. }
  destruct (sqlite3_configured w) eqn:Hk; simpl;
    destruct (sqlite3_open _ _) as [[rc db] e1] eqn:Hopen; simpl;
    (destruct (decide (rc ≠ SQLITE_OK)) as [Hrc|Hrc]; simpl;
     [|apply dec_stable in Hrc; subst rc;
       destruct post_connection_hook eqn:Hhook; simpl;
       (split; [by rewrite lookup_insert_eq|])]);
    eexists; rewrite <- ?app_assoc; (split; [reflexivity|]);
    intros Hinv; specialize (Hnone Hinv);
    (split; [|split; [by rewrite ?Hconn|by repeat constructor]]);
    intros a c; simpl; rewrite Hnone;
    try (destruct (decide (a = q_addr q')) as [->|Hne];
         [rewrite lookup_insert_eq; intros [= <-]; by eauto
         |rewrite lookup_insert_ne by done]);
    by rewrite lookup_empty.
Qed.

Lemma get_tls_prepares (q : query_ref) :
  keeps (prepares_on_connection q) (get_tls q).
Proof.
  intros w. unfold get_tls. unfold mbind at 1. unfold M_bind.
  pose proof (singleton_tls_prepares q q w) as Hs.
  destruct (singleton_tls q w) as [c w1|e w1| |]; [|done..].
  destruct Hs as (Hc & cs1 & Htr1 & HR1).
  assert (Hput : forall c', cache_db_handle c' = cache_db_handle c ->
            prepares_on_connection q w1 [] (set_singleton q c' w1)).
  { intros c' Hdb Hinv. split; [|by split].
    intros a c0. simpl. destruct (decide (a = q_addr q)) as [->|Hne].
    - rewrite lookup_insert_eq. intros [= <-]. rewrite Hdb. by apply Hinv in Hc.
    - rewrite lookup_insert_ne by done. apply Hinv. }
  unfold internal_get.
  destruct (decide (first_free_stmt c ≠ nullptr)).
  { unfold_M. simpl. exists cs1. split; [done|].
    rewrite <- (app_nil_r cs1). eapply prepares_on_connection_trans; [done|].
    by apply Hput. }
  destruct (last (other_free_stmts c)) as [s|].
  { unfold_M. simpl. exists cs1. split; [done|].
    rewrite <- (app_nil_r cs1). eapply prepares_on_connection_trans; [done|].
    by apply Hput. }
  unfold_M. unfold_Eng.
  destruct (sqlite3_prepare_v3 _ _ _ _ _) as [[rc s] e1] eqn:Hprep. simpl.
  assert (HR : prepares_on_connection q w1
                 [call_prepare_v3 (cache_db_handle c) (maybe_invoke (q_thing q))
                    (Z.of_nat (String.length (maybe_invoke (q_thing q))) + 1)
                    SQLITE_PREPARE_PERSISTENT rc s]
                 (engine_ran e1
                    [call_prepare_v3 (cache_db_handle c) (maybe_invoke (q_thing q))
                       (Z.of_nat (String.length (maybe_invoke (q_thing q))) + 1)
                       SQLITE_PREPARE_PERSISTENT rc s] w1)).
  { intros Hinv. split; [done|]. split; [done|].
    constructor; [|done]. simpl. split; [|done].
    destruct (Hinv _ _ Hc) as (conn & Hconn & Hdb).
    unfold connection_of. simpl. by rewrite Hconn, Hdb. }
  destruct (decide (rc ≠ SQLITE_OK)); simpl.
  - eexists. rewrite Htr1, <- app_assoc. split; [done|].
    by eapply prepares_on_connection_trans.
  - eexists. rewrite Htr1, <- app_assoc. split; [done|].
    eapply prepares_on_connection_trans; [done|].
    rewrite <- (app_nil_r [_]). eapply prepares_on_connection_trans; [done|].
    intros Hinv. split; [|by split].
    intros a c0. simpl. destruct (decide (a = q_addr q)) as [->|Hne].
    + rewrite lookup_insert_eq. intros [= <-]. by apply (Hinv (q_addr q)).
    + rewrite lookup_insert_ne by done. apply Hinv.
Qed.

Lemma put_tls_prepares (q q' : query_ref) (s : sqlite3_stmt) :
  keeps (prepares_on_connection q) (put_tls q' s).
Proof.
  intros w. unfold put_tls. unfold mbind, M_bind.
  pose proof (singleton_tls_prepares q q' w) as Hs.
  destruct (singleton_tls q' w) as [c w1|e w1| |]; [|done..].
  destruct Hs as (Hc & cs1 & Htr1 & HR1).
  unfold_M. simpl. exists cs1. split; [done|].
  rewrite <- (app_nil_r cs1). eapply prepares_on_connection_trans; [done|].
  intros Hinv. split; [|by split].
  intros a c0. simpl. destruct (decide (a = q_addr q')) as [->|Hne].
  - rewrite lookup_insert_eq. intros [= <-].
    destruct (Hinv _ _ Hc) as (conn & Hconn & Hdb). exists conn.
    split; [done|]. rewrite <- Hdb. unfold internal_put. by destruct (decide _).
  - rewrite lookup_insert_ne by done. apply Hinv.
Qed.

Ltac prepares_leaf q :=
  apply (prepares_on_connection_engine q);
  match goal with
  | H : bind_all _ _ _ _ = Some _ |- _ =>
      apply bind_all_spec in H as (_ & _ & H & _);
      eapply forallb_weaken; [|exact H]; by intros []
  | H : _ = Some _ |- _ =>
      unfold QueryResult_ctor in H; unfold_Eng;
      repeat match type of H with
             | context [let '(_, _) := ?x in _] => destruct x
             end; by simplify_eq
  end.

Ltac prepares_kept q :=
  repeat first
    [ apply get_tls_prepares
    | apply put_tls_prepares
    | keeps_step (prepares_on_connection_refl q)
        (prepares_on_connection_trans q) ltac:(prepares_leaf q) ].

Lemma query_prepares (depth : nat) (q : query_ref) (bind_args : list arg) :
  keeps (prepares_on_connection q) (query depth q bind_args).
Proof.
  revert bind_args. induction depth as [|depth IH]; intros bind_args; simpl.
  - by intros ?.
  - destruct (existsb _ bind_args); [apply IH|]. prepares_kept q.
Qed.

Lemma QueryResult_dtor_prepares (q : query_ref) (this : QueryResult) :
  keeps (prepares_on_connection q) (QueryResult_dtor this).
Proof.
  unfold QueryResult_dtor.
  destruct (decide _); [apply (keeps_ret _ (prepares_on_connection_refl q))|].
  destruct (put_cb this) as [[q']|]; simpl; prepares_kept q.
Qed.

(** X8: every [sqlite3_prepare_v3] that the cursors of one query string
    cause is on the handle of the thread's connection, for the text of the
    query string with the zero that ends it counted in [nByte], and with
    [SQLITE_PREPARE_PERSISTENT]; the thread keeps the connection it has. *)
Theorem prepare_on_own_connection (depth : nat) (q : query_ref)
    (ops : list cursor_op) (live live' : list QueryResult) (w w' : World) :
  caches_on_connection w ->
  Forall (op_on q) ops ->
  run_ops depth ops (live, w) = Some (live', w') ->
  caches_on_connection w'
  /\ (forall c, connection_tls_object w = Some c ->
                connection_tls_object w' = Some c)
  /\ forall db sql nbyte flags rc s,
       call_prepare_v3 db sql nbyte flags rc s ∈ calls_since w w' ->
       connection_tls_object w' = Some {| db_handle := db |}
       /\ sql = maybe_invoke (q_thing q)
       /\ nbyte = (Z.of_nat (String.length sql) + 1)%Z
       /\ flags = SQLITE_PREPARE_PERSISTENT.
Proof.
  intros Hinv Hon Hrun.
  apply (run_ops_keeps (prepares_on_connection q) (fun q' => q' = q)) in Hrun
    as (cs & Htr & HR); simpl in *.
  - rewrite (calls_since_app w w' cs) by done.
    destruct (HR Hinv) as (Hinv' & Hkeep & Hcs).
    split; [done|]. split; [done|].
    intros db sql nbyte flags rc s Hin.
    apply Forall_forall with (x := call_prepare_v3 db sql nbyte flags rc s) in Hcs;
      [|done].
    destruct Hcs as (Hdb & Hrest). split; [|done].
    unfold connection_of in Hdb.
    destruct (connection_tls_object w') as [[db']|]; by simplify_eq.
  - apply prepares_on_connection_refl.
  - apply prepares_on_connection_trans.
  - intros q' bind_args ->. apply query_prepares.
  - intros w0 e cs Hcs. apply prepares_on_connection_engine.
    eapply forallb_weaken; [|done]. by intros [].
  - apply QueryResult_dtor_prepares.
  - done.
Qed.

(** *** Columns *)

Lemma column_dispatcher_column (depth : nat) (stmt_ : sqlite3_stmt) (t : ty)
    (idx : Z) (e e' : engine_state) (v : val t) (idx' : Z) (cs : list call) :
  column_dispatcher depth stmt_ t idx e = Some ((v, idx'), e', cs) ->
  idx' = (idx + 1)%Z /\ Forall (fun c => column_of c = Some (stmt_, idx)) cs.
Proof.
  revert t idx e e' v idx' cs. induction depth as [|depth IHd];
    induction t; intros idx e e' v idx' cs Hrun.
  all: try match type of Hrun with
       | column_dispatcher _ _ (TOptional ?t) _ _ = _ =>
           rewrite column_dispatcher_optional in Hrun; cbv zeta in Hrun;
           destruct (extractable _ t); [|done];
           destruct (decide _); [simplify_eq; by repeat constructor|];
           destruct (column_dispatcher _ _ t idx e) as [[[[v1 i'] e1] c1]|] eqn:Hin;
           [|done]; simplify_eq;
           apply IHt in Hin as [-> Hin]; split; [done|by constructor]
       end.
  all: simpl in Hrun; unfold_Eng; try done.
  all: repeat match type of Hrun with
       | context [let '(_, _) := ?x in _] => destruct x
       | context [match ?x with _ => _ end] => destruct x eqn:?
       end; simplify_eq; simpl; try by repeat constructor.
  rewrite app_nil_r. by eapply IHd.
Qed.

Lemma column_all_columns (depth : nat) (stmt_ : sqlite3_stmt) (ts : list ty)
    (idx : Z) (e e' : engine_state) (args' : list arg) (cs : list call) :
  column_all depth stmt_ ts idx e = Some (args', e', cs) ->
  exists css,
    cs = concat css /\ length css = length ts
    /\ forall (i : nat) (rs : list call),
         css !! i = Some rs ->
         Forall (fun c => column_of c = Some (stmt_, (idx + Z.of_nat i)%Z)) rs.
Proof.
  revert idx e e' args' cs. induction ts as [|t ts IH];
    intros idx e e' args' cs Hrun; simpl in Hrun.
  - unfold_Eng. simplify_eq. by exists [].
  - unfold mbind, Eng_bind in Hrun.
    destruct (column_dispatcher depth stmt_ t idx e) as [[[[v i'] e1] c1]|] eqn:Hone;
      [|done].
    destruct (column_all depth stmt_ ts i' e1) as [[[rest e2] c2]|] eqn:Hrest;
      [|done].
    unfold_Eng. simplify_eq.
    apply column_dispatcher_column in Hone as [-> Hone].
    apply IH in Hrest as (css & -> & Hlen & Hcols).
    exists (c1 :: css). rewrite app_nil_r. split; [done|].
    split; [simpl; by rewrite Hlen|].
    intros [|i] rs Hi; simpl in Hi.
    + simplify_eq. by rewrite Z.add_0_r.
    + apply Hcols in Hi. eapply Forall_impl; [done|]. intros c. simpl.
      by replace (idx + 1 + Z.of_nat i)%Z with (idx + Z.of_nat (S i))%Z by lia.
Qed.

(** X9: when the row fetcher returns [true], the columns it read are
    those of its outputs, in order: after [sqlite3_column_count] and the
    step, if one was made, come the reads for the first output, all of
    column 0 of the cursor's statement, then those for the second, all of
    column 1, and so on, also for outputs that are optional or converted by
    the user's function. *)
Theorem output_reads_its_column (depth : nat) (this this' : QueryResult)
    (args args' : list arg) (w w' : World) :
  operator_call depth this args w = Return true (this', args', w') ->
  exists pre css,
    calls_since w w' = pre ++ concat css
    /\ forallb (fun c => negb (is_column_read c)) pre = true
    /\ length css = length args
    /\ forall (i : nat) (rs : list call),
         css !! i = Some rs ->
         Forall (fun c => column_of c = Some (stmt this, Z.of_nat i)) rs.
Proof.
  unfold operator_call.
  destruct (negb (forallb _ _)); [done|].
  destruct (decide _); [done|].
  destruct (negb (first_invocation this)).
  - destruct (sqlite3_step _ _) as [rc e1] eqn:Hstep. simpl.
    destruct (decide _); [done|].
    destruct (column_all _ _ _ _ _) as [[[a' e2] cs]|] eqn:Hcols; [|done].
    intros [= <- <- <-].
    apply column_all_columns in Hcols as (css & -> & Hlen & Hcols).
    eexists [_; _], css. rewrite length_map in Hlen.
    split; [apply calls_since_app; simpl; by rewrite <- ?app_assoc|].
    split; [done|]. split; [done|]. exact Hcols.
  - destruct (ret this) as [rc|]; [|done]. destruct (decide _); [done|].
    destruct (column_all _ _ _ _ _) as [[[a' e2] cs]|] eqn:Hcols; [|done].
    intros [= <- <- <-].
    apply column_all_columns in Hcols as (css & -> & Hlen & Hcols).
    eexists [_], css. rewrite length_map in Hlen.
    split; [apply calls_since_app; simpl; by rewrite <- ?app_assoc|].
    split; [done|]. split; [done|]. exact Hcols.
Qed.

(** *** Integers *)

Lemma wrap_signed_in_range (b : N) (z : Z) :
  (0 < b)%N -> (- 2 ^ (Z.of_N b - 1) <= z < 2 ^ (Z.of_N b - 1))%Z ->
  wrap_signed b z = z.
Proof.
  intros Hb Hz. unfold wrap_signed. cbv zeta.
  assert (Hpow : (2 ^ Z.of_N b = 2 * 2 ^ (Z.of_N b - 1))%Z).
  { rewrite <- Z.pow_succ_r by lia. f_equal. lia. }
  rewrite Hpow, Z.mul_comm, Z.div_mul by lia.
  rewrite Z.mod_small by lia. lia.
Qed.

Lemma pow2_le_63 (b : N) :
  (0 < b <= 64)%N -> (2 ^ (Z.of_N b - 1) <= 2 ^ 63)%Z.
Proof. intros Hb. apply Z.pow_le_mono_r; lia. Qed.

(** X10: an integer of a type of up to 64 bits, signed or unsigned, or a
    [bool], that is bound and read back as it was stored comes back as the
    same integer, also an unsigned one above the largest [sqlite3_int64]. *)
Theorem integer_round_trip (depth : nat) (k : integral) (z : Z)
    (s s' : sqlite3_stmt) (idx col : Z) (e e' : engine_state) :
  in_range k z ->
  (sqlite3_column_int64 s' col e').1 = to_sqlite3_int64 z ->
  bind_dispatcher s (TIntegral k) z idx e
  = Some ((idx + 1)%Z, sqlite3_bind_int64 s idx (to_sqlite3_int64 z) e,
          [call_bind_int64 s idx (to_sqlite3_int64 z)])
  /\ exists e2,
       column_dispatcher depth s' (TIntegral k) col e'
       = Some ((z, (col + 1)%Z), e2,
               [call_column_int64 s' col (to_sqlite3_int64 z)]).
Proof.
  intros Hrange Hcol. split; [done|].
  assert (Hback : from_sqlite3_int64 k (to_sqlite3_int64 z) = z).
  { unfold to_sqlite3_int64. destruct k as [|b|b]; simpl in *.
    - by destruct Hrange as [-> | ->].
    - destruct Hrange as [[Hb0 Hb] Hz].
      pose proof (pow2_le_63 b (conj Hb0 Hb)) as Hle.
      rewrite (wrap_signed_in_range 64) by (simpl; lia).
      by apply wrap_signed_in_range.
    - destruct Hrange as [[Hb0 Hb] Hz]. unfold wrap_unsigned, wrap_signed.
      cbv zeta.
      assert (Hdiv : (2 ^ Z.of_N b | 2 ^ Z.of_N 64)%Z).
      { exists (2 ^ (Z.of_N 64 - Z.of_N b))%Z.
        rewrite <- Z.pow_add_r by lia. f_equal. lia. }
      rewrite Zminus_mod.
      rewrite Z.mod_mod_divide by done.
      rewrite <- Zminus_mod.
      replace (z + 2 ^ Z.of_N 64 / 2 - 2 ^ Z.of_N 64 / 2)%Z with z by lia.
      by apply Z.mod_small. }
  destruct depth; simpl; unfold_Eng;
    destruct (sqlite3_column_int64 s' col e') as [v e2]; simpl in *;
    subst v; rewrite Hback; by eexists.
Qed.

(** *** Operations that compile run *)

(** X11: on cursors that [query()] made for one query string, every
    operation that compiles runs: [query()] returns or throws, the row
    fetcher returns or throws, the destructor returns; no member is read
    that was not initialised and nothing is thrown out of a destructor.
    The cursors afterwards are again such cursors. *)
Theorem cursor_operations_run (depth : nat) (q : query_ref) (op : cursor_op)
    (st : thread) :
  cursors_of q st -> stepped st.1 -> op_on q op ->
  well_formed depth (length st.1) op ->
  exists st', step_op depth op st = Some st'
              /\ cursors_of q st' /\ stepped st'.1.
Proof.
  intros Hcur Hret Hon Hwf.
  assert (Hgo : exists st', step_op depth op st = Some st' /\ stepped st'.1).
  { destruct st as [live w]. destruct Hcur as [Hcbs Hcache].
    destruct op as [q' bind_args|i args|i]; simpl in *.
    - subst q'.
      pose proof (query_compiles_total depth q bind_args w Hwf) as Htot.
      pose proof (query_inv depth q bind_args w) as Hq.
      destruct (query depth q bind_args w) as [r w'|e w'| |]; try done.
      + eexists. split; [done|]. simpl. apply Forall_app. split; [done|].
        destruct Hq as (_ & _ & _ & _ & _ & _ & rc & _ & _ & _ & _ & Hrc & _).
        constructor; [|done]. by rewrite Hrc.
      + by eexists.
    - destruct Hwf as [Hi Hext].
      destruct (lookup_lt_is_Some_2 live i Hi) as [r Hr]. rewrite Hr.
      pose proof (Forall_lookup_1 _ _ _ _ Hret Hr) as Hsome. simpl in Hsome.
      pose proof (operator_call_total depth r args w Hext (or_intror Hsome))
        as Htot.
      pose proof (operator_call_inv depth r args w) as Hcall. simpl in Hcall.
      destruct (operator_call depth r args w)
        as [b [[r' a'] w']|e [[r' a'] w']| |]; try done.
      + eexists. split; [done|]. simpl. apply Forall_insert; [done|].
        destruct Hcall as (_ & _ & _ & _ & rc & _ & _ & _ & Hrc & _).
        by rewrite Hrc.
      + eexists. split; [done|]. simpl. apply Forall_insert; [done|].
        by destruct Hcall as (_ & _ & -> & _).
    - destruct (lookup_lt_is_Some_2 live i Hwf) as [r Hr]. rewrite Hr.
      pose proof (Forall_lookup_1 _ _ _ _ Hcbs Hr) as Hcb. simpl in Hcb.
      destruct (decide (stmt r = nullptr)) as [Hnull|Hnn].
      + rewrite QueryResult_dtor_nullptr by done. eexists. split; [done|].
        by apply Forall_delete.
      + destruct Hcache as [->|[c Hc]]; [done|].
        destruct (QueryResult_dtor_put q r c w Hnn Hcb Hc) as (w' & -> & _).
        eexists. split; [done|]. by apply Forall_delete. }
  destruct Hgo as (st' & Hstep & Hret'). exists st'. split; [done|].
  split; [|done]. by destruct (step_op_inv depth q op st st' Hcur Hon Hstep).
Qed.

(** *** beginTransaction() and commit() *)

Lemma discarded_query_inv (q : query_ref) (w : World) :
  match discarded (query 1 q []) w with
  | Return _ w' =>
      exists pre s rc,
        calls_since w w'
        = pre ++ call_step s rc
              :: (if decide (s = nullptr) then []
                  else [call_clear_bindings s; call_reset s])
        /\ failures pre = []
        /\ forallb (fun c => is_setup c || is_prepare c) pre = true
        /\ (cached q w ≠ [] -> pre = [])
        /\ cached q w' ≡ₚ cached q w ++ prepared pre
  | Throw e w' =>
      query 1 q [] w = Throw e w'
      /\ List.filter is_step (calls_since w w') = []
  | _ => False
  end.
Proof.
  unfold discarded. unfold mbind, M_bind.
  pose proof (query_total 0 q [] w eq_refl eq_refl) as Htot.
  pose proof (query_inv 1 q [] w) as Hq.
  destruct (query 1 q [] w) as [r w1|e w1| |] eqn:Hquery; try done.
  - destruct Hq as (Hcb & _ & args' & c' & pre & binds & rc & Hser & Hs & Hf
                    & Htr & _ & Hlen & _ & _ & Hcase).
    assert (args' = []) as ->.
    { inversion Hser as [? Hno|? ? Hyes]; [done|]. by simplify_eq. }
    destruct binds; [|done]. simpl in Htr.
    assert (Hpre : pre = [] \/ prepare_last SQLITE_OK (stmt r) pre) by tauto.
    assert (Hfail : failures pre = []) by by apply (failures_checkout (stmt r)).
    assert (Hcalls : forallb (fun c => is_setup c || is_prepare c) pre = true)
      by by apply (checkout_calls SQLITE_OK (stmt r)).
    assert (Hreuse : cached q w ≠ [] -> pre = []).
    { destruct Hcase as [(-> & _)|(_ & Hnil & _)]; done. }
    destruct (decide (stmt r = nullptr)) as [Hnull|Hnn].
    + rewrite QueryResult_dtor_nullptr by done.
      exists pre, (stmt r), rc. rewrite decide_True by done.
      split; [by apply calls_since_app|]. split_and!; try done.
      destruct Hcase as [(-> & _ & Hperm)|(_ & Hcw & Hcw' & Hprep)].
      * rewrite Hperm, filter_nonnull_singleton.
        rewrite decide_False by (intros ?; done). unfold prepared. simpl.
        by rewrite app_nil_r.
      * rewrite (prepared_prepare_last _ _ _ Hprep), Hcw, Hcw'.
        by rewrite decide_False by (intros [_ ?]; done).
    + destruct (QueryResult_dtor_put q r c' w1 Hnn Hcb) as (w2 & -> & Hs2 & Htr2).
      { by rewrite Hs, lookup_insert_eq. }
      exists pre, (stmt r), rc. rewrite decide_False by done.
      split; [apply calls_since_app; by rewrite Htr2, Htr, <- !app_assoc|].
      split_and!; try done.
      assert (Hcached : cached q w2 ≡ₚ stmt r :: cached q w1).
      { erewrite (cached_insert q _ w1 w2) by done.
        erewrite (cached_insert q c' w w1) by done.
        by apply idle_internal_put. }
      rewrite Hcached.
      destruct Hcase as [(-> & _ & Hperm)|(_ & Hcw & Hcw' & Hprep)].
      * rewrite Hperm, filter_nonnull_singleton, decide_True by done.
        unfold prepared. simpl. by rewrite app_nil_r.
      * rewrite (prepared_prepare_last _ _ _ Hprep), Hcw, Hcw'.
        by rewrite decide_True by done.
  - split; [done|].
    destruct Hq as (_ & _ & _ & _ & Hrc & cs & Htr & Hcase).
    rewrite (calls_since_app w w1 cs) by done.
    destruct Hcase as [(pre & name & db & -> & Hpre)
                      |(s & pre & db & sql & n & fl & -> & Hpre)].
    + apply (filter_none is_setup); [by intros []|].
      rewrite forallb_app. simpl. rewrite andb_true_r.
      eapply forallb_weaken; [|done]. by intros [].
    + apply (filter_none (fun c => is_setup c || is_prepare c)); [by intros []|].
      apply (checkout_calls (err_code e) s). right. by eexists _, _, _, _, _.
Qed.

(** X12: [beginTransaction()] and [commit()] step their statement once
    and give it straight back to its cache: whatever code the step returns
    (also an error), the call returns and the code is gone; what is thrown
    is what [query()] throws for a failed open or prepare, before any step.
    Once the statement is in the cache, a call makes the step and the two
    calls that release the statement, and nothing else. *)
Theorem transaction_step_code_dropped (addr : N) (w : World) :
  let outcome_of (q : query_ref) (o : outcome World unit) : Prop :=
    match o with
    | Return _ w' =>
        exists pre s rc,
          calls_since w w'
          = pre ++ call_step s rc
                :: (if decide (s = nullptr) then []
                    else [call_clear_bindings s; call_reset s])
          /\ failures pre = []
          /\ forallb (fun c => is_setup c || is_prepare c) pre = true
          /\ (cached q w ≠ [] -> pre = [])
          /\ cached q w' ≡ₚ cached q w ++ prepared pre
    | Throw e w' =>
        query 1 q [] w = Throw e w'
        /\ List.filter is_step (calls_since w w') = []
    | _ => False
    end in
  outcome_of (begin_transaction_query addr) (beginTransaction addr w)
  /\ outcome_of (commit_transaction_query addr) (commit addr w).
Proof.
  split.
  - apply (discarded_query_inv (begin_transaction_query addr) w).
  - apply (discarded_query_inv (commit_transaction_query addr) w).
Qed.

(** *** The end of the thread *)





(** *** Text *)

Lemma substring_whole (s : string) :
  String.substring 0 (String.length s) s = s.
Proof. induction s as [|c s IH]; [done|]. simpl. by rewrite IH. Qed.

(** X14: a [std::string] or [std::string_view] output is read by
    [sqlite3_column_text] and then [sqlite3_column_bytes], in this order,
    on the same column; when the engine gives the length of the text it
    gave, the output is that text, whole. *)
Theorem text_read_whole (depth : nat) (s : sqlite3_stmt) (col : Z)
    (e : engine_state) :
  let txt := (sqlite3_column_text s col e).1 in
  let e1 := (sqlite3_column_text s col e).2 in
  let e2 := (sqlite3_column_bytes s col e1).2 in
  (sqlite3_column_bytes s col e1).1 = Z.of_nat (String.length txt) ->
  column_dispatcher depth s TString col e
  = Some ((txt, (col + 1)%Z), e2,
          [call_column_text s col txt;
           call_column_bytes s col (Z.of_nat (String.length txt))])
  /\ column_dispatcher depth s TStringView col e
     = Some ((txt, (col + 1)%Z), e2,
             [call_column_text s col txt;
              call_column_bytes s col (Z.of_nat (String.length txt))]).
Proof.
  intros txt e1 e2 Hlen. subst txt e1 e2.
  destruct depth; simpl; unfold_Eng;
    destruct (sqlite3_column_text s col e) as [txt e1]; simpl in *;
    destruct (sqlite3_column_bytes s col e1) as [n e2]; simpl in *;
    subst n; unfold string_of_ptr_len; rewrite Nat2Z.id, substring_whole;
    by split.
Qed.

(** *** A database that cannot be opened *)

(** X15: on a thread that has no connection, a [query()] for a query
    string that has no cache calls [sqlite3_open] once, on the database's
    name.  When the call does not return [SQLITE_OK], [query()] throws its
    code and the thread is left without connection and with the caches it
    had, so that the next [query()] tries again; otherwise the thread has
    the connection from then on, whether [query()] returns or throws. *)
Theorem open_attempted_once (depth : nat) (q : query_ref)
    (bind_args : list arg) (w : World) :
  connection_tls_object w = None ->
  singleton_tls_object w !! q_addr q = None ->
  match query depth q bind_args w with
  | Return _ w' =>
      exists db,
        List.filter is_open (calls_since w w')
        = [call_open (maybe_invoke db_name) SQLITE_OK db]
        /\ connection_tls_object w' = Some {| db_handle := db |}
  | Throw e w' =>
      exists rc db,
        List.filter is_open (calls_since w w')
        = [call_open (maybe_invoke db_name) rc db]
        /\ if decide (rc = SQLITE_OK)
           then connection_tls_object w' = Some {| db_handle := db |}
           else err_code e = rc
                /\ connection_tls_object w' = None
                /\ singleton_tls_object w' = singleton_tls_object w
  | _ => True
  end.
Proof.
  intros Hconn Hq. revert bind_args.
  induction depth as [|depth IH]; intros bind_args; [done|]. simpl.
  destruct (existsb _ bind_args); [apply IH|].
  destruct (forallb _ bind_args); [|done].
  unfold get_tls, singleton_tls, PreparedStmtCache_ctor, connection_tls,
    Connection_ctor, configure_once, internal_get.
  unfold_M. rewrite Hq, Hconn. unfold_Eng.
  assert (Hsince : forall (w' : World) cs,
            trace w' = trace w ++ cs -> calls_since w w' = cs)
    by (intros; by apply calls_since_app).
  destruct (sqlite3_configured w); simpl;
    destruct (sqlite3_open _ _) as [[rc db] e1]; simpl;
    (destruct (decide (rc ≠ SQLITE_OK)) as [Hrc|Hrc]; simpl;
     [exists rc, db; rewrite decide_False by done;
      erewrite Hsince by (simpl; by rewrite <- ?app_assoc); by split
     |apply dec_stable in Hrc; subst rc]).
  all: destruct post_connection_hook; simpl.
  all: destruct (sqlite3_prepare_v3 _ _ _ _ _) as [[rc s] e2]; simpl.
  all: destruct (decide (rc ≠ SQLITE_OK)); simpl;
    [exists SQLITE_OK, db; rewrite decide_True by done;
     erewrite Hsince by (simpl; by rewrite <- ?app_assoc); by split|].
  all: destruct (bind_all s bind_args 1 _) as [[[idx' e3] binds]|] eqn:Hbind;
    [|done].
  all: apply bind_all_spec in Hbind as (_ & _ & Hbinds & _).
  all: unfold QueryResult_ctor; unfold_Eng; simpl.
  all: destruct (sqlite3_step s e3) as [rc' e4]; simpl.
  all: exists db; split; [|done].
  all: erewrite Hsince by (simpl; by rewrite <- ?app_assoc).
  all: simpl; rewrite List.filter_app; simpl.
  all: by rewrite (filter_none is_bind is_open binds); [|by intros []|].
Qed.

End Properties.

(** ** Instances of the theorems on the small engine *)

Section Instances.
Import Toy Runs.

Lemma cache_reuse_witness :
  use_query_seq (DB := db one_row) (CV := converters)
    1 select_query three_uses (start one_row) = Some after_three_uses
  /\ exists cs,
       trace after_three_uses = trace (start one_row) ++ cs
       /\ length (prepared (SQ := sqlite one_row) cs) <= 1
       /\ cached select_query after_three_uses
          ≡ₚ cached select_query (start one_row)
             ++ prepared (SQ := sqlite one_row) cs.
Proof.
  split; [by vm_compute|].
  eapply (cache_reuse (DB := db one_row) (CV := converters)
            1 select_query three_uses (start one_row) after_three_uses).
  by vm_compute.
Defined.

Lemma column_count_guard_witness :
  exists w',
    operator_call (CV := converters) 1 first_query.1 out3 first_query.2
    = Throw {| err_code := 1 |} (first_query.1, out3, w')
    /\ engine w' = engine first_query.2
    /\ trace w' = trace first_query.2 ++ [call_column_count 1%N 2]
    /\ singleton_tls_object w' = singleton_tls_object first_query.2.
Proof.
  apply (column_count_guard (SQ := sqlite one_row) (CV := converters)
           1 first_query.1 out3 first_query.2).
  - by vm_compute.
  - by vm_compute.
Defined.

Lemma dtor_without_statement_is_noop_witness :
  QueryResult_dtor (DB := db one_row) QueryResult_default first_query.2
  = Return tt first_query.2
  /\ stmt moved_from = nullptr
  /\ QueryResult_dtor (DB := db one_row) moved_from first_query.2
     = Return tt first_query.2
  /\ operator_assign 1 1 two_cursors = Some two_cursors.
Proof.
  apply (dtor_without_statement_is_noop (DB := db one_row)
           first_query.2 2 1 1 two_cursors two_cursors_moved
           moved_from first_query.1).
  - done.
  - by vm_compute.
  - by vm_compute.
  - by vm_compute.
Defined.

(** Against C2 as stated: when [query()] returns, before any invocation
    of the row fetcher, the statement has been stepped. *)
Lemma query_steps_before_first_advance :
  ~ (forall (r : QueryResult) (w' : World),
       query (DB := db one_row) (CV := converters)
         1 select_query [int_arg 1] (start one_row) = Return r w' ->
       List.filter is_step (trace w') = []).
Proof.
  intros Hnone.
  specialize (Hnone first_query.1 first_query.2 ltac:(by vm_compute)).
  vm_compute in Hnone. discriminate Hnone.
Qed.

(** C3, at the failing input: on the one-row table the invocations of
    the row fetcher of [query<select_query>(1)] return true, false, true.
    After the second one the cursor has the code [SQLITE_DONE]; the third
    one steps the statement, which starts over, and delivers the row
    [(1, "hello")] again.  On the empty table, where the cursor never
    delivered a row, the three invocations return false without a step. *)
Lemma exhausted_cursor_delivers_row_again :
  fetch_rows (CV := converters) 1 first_query.1 [out2; out2] first_query.2
  = Some ([true; false], two_fetches.1.2, two_fetches.2)
  /\ resultCode two_fetches.1.2 = Some 101%Z
  /\ operator_call (CV := converters) 1 two_fetches.1.2 out2 two_fetches.2
     = Return true
         (three_fetches.1.2, [int_arg 1; string_arg "hello"], three_fetches.2)
  /\ fetch_rows (CV := converters) 1 first_query.1 [out2; out2; out2]
       first_query.2
     = Some ([true; false; true], three_fetches.1.2, three_fetches.2)
  /\ List.filter is_step (calls_since first_query.2 three_fetches.2)
     = [call_step 1%N 101; call_step 1%N 100]
  /\ fetch_rows (CV := converters) 1 empty_query.1 [out2; out2; out2]
       empty_query.2
     = Some ([false; false; false], empty_query.1, empty_fetches.2)
  /\ List.filter is_step (calls_since empty_query.2 empty_fetches.2) = [].
Proof. by vm_compute. Qed.

(** C5, at the failing input: after [reassign_cursor] both cursors are
    destroyed, yet of the two statements prepared and checked out only
    statement 2 was cleared, reset and put back; statement 1, which
    [fetch_row] held when it was assigned to, is in no cache and was never
    reset. *)
Lemma reassigned_cursor_leaks_statement :
  reassign_cursor (DB := db one_row) (CV := converters)
    1 select_query [int_arg 1] [int_arg 2] (start one_row)
  = Return tt reassigned
  /\ prepared (SQ := sqlite one_row) (trace reassigned) = [1%N; 2%N]
  /\ cached select_query reassigned = [2%N]
  /\ List.filter is_release (trace reassigned)
     = [call_clear_bindings 2%N; call_reset 2%N].
Proof. by vm_compute. Qed.

Lemma bind_dispatch_witness :
  exists bind_args' pre binds rc,
    serializes_to (CV := converters) insert_args bind_args'
    /\ (existsb (fun a => has_serialize_fn (CV := converters) (arg_t a))
          insert_args = false ->
        bind_args' = insert_args)
    /\ trace insert_run.2
       = trace (start one_row) ++ pre ++ binds
         ++ [call_step (stmt insert_run.1) rc]
    /\ forallb (fun c => negb (is_bind c) && negb (is_step c)) pre = true
    /\ length binds = length bind_args'
    /\ forall (i : nat) (a : arg),
         bind_args' !! i = Some a ->
         binds !! i = spec_bind_call (stmt insert_run.1) (projT1 a) (projT2 a)
                        (1 + Z.of_nat i)
         /\ is_Some (binds !! i).
Proof.
  apply (bind_dispatch (DB := db one_row) (CV := converters)
           1 insert_users_query insert_args (start one_row)).
  by vm_compute.
Defined.

Lemma optional_composition_witness :
  bind_dispatcher (SQ := sqlite null_row) (UT := users)
    1%N (TOptional TString) None 2 init
  = Some (3%Z, init, [call_bind_null 1%N 2])
  /\ bind_dispatcher (SQ := sqlite null_row) (UT := users)
       1%N (TOptional TString) (Some "hello") 2 init
     = Some (3%Z, init, [call_bind_text 1%N 2 "hello" 5])
  /\ column_dispatcher (SQ := sqlite null_row) (CV := converters)
       1 1%N (TOptional TString) 1 (engine null_query.2)
     = Some ((None, 2%Z), engine null_query.2, [call_column_type 1%N 1 5])
  /\ column_dispatcher (SQ := sqlite null_row) (CV := converters)
       1 1%N (TOptional (TIntegral (i_signed 32))) 0 (engine null_query.2)
     = Some ((Some 7%Z, 1%Z), engine null_query.2,
             [call_column_type 1%N 0 1; call_column_int64 1%N 0 7]).
Proof.
  destruct (optional_composition (SQ := sqlite null_row) (CV := converters)
              1 1%N TString 2 init) as [Hbind _].
  destruct (Hbind ltac:(reflexivity)) as (Habsent & Hpresent & _).
  destruct (optional_composition (SQ := sqlite null_row) (CV := converters)
              1 1%N TString 1 (engine null_query.2)) as [_ Hnull].
  destruct (optional_composition (SQ := sqlite null_row) (CV := converters)
              1 1%N (TIntegral (i_signed 32)) 0 (engine null_query.2))
    as [_ Hint].
  split; [exact Habsent|].
  split; [etrans; [exact (Hpresent "hello"%string)|by vm_compute]|].
  split; [etrans; [exact (Hnull eq_refl)|by vm_compute]|].
  etrans; [exact (Hint eq_refl)|by vm_compute].
Defined.

Lemma serialize_converter_dispatch_witness :
  query (DB := db one_row) (CV := converters) 2 insert_query wrapper_args
  = query (DB := db one_row) (CV := converters) 1 insert_query
      (map (maybe_serialize (CV := converters)) wrapper_args)
  /\ maybe_serialize (CV := converters)
       (existT (TUser 1) ("hello world" : @val users (TUser 1)))
     = existT TString "hello world"
  /\ maybe_serialize (CV := converters)
       (existT (TOptional (TUser 1))
          (None : @val users (TOptional (TUser 1))))
     = existT (TOptional TString) (None : @val users (TOptional TString))
  /\ exists pre binds rc,
       trace wrapper_run.2
       = trace (start one_row) ++ pre ++ binds
         ++ [call_step (stmt wrapper_run.1) rc]
       /\ length binds = 2
       /\ binds !! 1
          = Some (call_bind_text (stmt wrapper_run.1) 2 "hello world" 11).
Proof.
  destruct (serialize_converter_dispatch (DB := db one_row) (CV := converters)
              1 insert_query wrapper_args (TUser 1) TString
              (fun x : string => x) "hello world" (start one_row))
    as (Hq & _ & _ & _ & Hv & _ & _ & Hnone & Hrun).
  - by vm_compute.
  - reflexivity.
  - split; [exact Hq|]. split; [exact Hv|]. split; [exact Hnone|].
    assert (Hret : query (DB := db one_row) (CV := converters)
                     2 insert_query wrapper_args (start one_row)
                   = Return wrapper_run.1 wrapper_run.2) by by vm_compute.
    rewrite Hret in Hrun.
    destruct Hrun as (args' & pre & binds & rc & _ & _ & Htr & _ & Hlen & _
                      & Hbound).
    exists pre, binds, rc. split; [exact Htr|]. split; [exact Hlen|].
    destruct (Hbound ltac:(reflexivity) 1 ltac:(reflexivity)) as [Hb _].
    etrans; [exact Hb|by vm_compute].
Defined.

(** *** Some runs *)

Example insert_run_calls :
  trace insert_run.2
  = [call_config 2; call_config 16; call_open ":memory:" 0 1%N;
     call_busy_handler 1%N;
     call_prepare_v3 1%N "insert into users values (?1, ?2, ?3, ?4, ?5)" 46 1 0 1%N;
     call_bind_text 1%N 1 "John" 4; call_bind_text 1%N 2 "Doe" 3;
     call_bind_int64 1%N 3 29; call_bind_null 1%N 4;
     call_bind_blob 1%N 5 "hello" 5; call_step 1%N 100].
Proof. by vm_compute. Qed.

Example query_cannot_open :
  exists w,
    query (DB := db cannot_open) (CV := converters)
      1 select_query [int_arg 1] (start cannot_open)
    = Throw {| err_code := 14 |} w
    /\ trace w = [call_config 2; call_config 16; call_open ":memory:" 14 1%N]
    /\ connection_tls_object w = None.
Proof. eexists. by vm_compute. Qed.

Example query_cannot_prepare :
  exists w,
    query (DB := db cannot_prepare) (CV := converters)
      1 select_query [int_arg 1] (start cannot_prepare)
    = Throw {| err_code := 1 |} w
    /\ trace w
       = [call_config 2; call_config 16; call_open ":memory:" 0 1%N;
          call_busy_handler 1%N;
          call_prepare_v3 1%N "select a, b from test where a = ?1" 35 1 1 0%N].
Proof. eexists. by vm_compute. Qed.

Example first_query_rows :
  three_fetches.1.1 = [true; false; true].
Proof. by vm_compute. Qed.

(** *** Several cursors at once, on the small engine *)

Lemma statements_conserved_witness :
  cached select_query after_cursor_ops.2 ++ held after_cursor_ops.1
  ≡ₚ cached select_query (start one_row)
     ++ prepared (SQ := sqlite one_row)
          (calls_since (start one_row) after_cursor_ops.2).
Proof.
  apply (statements_conserved (DB := db one_row) (CV := converters)
           1 select_query cursor_ops (start one_row)).
  - repeat constructor.
  - by vm_compute.
Defined.


Lemma statement_not_shared_witness :
  NoDup (cached select_query after_cursor_ops.2 ++ held after_cursor_ops.1)
  /\ forall s, s ∈ cached select_query after_cursor_ops.2 ->
               s ∉ held after_cursor_ops.1.
Proof.
  apply (statement_not_shared (DB := db one_row) (CV := converters)
           1 select_query cursor_ops (start one_row)).
  - repeat constructor.
  - by vm_compute.
  - apply (bool_decide_unpack (NoDup _)). by vm_compute.
Defined.

Lemma other_caches_untouched_witness :
  singleton_tls_object after_cursor_ops.2 !! 1%N
  = singleton_tls_object (start one_row) !! 1%N.
Proof.
  apply (other_caches_untouched (DB := db one_row) (CV := converters)
           1 select_query cursor_ops (start one_row) after_cursor_ops.2
           after_cursor_ops.1).
  - repeat constructor.
  - by vm_compute.
  - done.
Defined.

Lemma destructor_checks_in_witness :
  exists w'',
    QueryResult_dtor (DB := db one_row) third_cursor after_cursor_ops.2
    = Return tt w''
    /\ calls_since after_cursor_ops.2 w''
       = (if decide (stmt third_cursor = nullptr) then []
          else [call_clear_bindings (stmt third_cursor);
                call_reset (stmt third_cursor)])
    /\ cached select_query w''
       ≡ₚ filter (fun s => s ≠ nullptr) [stmt third_cursor]
          ++ cached select_query after_cursor_ops.2.
Proof.
  apply (destructor_checks_in (DB := db one_row) (CV := converters)
           1 select_query cursor_ops (start one_row) after_cursor_ops.2
           after_cursor_ops.1 0 third_cursor).
  - repeat constructor.
  - by vm_compute.
  - by vm_compute.
Defined.

Lemma one_connection_per_thread_witness :
  opened (SQ := sqlite one_row) (calls_since (start one_row) after_cursor_ops.2)
  = connection_of after_cursor_ops.2
  /\ busy_handlers (calls_since (start one_row) after_cursor_ops.2)
     = connection_of after_cursor_ops.2
  /\ hooked (calls_since (start one_row) after_cursor_ops.2) = []
  /\ Forall (fun name => name = ":memory:"%string)
       (opens_named (calls_since (start one_row) after_cursor_ops.2)).
Proof.
  apply (one_connection_per_thread (DB := db one_row) (CV := converters)
           1 cursor_ops [] after_cursor_ops.1 (start one_row)
           after_cursor_ops.2).
  - reflexivity.
  - by vm_compute.
Defined.

Lemma configured_once_before_open_witness :
  configs (calls_since (start one_row) after_cursor_ops.2)
  = (if sqlite3_configured (start one_row) then []
     else if sqlite3_configured after_cursor_ops.2 then [2%Z; 16%Z] else [])
  /\ (opens_named (calls_since (start one_row) after_cursor_ops.2) ≠ [] ->
      sqlite3_configured after_cursor_ops.2 = true)
  /\ (forall pre post,
        calls_since (start one_row) after_cursor_ops.2 = pre ++ post ->
        opens_named pre = [] \/ configs post = [])
  /\ (is_Some (connection_tls_object (start one_row)) ->
      configs (calls_since (start one_row) after_cursor_ops.2) = []
      /\ opens_named (calls_since (start one_row) after_cursor_ops.2) = []).
Proof.
  apply (configured_once_before_open (DB := db one_row) (CV := converters)
           1 cursor_ops [] after_cursor_ops.1 (start one_row)
           after_cursor_ops.2).
  by vm_compute.
Defined.

Lemma prepare_on_own_connection_witness :
  caches_on_connection after_cursor_ops.2
  /\ (forall c, connection_tls_object (start one_row) = Some c ->
                connection_tls_object after_cursor_ops.2 = Some c)
  /\ forall db sql nbyte flags rc s,
       call_prepare_v3 db sql nbyte flags rc s
         ∈ calls_since (start one_row) after_cursor_ops.2 ->
       connection_tls_object after_cursor_ops.2 = Some {| db_handle := db |}
       /\ sql = "select a, b from test where a = ?1"%string
       /\ nbyte = (Z.of_nat (String.length sql) + 1)%Z
       /\ flags = 1%Z.
Proof.
  apply (prepare_on_own_connection (DB := db one_row) (CV := converters)
           1 select_query cursor_ops [] after_cursor_ops.1 (start one_row)
           after_cursor_ops.2).
  - intros a c Hc. simpl in Hc. by rewrite lookup_empty in Hc.
  - repeat constructor.
  - by vm_compute.
Defined.

Lemma cursor_operations_run_witness :
  exists st',
    step_op (DB := db one_row) (CV := converters) 1 (op_fetch 0 out2)
      after_cursor_ops = Some st'
    /\ cursors_of select_query st' /\ stepped st'.1.
Proof.
  apply (cursor_operations_run (DB := db one_row) (CV := converters)
           1 select_query (op_fetch 0 out2) after_cursor_ops).
  - split; [vm_compute; by repeat constructor|].
    right. vm_compute. eauto.
  - vm_compute. repeat constructor. eauto.
  - done.
  - split; [vm_compute; lia|reflexivity].
Defined.

(** *** Columns and values, on the small engine *)

Lemma output_reads_its_column_witness :
  exists pre css,
    calls_since first_query.2 first_fetch.2 = pre ++ concat css
    /\ forallb (fun c => negb (is_column_read c)) pre = true
    /\ length css = length out2
    /\ forall (i : nat) (rs : list call),
         css !! i = Some rs ->
         Forall (fun c => column_of c = Some (stmt first_query.1, Z.of_nat i)) rs.
Proof.
  apply (output_reads_its_column (SQ := sqlite one_row) (CV := converters)
           1 first_query.1 first_fetch.1.1 out2 first_fetch.1.2
           first_query.2 first_fetch.2).
  by vm_compute.
Defined.

Lemma integer_round_trip_witness :
  bind_dispatcher (SQ := sqlite all_ones_row) (UT := users)
    1%N (TIntegral (i_unsigned 64)) uint64_max 1 init
  = Some (2%Z, init, [call_bind_int64 1%N 1 (to_sqlite3_int64 uint64_max)])
  /\ exists e2,
       column_dispatcher (SQ := sqlite all_ones_row) (CV := converters)
         1 1%N (TIntegral (i_unsigned 64)) 0 (engine all_ones_query.2)
       = Some ((uint64_max, 1%Z), e2,
               [call_column_int64 1%N 0 (to_sqlite3_int64 uint64_max)]).
Proof.
  apply (integer_round_trip (SQ := sqlite all_ones_row) (CV := converters)
           1 (i_unsigned 64) uint64_max 1%N 1%N 1 0 init
           (engine all_ones_query.2)).
  - split; [done|]. by vm_compute.
  - by vm_compute.
Defined.

Lemma text_read_whole_witness :
  column_dispatcher (SQ := sqlite one_row) (CV := converters)
    1 1%N TString 1 (engine first_query.2)
  = Some (("hello"%string, 2%Z), engine first_query.2,
          [call_column_text 1%N 1 "hello"; call_column_bytes 1%N 1 5])
  /\ column_dispatcher (SQ := sqlite one_row) (CV := converters)
       1 1%N TStringView 1 (engine first_query.2)
     = Some (("hello"%string, 2%Z), engine first_query.2,
             [call_column_text 1%N 1 "hello"; call_column_bytes 1%N 1 5]).
Proof.
  pose proof (text_read_whole (SQ := sqlite one_row) (CV := converters)
                1 1%N 1 (engine first_query.2)) as Hread.
  destruct Hread as [Hs Hv]; [by vm_compute|].
  split; (etrans; [eassumption|by vm_compute]).
Defined.

(** *** The end of the thread, and a database that cannot be opened *)


Lemma open_attempted_once_witness :
  match query (DB := db cannot_open) (CV := converters)
          1 select_query [int_arg 1] (start cannot_open) with
  | Return _ w' =>
      exists db,
        List.filter is_open (calls_since (start cannot_open) w')
        = [call_open ":memory:" 0 db]
        /\ connection_tls_object w' = Some {| db_handle := db |}
  | Throw e w' =>
      exists rc db,
        List.filter is_open (calls_since (start cannot_open) w')
        = [call_open ":memory:" rc db]
        /\ if decide (rc = 0%Z)
           then connection_tls_object w' = Some {| db_handle := db |}
           else err_code e = rc
                /\ connection_tls_object w' = None
                /\ singleton_tls_object w' = singleton_tls_object (start cannot_open)
  | _ => True
  end.
Proof.
  apply (open_attempted_once (DB := db cannot_open) (CV := converters)
           1 select_query [int_arg 1] (start cannot_open)).
  - reflexivity.
  - reflexivity.
Defined.

(** *** Some more runs *)

Example cursor_ops_calls :
  prepared (SQ := sqlite one_row) (trace after_cursor_ops.2) = [1%N; 2%N]
  /\ map stmt after_cursor_ops.1 = [1%N]
  /\ cached select_query after_cursor_ops.2 = [2%N]
  /\ peak_live (DB := db one_row) (CV := converters) 1 cursor_ops
       ([], start one_row) = 2.
Proof. by vm_compute. Qed.

Example begin_transaction_twice :
  match (_ ← beginTransaction (DB := db no_rows) (CV := converters) 8192;
         beginTransaction (DB := db no_rows) (CV := converters) 8192)
          (start no_rows) with
  | Return _ w' =>
      prepared (SQ := sqlite no_rows) (trace w') = [1%N]
      /\ List.filter is_step (trace w')
         = [call_step 1%N 101; call_step 1%N 101]
  | _ => False
  end.
Proof. by vm_compute. Qed.

Example cannot_open_twice :
  match (query (DB := db cannot_open) (CV := converters)
           1 select_query [int_arg 1] (start cannot_open)) with
  | Throw _ w1 =>
      match query (DB := db cannot_open) (CV := converters)
              1 select_query [int_arg 1] w1 with
      | Throw e w2 =>
          err_code e = 14%Z
          /\ trace w2 = [call_config 2; call_config 16;
                         call_open ":memory:" 14 1%N;
                         call_open ":memory:" 14 1%N]
      | _ => False
      end
  | _ => False
  end.
Proof. by vm_compute. Qed.

End Instances.
